(** * Apparatus parsing and the Spine resolution pipeline

    A shallow embedding of the TEI critical-apparatus resolver:
    [evaluateXPath] and [findElementByXmlId] (tei-processing/helpers.ts),
    the classes [Apparatus] and [Spine] (data/spine.ts) and the edition
    lookup of [FvStoreClass] (data/store.ts).

    Conventions of the embedding.
    - A JavaScript string is a [string]; one character stands for one
      code unit (code units below 256).
    - A DOM [Document] is the table of its elements in document order;
      an element is named by its index in the table, and an [Element]
      object that the program holds (a handle) is the URL of its document
      together with that index.  Mutating an element through a handle
      updates the table kept in the document cache, so every holder of
      the same handle sees the change.
    - [throw] is the [Err] result; the state reached before a throw is
      returned with it.
    - The browser's XPath engine and the remote repository are parameters
      of the development ([xpathEval], [fetchXML]).
    - A Number that [parseInt] gives is a [JsString.JsNumber]: an integer
      of at most 2^53 in absolute value is itself; beyond that the double
      that the engine makes of the integer is not computed.
    - The console is not part of the state.  The line that
      [addBackPointers] writes is followed in [addBackPointersLogged],
      which pairs the state with the console; the other lines
      ([console.debug] in [fetchAllReferences], [console.error] before
      the throws of [rewriteStringRange]) are not followed. *)

From Stdlib Require Import ZArith Ascii String List Bool Lia.
From stdpp Require Import base option list strings gmap fin_maps pretty.

Local Open Scope string_scope.
Local Open Scope list_scope.

(** ** Strings as the program uses them *)

Module JsString.

(** [s.split(c)] for a one-character separator. *)
Fixpoint split (sep : ascii) (s : string) : list string :=
  match s with
  | EmptyString => [EmptyString]
  | String c s' =>
      if Ascii.eqb c sep then EmptyString :: split sep s'
      else match split sep s' with
           | [] => [String c EmptyString]
           | h :: t => String c h :: t
           end
  end.

(** [s.substr(n)]: the string from position [n] on, empty when [s] is
    shorter. *)
Fixpoint substr (s : string) (n : nat) : string :=
  match n, s with
  | O, _ => s
  | S _, EmptyString => EmptyString
  | S n', String _ s' => substr s' n'
  end.

(** [Some rest] when [s] starts with [p]. *)
Fixpoint stripPrefix (p s : string) : option string :=
  match p, s with
  | EmptyString, _ => Some s
  | String a p', String b s' =>
      if Ascii.eqb a b then stripPrefix p' s' else None
  | String _ _, EmptyString => None
  end.

(** [s.replace(/p/g, '')] for a literal, non-empty [p]: occurrences are
    removed in one pass from the left, [fuel] bounding the pass by the
    length of [s]. *)
Fixpoint removeAllFuel (fuel : nat) (p s : string) : string :=
  match fuel with
  | O => s
  | S fuel' =>
      match stripPrefix p s with
      | Some rest => removeAllFuel fuel' p rest
      | None =>
          match s with
          | EmptyString => EmptyString
          | String c s' => String c (removeAllFuel fuel' p s')
          end
      end
  end.

Definition removeAll (p s : string) : string :=
  removeAllFuel (S (String.length s)) p s.

(** Splits [s] at its last occurrence of [c]. *)
Fixpoint splitLast (c : ascii) (s : string) : option (string * string) :=
  match s with
  | EmptyString => None
  | String a s' =>
      match splitLast c s' with
      | Some (l, r) => Some (String a l, r)
      | None => if Ascii.eqb a c then Some (EmptyString, s') else None
      end
  end.

Definition isDigit (c : ascii) : bool :=
  let n := nat_of_ascii c in (48 <=? n)%nat && (n <=? 57)%nat.

Fixpoint allDigits (s : string) : bool :=
  match s with
  | EmptyString => true
  | String c s' => isDigit c && allDigits s'
  end.

(** [\d+] against the whole of [s]. *)
Definition isDigits (s : string) : bool :=
  match s with EmptyString => false | _ => allDigits s end.

(** The characters that [.] does not match (line feed, carriage
    return). *)
Definition isLineTerminator (c : ascii) : bool :=
  let n := nat_of_ascii c in (n =? 10)%nat || (n =? 13)%nat.

Fixpoint noLineTerminator (s : string) : bool :=
  match s with
  | EmptyString => true
  | String c s' => negb (isLineTerminator c) && noLineTerminator s'
  end.

(** White space skipped by [parseInt]: tab, line feed, vertical tab,
    form feed, carriage return, space, no-break space. *)
Definition isWhiteSpace (c : ascii) : bool :=
  let n := nat_of_ascii c in
  ((9 <=? n)%nat && (n <=? 13)%nat) || (n =? 32)%nat || (n =? 160)%nat.

Fixpoint skipWhiteSpace (s : string) : string :=
  match s with
  | String c s' => if isWhiteSpace c then skipWhiteSpace s' else s
  | EmptyString => s
  end.

Definition digitValue (radix : Z) (c : ascii) : option Z :=
  let n := Z.of_nat (nat_of_ascii c) in
  let v := if (48 <=? n)%Z && (n <=? 57)%Z then Some (n - 48)%Z
           else if (97 <=? n)%Z && (n <=? 122)%Z then Some (n - 87)%Z
           else if (65 <=? n)%Z && (n <=? 90)%Z then Some (n - 55)%Z
           else None in
  match v with
  | Some d => if (d <? radix)%Z then Some d else None
  | None => None
  end.

(** The longest prefix of digits of [s], read in [radix] onto [acc];
    [seen] tells whether a digit was read. *)
Fixpoint readDigits (radix : Z) (s : string) (acc : Z) (seen : bool)
  : option Z :=
  match s with
  | String c s' =>
      match digitValue radix c with
      | Some d => readDigits radix s' (acc * radix + d)%Z true
      | None => if seen then Some acc else None
      end
  | EmptyString => if seen then Some acc else None
  end.

(** The Number values that [parseInt] gives.  [Integer z] is the
    integer [z] itself, for [z] between -2^53 and 2^53, the range in
    which every integer is a Number.  [Approximated z] is the Number
    that the engine gives for the integer [z] beyond that range: a
    double near [z], or an infinity; it is not computed here.  The sign
    of a zero is not kept. *)
Inductive JsNumber : Type :=
| NaN
| Integer (z : Z)
| Approximated (z : Z).

(** The Number value of an integer. *)
Definition numberOf (v : Z) : JsNumber :=
  if (Z.abs v <=? 2 ^ 53)%Z then Integer v else Approximated v.

(** [parseInt(s)]. *)
Definition parseInt (s : string) : JsNumber :=
  let s1 := skipWhiteSpace s in
  let '(neg, s2) :=
    match s1 with
    | String "-" r => (true, r)
    | String "+" r => (false, r)
    | _ => (false, s1)
    end in
  let '(radix, s3) :=
    match s2 with
    | String "0" (String "x" r) => (16%Z, r)
    | String "0" (String "X" r) => (16%Z, r)
    | _ => (10%Z, s2)
    end in
  match readDigits radix s3 0%Z false with
  | Some v => numberOf (if neg then (- v)%Z else v)
  | None => NaN
  end.

Fixpoint count (c : ascii) (s : string) : nat :=
  match s with
  | EmptyString => O
  | String a s' => (if Ascii.eqb a c then 1 else 0) + count c s'
  end.

End JsString.

(** ** The DOM as the program sees it *)

(** An element: its qualified name, its attributes by qualified name, and
    the index of its parent element ([None] when the parent is the
    document itself). *)
Record Element : Type := mkElement {
  tagName : string;
  attributes : gmap string string;
  parentNode : option nat
}.

Abbreviation Document := (list Element).

(** A node that an XPath evaluation selects in a document: an element of
    the table, or a node that is not an element (text, attribute, the
    document node). *)
Inductive XNode : Type :=
| XElement (i : nat)
| XOther.

(** A node object held by the program: the document it lives in, named
    by URL, and the node in it. *)
Record Handle : Type := mkHandle {
  docUrl : string;
  node : XNode
}.

(** [e.attributes.getNamedItem(name)], giving the attribute's value. *)
Definition getNamedItem (e : Element) (name : string) : option string :=
  attributes e !! name.

(** [e.setAttribute(name, value)] on the element itself. *)
Definition setAttribute (name value : string) (e : Element) : Element :=
  {| tagName := tagName e;
     attributes := <[name := value]> (attributes e);
     parentNode := parentNode e |}.

(** [doc.getElementsByTagName(tag)]: the elements named [tag], in
    document order. *)
Definition getElementsByTagName (doc : Document) (tag : string) : list nat :=
  List.filter
    (fun i => match doc !! i with
              | Some e => String.eqb (tagName e) tag
              | None => false
              end)
    (seq 0 (length doc)).

(** Whether [a] is reached from [j] by following [parentNode]. *)
Fixpoint hasAncestor (doc : Document) (fuel : nat) (a j : nat) : bool :=
  match fuel with
  | O => false
  | S fuel' =>
      match doc !! j with
      | Some e =>
          match parentNode e with
          | Some p => Nat.eqb p a || hasAncestor doc fuel' a p
          | None => false
          end
      | None => false
      end
  end.

(** [el.getElementsByTagName(tag)]: the descendants of the element [a]
    named [tag], in document order. *)
Definition getDescendantsByTagName (doc : Document) (a : nat) (tag : string)
  : list nat :=
  List.filter (hasAncestor doc (length doc) a) (getElementsByTagName doc tag).

(** ** Errors and results *)

(** One constructor per [throw] of the program, with the kind the
    specification gives it. *)
Inductive Error : Type :=
| AppNoXmlId                          (* MissingIdentifier *)
| PtrParentNotRdg                     (* InvalidParent *)
| RdgNoWit                            (* MissingWitness *)
| RdgInvalidWitness (wit : string)    (* UnknownEdition *)
| RdgParentNotRdgGrp                  (* InvalidParent *)
| RdgGrpNoXmlId                       (* MissingGroupIdentifier *)
| PtrNoTarget                         (* MissingTarget *)
| TargetNotWellFormatted (target : string)   (* MalformedTarget *)
| ParseAppsBeforeGetXML
| SpineNotInitialized
| StringRangeNoNodes
| StringRangeManyNodes
| PointerInvalidElement (xmlId : string)
| PointerManyElements (xmlId : string)
| FetchError (url : string)
| TypeError.

Inductive Res (A : Type) : Type :=
| Ok (a : A)
| Err (e : Error).

Arguments Ok {A} a.
Arguments Err {A} e.

Definition isOk {A : Type} (r : Res A) : bool :=
  match r with Ok _ => true | Err _ => false end.

(** Computations over a mutable state [S] that may throw. *)
Definition M (S A : Type) : Type := S -> S * Res A.

Definition ret {S A : Type} (a : A) : M S A := fun s => (s, Ok a).

Definition throw {S A : Type} (e : Error) : M S A := fun s => (s, Err e).

Definition bind {S A B : Type} (m : M S A) (k : A -> M S B) : M S B :=
  fun s =>
    match m s with
    | (s', Ok a) => k a s'
    | (s', Err e) => (s', Err e)
    end.

Declare Scope prog_scope.
Delimit Scope prog_scope with prog.

Notation "x <- m ;; k" := (bind m (fun x => k))
  (at level 100, m at next level, right associativity) : prog_scope.
Notation "m ;; k" := (bind m (fun _ => k))
  (at level 100, right associativity) : prog_scope.

(** ** Editions and the store *)

(** Modelled from the spec: the class [Edition] (data/edition.ts) is an
    immutable descriptor with a code, a display name and the chunk
    numbers it provides, built as [new Edition(code, name, chunks)]. *)
Record Edition : Type := mkEdition {
  code : string;
  name : string;
  chunks : list Z
}.

(** The state that the singleton [FvStore] and the static members share
    across the process: the documents loaded by [FvStore.cache], the
    requests issued so far, and [Spine.mockElementCount]. *)
Record World : Type := mkWorld {
  cache : gmap string Document;
  fetches : list string;
  mockElementCount : nat
}.

Module FvStore.

Definition editions : list Edition :=
  [ mkEdition "1818" "1818" [1; 2; 3; 4; 5; 6; 7; 8; 9; 10]%Z;
    mkEdition "1823" "1823" [1; 2; 3; 4; 5; 6; 7; 8; 9; 10]%Z;
    mkEdition "1831" "1831" [1; 2; 3; 4; 5; 6; 7; 8; 9; 10]%Z;
    mkEdition "Thomas" "Thomas" [1; 2; 3; 4; 5; 6; 7; 8; 9; 10]%Z;
    mkEdition "MS" "MS" [7; 8; 9; 10]%Z ].

(** [getEdition(code)]: [Array.prototype.find] gives the first edition
    with that code, or [undefined] ([None]); it has no [throw]. *)
Definition getEdition (c : string) : Res (option Edition) :=
  Ok (List.find (fun ed => String.eqb (code ed) c) editions).

Section Cache.

(** What fetching and parsing the document at a URL yields; [None] is a
    transport or parse failure. *)
Variable fetchXML : string -> option Document.

(** Modelled from the spec: [XmlCache.getXML] (data/xml-cache.ts).  The
    first call for a URL fetches and parses the document and retains it
    for the process lifetime; later calls are answered from the cache
    with the same document and no request.  A failed fetch raises and is
    not retained, so that the next call fetches again. *)
Definition getXML (url : string) : M World Document :=
  fun w =>
    match cache w !! url with
    | Some doc => (w, Ok doc)
    | None =>
        match fetchXML url with
        | Some doc =>
            ({| cache := <[url := doc]> (cache w);
                fetches := fetches w ++ [url];
                mockElementCount := mockElementCount w |}, Ok doc)
        | None =>
            ({| cache := cache w;
                fetches := fetches w ++ [url];
                mockElementCount := mockElementCount w |},
             Err (FetchError url))
        end
    end.

End Cache.

End FvStore.

(** ** Elements through their handles *)

(** The element a handle denotes in the current state, if it denotes
    one.  The XPath engine selects nodes of the document it is given, so
    that an index outside the table of the document does not arise from
    the program; such a handle is read as a node that is no element. *)
Definition elementAt (w : World) (h : Handle) : option Element :=
  match node h with
  | XElement i =>
      match cache w !! docUrl h with
      | Some doc => doc !! i
      | None => None
      end
  | XOther => None
  end.

(** [h.attributes.getNamedItem(name)]; a node that is not an element has
    no [attributes], and the access raises. *)
Definition getNamedItemAt (h : Handle) (name : string)
  : M World (option string) :=
  fun w =>
    match elementAt w h with
    | Some e => (w, Ok (getNamedItem e name))
    | None => (w, Err TypeError)
    end.

(** [h.setAttribute(name, value)]: the element is updated in its
    document; a node that is not an element has no [setAttribute], and
    the call raises. *)
Definition setAttributeAt (h : Handle) (name value : string) : M World unit :=
  fun w =>
    match node h, elementAt w h with
    | XElement i, Some _ =>
        ({| cache := alter (alter (setAttribute name value) i) (docUrl h)
                       (cache w);
            fetches := fetches w;
            mockElementCount := mockElementCount w |}, Ok tt)
    | _, _ => (w, Err TypeError)
    end.

(** ** tei-processing/helpers.ts *)

Section Helpers.

(** The XPath engine of the browser ([doc.evaluate] with the resolver of
    the document element, iterated to the end). *)
Variable xpathEval : Document -> string -> list XNode.

Definition evaluateXPath (doc : Document) (xpath : string) : list XNode :=
  xpathEval doc xpath.

(** The double-quote character, as a string. *)
Definition dquote : string := String (ascii_of_nat 34) EmptyString.

(** The template literal of [findElementByXmlId]. *)
Definition xmlIdXPath (xmlId : string) : string :=
  "//*[@xml:id=" +:+ dquote +:+ xmlId +:+ dquote +:+ "]".

Definition findElementByXmlId (doc : Document) (xmlId : string) : Res XNode :=
  let xpath := xmlIdXPath xmlId in
  let idResults := evaluateXPath doc xpath in
  match idResults with
  | [] => Err (PointerInvalidElement xmlId)
  | [x] => Ok x
  | _ :: _ :: _ => Err (PointerManyElements xmlId)
  end.

End Helpers.

(** ** data/spine.ts: pointers and apparatus entries *)

Record PointerData : Type := mkPointerData {
  ptrElement : Handle;
  groupId : string;
  edition : option Edition;       (* [None] is [undefined] *)
  referencedUrl : string;
  referencedTarget : string;
  dereferenced : option Handle
}.

(** [Array.prototype.map] with a callback that may throw: the first
    throw ends the traversal. *)
Fixpoint mapRes {A B : Type} (f : A -> Res B) (l : list A) : Res (list B) :=
  match l with
  | [] => Ok []
  | x :: r =>
      match f x with
      | Err e => Err e
      | Ok y =>
          match mapRes f r with
          | Err e => Err e
          | Ok ys => Ok (y :: ys)
          end
      end
  end.

(** [el.parentNode as Element], [None] when there is no parent element. *)
Definition parentElement (doc : Document) (e : Element) : option Element :=
  match parentNode e with
  | Some p => doc !! p
  | None => None
  end.

Module Apparatus.

(** The content of an [<app>] tag.  [n] is [None] when the attribute is
    absent. *)
Record t : Type := mk {
  id : string;
  n : option JsString.JsNumber;
  element : Handle;
  pointers : list PointerData
}.

Section Parse.

(** The document being parsed: its URL and its element table. *)
Variable url : string.
Variable doc : Document.

Definition parsePointer (ptrElement : nat) : Res PointerData :=
  match doc !! ptrElement with
  | None => Err TypeError
  | Some ptrEl =>
  match parentElement doc ptrEl with
  | None => Err PtrParentNotRdg
  | Some rdgElement =>
  if negb (String.eqb (tagName rdgElement) "rdg") then Err PtrParentNotRdg
  else
  match getNamedItem rdgElement "wit" with
  | None => Err RdgNoWit
  | Some witAttr =>
  let editionCode := JsString.substr witAttr 2 in
  match FvStore.getEdition editionCode with
  | Err _ => Err (RdgInvalidWitness witAttr)
  | Ok edition =>
  match parentElement doc rdgElement with
  | None => Err RdgParentNotRdgGrp
  | Some rdgGroupElement =>
  if negb (String.eqb (tagName rdgGroupElement) "rdgGrp")
  then Err RdgParentNotRdgGrp
  else
  match getNamedItem rdgGroupElement "xml:id" with
  | None => Err RdgGrpNoXmlId
  | Some groupId =>
  match getNamedItem ptrEl "target" with
  | None => Err PtrNoTarget
  | Some targetAttr =>
  match JsString.split "#" targetAttr with
  | [part0; part1] =>
      Ok {| ptrElement := mkHandle url (XElement ptrElement);
            edition := edition;
            groupId := groupId;
            referencedUrl := part0;
            referencedTarget := part1;
            dereferenced := None |}
  | _ => Err (TargetNotWellFormatted targetAttr)
  end end end end end end end end.

Definition parsePointers (element : nat) : Res (list PointerData) :=
  let ptrElements := getDescendantsByTagName doc element "ptr" in
  mapRes parsePointer ptrElements.

Definition constructor (element : nat) : Res t :=
  match doc !! element with
  | None => Err TypeError
  | Some el =>
  match getNamedItem el "xml:id" with
  | None => Err AppNoXmlId
  | Some idAttr =>
  let nAttr := getNamedItem el "n" in
  let n := match nAttr with
           | Some v => Some (JsString.parseInt v)
           | None => None
           end in
  match parsePointers element with
  | Err e => Err e
  | Ok ptrs =>
      Ok {| id := idAttr;
            n := n;
            element := mkHandle url (XElement element);
            pointers := ptrs |}
  end end end.

End Parse.

End Apparatus.

Module StringRange.

Record t : Type := mk {
  xpath : string;
  start : JsString.JsNumber;
  length : JsString.JsNumber
}.

(** The match of
    [/^string-range\((?<xpath>.+),(?<start>\d+),(?<length>\d+)\)$/]
    against [s], as the three named groups.  The two digit groups hold
    no comma, so they are delimited by the last two commas before the
    closing parenthesis that ends [s]; what stands between the opening
    parenthesis and the first of these commas is the [xpath] group,
    which is not empty and holds no line terminator. *)
Definition matchGroups (s : string) : option (string * string * string) :=
  match JsString.stripPrefix "string-range(" s with
  | None => None
  | Some r1 =>
  match JsString.splitLast ")" r1 with
  | Some (r2, EmptyString) =>
      match JsString.splitLast "," r2 with
      | None => None
      | Some (r3, len) =>
      match JsString.splitLast "," r3 with
      | None => None
      | Some (xp, st) =>
          if JsString.isDigits len && JsString.isDigits st
             && negb (String.eqb xp "") && JsString.noLineTerminator xp
          then Some (xp, st, len)
          else None
      end end
  | _ => None
  end end.

(** The [stringRange] object built from a match. *)
Definition ofTarget (s : string) : option t :=
  match matchGroups s with
  | Some (xp, st, len) =>
      Some {| xpath := xp;
              start := JsString.parseInt st;
              length := JsString.parseInt len |}
  | None => None
  end.

End StringRange.

(** ** data/spine.ts: the resolution pipeline *)

(** [Array.from(new Set(l))]: the first occurrence of each value, in
    order. *)
Fixpoint unique (l : list string) : list string :=
  match l with
  | [] => []
  | x :: r => x :: List.filter (fun y => negb (String.eqb x y)) (unique r)
  end.

(** A [for ... of] loop whose body updates the current item in place and
    may throw: a throw ends the loop, the items updated so far stay
    updated. *)
Fixpoint forEach {A : Type} (body : A -> World -> World * (A * option Error))
  (l : list A) (w : World) : World * (list A * option Error) :=
  match l with
  | [] => (w, ([], None))
  | x :: r =>
      match body x w with
      | (w1, (x', Some e)) => (w1, (x' :: r, Some e))
      | (w1, (x', None)) =>
          match forEach body r w1 with
          | (w2, (r', oe)) => (w2, (x' :: r', oe))
          end
      end
  end.

(** A loop body that either replaces the item or throws before touching
    it. *)
Definition inPlace {A : Type} (step : A -> M World A)
  : A -> World -> World * (A * option Error) :=
  fun x w =>
    match step x w with
    | (w', Ok x') => (w', (x', None))
    | (w', Err e) => (w', (x, Some e))
    end.

Module Spine.

Record t : Type := mk {
  chunkNumber : Z;
  _apps : option (list Apparatus.t);
  _xml : option string;          (* the spine document, by its URL *)
  _initialized : bool
}.

(** [new Spine(chunk)]. *)
Definition constructor (chunk : Z) : t :=
  {| chunkNumber := chunk; _apps := None; _xml := None;
     _initialized := false |}.

(** A chunk object together with the process-wide state. *)
Record State : Type := mkState {
  this : t;
  world : World
}.

Definition set_apps (apps : list Apparatus.t) (st : State) : State :=
  {| this := {| chunkNumber := chunkNumber (this st);
                _apps := Some apps;
                _xml := _xml (this st);
                _initialized := _initialized (this st) |};
     world := world st |}.

Definition set_xml (u : string) (st : State) : State :=
  {| this := {| chunkNumber := chunkNumber (this st);
                _apps := _apps (this st);
                _xml := Some u;
                _initialized := _initialized (this st) |};
     world := world st |}.

Definition set_initialized (st : State) : State :=
  {| this := {| chunkNumber := chunkNumber (this st);
                _apps := _apps (this st);
                _xml := _xml (this st);
                _initialized := true |};
     world := world st |}.

Definition set_world (w : World) (st : State) : State :=
  {| this := this st; world := w |}.

Definition set_pointers (app : Apparatus.t) (ptrs : list PointerData)
  : Apparatus.t :=
  {| Apparatus.id := Apparatus.id app;
     Apparatus.n := Apparatus.n app;
     Apparatus.element := Apparatus.element app;
     Apparatus.pointers := ptrs |}.

Definition set_referencedTarget (ptr : PointerData) (v : string)
  : PointerData :=
  {| ptrElement := ptrElement ptr;
     groupId := groupId ptr;
     edition := edition ptr;
     referencedUrl := referencedUrl ptr;
     referencedTarget := v;
     dereferenced := dereferenced ptr |}.

Definition set_dereferenced (ptr : PointerData) (h : Handle) : PointerData :=
  {| ptrElement := ptrElement ptr;
     groupId := groupId ptr;
     edition := edition ptr;
     referencedUrl := referencedUrl ptr;
     referencedTarget := referencedTarget ptr;
     dereferenced := Some h |}.

(** A computation on the process-wide state, run from a chunk. *)
Definition liftW {A : Type} (m : M World A) : M State A :=
  fun st =>
    match m (world st) with
    | (w', r) => (set_world w' st, r)
    end.

Definition spineUrl (chunk : Z) : string :=
  let chunkStr := if (chunk <? 10)%Z then "0" +:+ pretty chunk
                  else pretty chunk in
  "https://raw.githubusercontent.com/PghFrankenstein/fv-data/master/standoff_Spine/spine_C"
    +:+ chunkStr +:+ ".xml".

Section Pipeline.

Variable xpathEval : Document -> string -> list XNode.
Variable fetchXML : string -> option Document.

(** The private [getXML]: the spine document, named by its URL. *)
Definition getXML : M State string :=
  fun st =>
    let u := spineUrl (chunkNumber (this st)) in
    liftW (_ <- FvStore.getXML fetchXML u ;; ret u)%prog st.

Definition parseApps : M State unit :=
  fun st =>
    match _xml (this st) with
    | None => (st, Err ParseAppsBeforeGetXML)
    | Some u =>
        match cache (world st) !! u with
        | None => (st, Err TypeError)
        | Some doc =>
            let appElements := getElementsByTagName doc "app" in
            match mapRes (Apparatus.constructor u doc) appElements with
            | Err e => (st, Err e)
            | Ok apps => (set_apps apps st, Ok tt)
            end
        end
    end.

(** The getter [apps]. *)
Definition apps : M State (list Apparatus.t) :=
  fun st =>
    match _apps (this st) with
    | None => (st, Err SpineNotInitialized)
    | Some l => (st, Ok l)
    end.

(** [Promise.all(urls.map(getXML))]: every request is issued; the
    result is the first failure, if any. *)
Fixpoint fetchAll (urls : list string) (w : World) : World * option Error :=
  match urls with
  | [] => (w, None)
  | u :: r =>
      match FvStore.getXML fetchXML u w with
      | (w1, Ok _) => fetchAll r w1
      | (w1, Err e) => (fst (fetchAll r w1), Some e)
      end
  end.

Definition fetchAllReferences : M State unit :=
  (l <- apps ;;
   let allUrls :=
     List.concat
       (List.map (fun app => List.map referencedUrl (Apparatus.pointers app))
          l) in
   liftW (fun w =>
            match fetchAll (unique allUrls) w with
            | (w', None) => (w', Ok tt)
            | (w', Some e) => (w', Err e)
            end))%prog.

Definition rewriteStringRange (ptr : PointerData) (range : StringRange.t)
  : M World PointerData :=
  (targetDoc <- FvStore.getXML fetchXML (referencedUrl ptr) ;;
   let patchedXPath := JsString.removeAll "tei:" (StringRange.xpath range) in
   let targetNodes := evaluateXPath xpathEval targetDoc patchedXPath in
   match targetNodes with
   | [] => throw StringRangeNoNodes
   | _ :: _ :: _ => throw StringRangeManyNodes
   | [targetNode] =>
       let targetElement := mkHandle (referencedUrl ptr) targetNode in
       idAttr <- getNamedItemAt targetElement "xml:id" ;;
       xmlId <-
         match idAttr with
         | Some v => ret v
         | None =>
             fun w =>
               let xmlId := "mock-id-" +:+ pretty (mockElementCount w) in
               (setAttributeAt targetElement "xml:id" xmlId ;; ret xmlId)
                 {| cache := cache w;
                    fetches := fetches w;
                    mockElementCount := mockElementCount w + 1 |}
         end ;;
       let ptr' := set_referencedTarget ptr xmlId in
       setAttributeAt (ptrElement ptr') "target"
         (referencedTarget ptr' +:+ "#" +:+ xmlId) ;;
       ret ptr'
   end)%prog.

(** The body of the inner loop of [rewriteStringRanges]: the pointer
    after the step, and whether it was added to [invalidPointers]. *)
Definition rewritePointer (ptr : PointerData) (w : World)
  : World * (PointerData * bool) :=
  match StringRange.ofTarget (referencedTarget ptr) with
  | Some stringRange =>
      match rewriteStringRange ptr stringRange w with
      | (w', Ok ptr') => (w', (ptr', false))
      | (w', Err _) => (w', (ptr, true))
      end
  | None => (w, (ptr, false))
  end.

(** The inner loop: each pointer with its membership in
    [invalidPointers]. *)
Fixpoint rewritePointers (ptrs : list PointerData) (w : World)
  : World * list (PointerData * bool) :=
  match ptrs with
  | [] => (w, [])
  | ptr :: r =>
      match rewritePointer ptr w with
      | (w1, x) =>
          match rewritePointers r w1 with
          | (w2, xs) => (w2, x :: xs)
          end
      end
  end.

(** [app.pointers.filter((ptr) => !invalidPointers.has(ptr))]. *)
Definition validPointers (marked : list (PointerData * bool))
  : list PointerData :=
  List.map fst (List.filter (fun x => negb (snd x)) marked).

Definition rewriteApp (app : Apparatus.t) (w : World)
  : World * (Apparatus.t * option Error) :=
  match rewritePointers (Apparatus.pointers app) w with
  | (w', marked) => (w', (set_pointers app (validPointers marked), None))
  end.

(** A loop over [this.apps] whose body updates the entries in place. *)
Definition forApps
  (body : Apparatus.t -> World -> World * (Apparatus.t * option Error))
  : M State unit :=
  fun st =>
    match _apps (this st) with
    | None => (st, Err SpineNotInitialized)
    | Some l =>
        match forEach body l (world st) with
        | (w', (l', None)) => (set_world w' (set_apps l' st), Ok tt)
        | (w', (l', Some e)) => (set_world w' (set_apps l' st), Err e)
        end
    end.

Definition rewriteStringRanges : M State unit := forApps rewriteApp.

Definition dereferencePointer (ptr : PointerData) : M World PointerData :=
  (document <- FvStore.getXML fetchXML (referencedUrl ptr) ;;
   match findElementByXmlId xpathEval document (referencedTarget ptr) with
   | Err e => throw e
   | Ok element =>
       ret (set_dereferenced ptr (mkHandle (referencedUrl ptr) element))
   end)%prog.

Definition dereferenceApp (app : Apparatus.t) (w : World)
  : World * (Apparatus.t * option Error) :=
  match forEach (inPlace dereferencePointer) (Apparatus.pointers app) w with
  | (w', (ptrs, oe)) => (w', (set_pointers app ptrs, oe))
  end.

Definition dereferencePointers : M State unit := forApps dereferenceApp.

(** The body of the inner loop of [addBackPointers]. *)
Definition addBackPointer (appId : string) (ptr : PointerData)
  : M World PointerData :=
  match dereferenced ptr with
  | None => ret ptr     (* continue; for the console.error see
                           addBackPointerLogged *)
  | Some h => (setAttributeAt h "app-ref" appId ;; ret ptr)%prog
  end.

Definition addBackPointersApp (app : Apparatus.t) (w : World)
  : World * (Apparatus.t * option Error) :=
  match forEach (inPlace (addBackPointer (Apparatus.id app)))
          (Apparatus.pointers app) w with
  | (w', (ptrs, oe)) => (w', (set_pointers app ptrs, oe))
  end.

Definition addBackPointers : M State unit := forApps addBackPointersApp.

Definition initialize : M State unit :=
  fun st =>
    if _initialized (this st) then (st, Ok tt)
    else
      (u <- getXML ;;
       (fun s => (set_xml u s, Ok tt)) ;;
       parseApps ;;
       fetchAllReferences ;;
       rewriteStringRanges ;;
       dereferencePointers ;;
       addBackPointers ;;
       (fun s => (set_initialized s, Ok tt)))%prog st.

End Pipeline.

End Spine.

(** ** Notions used in the statements *)

#[global] Instance XNode_eq_dec : EqDecision XNode.
Proof. solve_decision. Defined.

#[global] Instance Handle_eq_dec : EqDecision Handle.
Proof. solve_decision. Defined.

(** The facts that a parsed pointer records about its [<ptr>] element. *)
Definition pointerOf (url : string) (doc : Document) (p : PointerData)
  : Prop :=
  exists (i : nat) (ptrEl rdg grp : Element) (wit target : string),
    ptrElement p = mkHandle url (XElement i)
    /\ doc !! i = Some ptrEl
    /\ parentElement doc ptrEl = Some rdg /\ tagName rdg = "rdg"
    /\ getNamedItem rdg "wit" = Some wit
    /\ parentElement doc rdg = Some grp /\ tagName grp = "rdgGrp"
    /\ getNamedItem grp "xml:id" = Some (groupId p)
    /\ getNamedItem ptrEl "target" = Some target
    /\ target = referencedUrl p +:+ "#" +:+ referencedTarget p
    /\ JsString.count "#" (referencedUrl p) = 0
    /\ JsString.count "#" (referencedTarget p) = 0
    /\ dereferenced p = None.

(** The specification's reading of C4: the parsed fields are never
    empty. *)
Definition parsedFieldsNonEmpty (url : string) (doc : Document)
  (element : nat) : Prop :=
  forall a : Apparatus.t,
    Apparatus.constructor url doc element = Ok a ->
    Apparatus.id a <> ""
    /\ Forall (fun p => groupId p <> "" /\ edition p <> None
                        /\ referencedUrl p <> "")
         (Apparatus.pointers a).

(** The first four phases of [initialize], as [initialize] runs them. *)
Definition phasesBeforeDereference
  (xpathEval : Document -> string -> list XNode)
  (fetchXML : string -> option Document) : M Spine.State unit :=
  (u <- Spine.getXML fetchXML ;;
   (fun s => (Spine.set_xml u s, Ok tt)) ;;
   Spine.parseApps ;;
   Spine.fetchAllReferences fetchXML ;;
   Spine.rewriteStringRanges xpathEval fetchXML)%prog.

(** Every document loaded in [w] is loaded, unchanged, in [w']. *)
Definition cacheKept (w w' : World) : Prop :=
  forall (u : string) (d : Document),
    cache w !! u = Some d -> cache w' !! u = Some d.

(** A pointer without its [dereferenced] field. *)
Definition forgetDereferenced (ptr : PointerData) : PointerData :=
  {| ptrElement := ptrElement ptr;
     groupId := groupId ptr;
     edition := edition ptr;
     referencedUrl := referencedUrl ptr;
     referencedTarget := referencedTarget ptr;
     dereferenced := None |}.

(** The back-references that the pointers of one entry ask for, in the
    order of the loop: the element and the id to write on it. *)
Definition pointerClaims (appId : string) (ptrs : list PointerData)
  : list (Handle * string) :=
  List.flat_map
    (fun ptr => match dereferenced ptr with
                | Some h => [(h, appId)]
                | None => []
                end)
    ptrs.

(** The pointers of every entry, their [dereferenced] fields apart. *)
Definition pointersOf (l : list Apparatus.t) : list (list PointerData) :=
  List.map (fun app => List.map forgetDereferenced (Apparatus.pointers app))
    l.

Definition claimsOf (l : list Apparatus.t) : list (Handle * string) :=
  List.flat_map
    (fun app => pointerClaims (Apparatus.id app) (Apparatus.pointers app))
    l.

(** The id of the last claim on [h]. *)
Fixpoint lastClaim (h : Handle) (cl : list (Handle * string))
  : option string :=
  match cl with
  | [] => None
  | (h', v) :: r =>
      match lastClaim h r with
      | Some v' => Some v'
      | None => if decide (h' = h) then Some v else None
      end
  end.

(** The writes of [addBackPointers], one after the other. *)
Fixpoint applyClaims (cl : list (Handle * string)) (w : World)
  : World * option Error :=
  match cl with
  | [] => (w, None)
  | (h, v) :: r =>
      match setAttributeAt h "app-ref" v w with
      | (w1, Ok _) => applyClaims r w1
      | (w1, Err e) => (w1, Some e)
      end
  end.

(** The specification's reading of C3: every surviving pointer's
    element names the pointer's own entry. *)
Definition backReferencesOwn (st : Spine.State) : Prop :=
  forall (l : list Apparatus.t) (app : Apparatus.t) (p : PointerData),
    Spine._apps (Spine.this st) = Some l ->
    In app l -> In p (Apparatus.pointers app) ->
    exists h e, dereferenced p = Some h
                /\ elementAt (Spine.world st) h = Some e
                /\ getNamedItem e "app-ref" = Some (Apparatus.id app).

(** The specification's reading of C5: a pointer without a resolved
    element makes the back-reference phase raise. *)
Definition raisesOnUndereferenced (st : Spine.State) : Prop :=
  (exists l app p, Spine._apps (Spine.this st) = Some l
                   /\ In app l /\ In p (Apparatus.pointers app)
                   /\ dereferenced p = None) ->
  exists st' e, Spine.addBackPointers st = (st', Err e).

(** ** Concrete documents for the examples *)

Module Examples.

Definition elem (tag : string) (attrs : list (string * string))
  (p : option nat) : Element :=
  mkElement tag (list_to_map attrs) p.

(** An evaluator for the two shapes of XPath expression that the
    examples use: [//*[@xml:id="v"]], the elements whose [xml:id] is
    [v], and [//tag], the elements named [tag]; both in document order.
    Any other expression selects nothing. *)
Definition tinyXPath (doc : Document) (xp : string) : list XNode :=
  match JsString.stripPrefix ("//*[@xml:id=" +:+ dquote) xp with
  | Some r =>
      match JsString.splitLast (ascii_of_nat 34) r with
      | Some (v, "]") =>
          List.map XElement
            (List.filter
               (fun k => match doc !! k with
                         | Some e =>
                             bool_decide (getNamedItem e "xml:id" = Some v)
                         | None => false
                         end)
               (seq 0 (length doc)))
      | _ => []
      end
  | None =>
      match JsString.stripPrefix "//" xp with
      | Some tag => List.map XElement (getElementsByTagName doc tag)
      | None => []
      end
  end.

Definition spineUrl1 : string := Eval vm_compute in Spine.spineUrl 1.

(** A witness document with one identified paragraph and one without an
    identifier. *)
Definition witnessDoc : Document :=
  [ elem "TEI" [] None;
    elem "p" [("xml:id", "x")] (Some 0);
    elem "head" [] (Some 0) ].

(** Two apparatus entries whose pointers name the same element. *)
Definition sharedSpine : Document :=
  [ elem "TEI" [] None;
    elem "app" [("xml:id", "a1")] (Some 0);
    elem "rdgGrp" [("xml:id", "g1")] (Some 1);
    elem "rdg" [("wit", "#f1818")] (Some 2);
    elem "ptr" [("target", "doc.xml#x")] (Some 3);
    elem "app" [("xml:id", "a2")] (Some 0);
    elem "rdgGrp" [("xml:id", "g2")] (Some 5);
    elem "rdg" [("wit", "#f1831")] (Some 6);
    elem "ptr" [("target", "doc.xml#x")] (Some 7) ].

(** One entry with a range pointer onto the identified paragraph. *)
Definition rangeSpine : Document :=
  [ elem "TEI" [] None;
    elem "app" [("xml:id", "a1")] (Some 0);
    elem "rdgGrp" [("xml:id", "g1")] (Some 1);
    elem "rdg" [("wit", "#f1818")] (Some 2);
    elem "ptr" [("target", "doc.xml#string-range(//tei:p,0,10)")] (Some 3) ].

(** One entry whose reading cites a witness that is no edition. *)
Definition unknownWitnessSpine : Document :=
  [ elem "TEI" [] None;
    elem "app" [("xml:id", "a1")] (Some 0);
    elem "rdgGrp" [("xml:id", "g1")] (Some 1);
    elem "rdg" [("wit", "#f1900")] (Some 2);
    elem "ptr" [("target", "doc.xml#x")] (Some 3) ].

(** One entry whose identifiers and target URL are empty strings. *)
Definition emptyIdSpine : Document :=
  [ elem "TEI" [] None;
    elem "app" [("xml:id", "")] (Some 0);
    elem "rdgGrp" [("xml:id", "")] (Some 1);
    elem "rdg" [("wit", "#f1818")] (Some 2);
    elem "ptr" [("target", "#x")] (Some 3) ].

(** One entry with a range pointer that selects nothing, followed by a
    plain pointer. *)
Definition mixedSpine : Document :=
  [ elem "TEI" [] None;
    elem "app" [("xml:id", "a1")] (Some 0);
    elem "rdgGrp" [("xml:id", "g1")] (Some 1);
    elem "rdg" [("wit", "#f1818")] (Some 2);
    elem "ptr" [("target", "doc.xml#string-range(//tei:div,0,10)")] (Some 3);
    elem "rdg" [("wit", "#f1831")] (Some 2);
    elem "ptr" [("target", "doc.xml#x")] (Some 5) ].

(** One entry with a well-formed target and a target without [#]. *)
Definition plainSpine : Document :=
  [ elem "TEI" [] None;
    elem "app" [("xml:id", "a1")] (Some 0);
    elem "rdgGrp" [("xml:id", "g1")] (Some 1);
    elem "rdg" [("wit", "#f1818")] (Some 2);
    elem "ptr" [("target", "doc.xml#abc123")] (Some 3);
    elem "rdg" [("wit", "#f1831")] (Some 2);
    elem "ptr" [("target", "doc.xml")] (Some 5) ].

(** One entry with a plain pointer to an identifier that no element
    carries. *)
Definition danglingSpine : Document :=
  [ elem "TEI" [] None;
    elem "app" [("xml:id", "a1")] (Some 0);
    elem "rdgGrp" [("xml:id", "g1")] (Some 1);
    elem "rdg" [("wit", "#f1818")] (Some 2);
    elem "ptr" [("target", "doc.xml#nowhere")] (Some 3) ].

(** The repository serving [spine] as chunk 1 and [witnessDoc] as
    [doc.xml]. *)
Definition serving (spine : Document) (u : string) : option Document :=
  if String.eqb u spineUrl1 then Some spine
  else if String.eqb u "doc.xml" then Some witnessDoc
  else None.

Definition freshWorld : World :=
  {| cache := ∅; fetches := []; mockElementCount := 0 |}.

Definition freshChunk : Spine.State :=
  {| Spine.this := Spine.constructor 1; Spine.world := freshWorld |}.

(** A process in which [doc.xml] and a spine document are loaded. *)
Definition loadedWorld (spine : Document) : World :=
  {| cache := <[spineUrl1 := spine]> (<["doc.xml" := witnessDoc]> ∅);
     fetches := [spineUrl1; "doc.xml"];
     mockElementCount := 0 |}.

Definition ptrHandle (i : nat) : Handle := mkHandle spineUrl1 (XElement i).

(** The chunk of [sharedSpine] after a run of [initialize]. *)
Definition sharedReady : Spine.State :=
  Eval vm_compute in
    fst (Spine.initialize tinyXPath (serving sharedSpine) freshChunk).

Definition edition1818 : Edition :=
  mkEdition "1818" "1818" [1; 2; 3; 4; 5; 6; 7; 8; 9; 10]%Z.

(** The range pointer of [rangeSpine], as parsed. *)
Definition rangePointer : PointerData :=
  {| ptrElement := ptrHandle 4;
     groupId := "g1";
     edition := Some edition1818;
     referencedUrl := "doc.xml";
     referencedTarget := "string-range(//tei:p,0,10)";
     dereferenced := None |}.

(** The two pointers of [mixedSpine], as parsed. *)
Definition emptyRangePointer : PointerData :=
  {| ptrElement := ptrHandle 4;
     groupId := "g1";
     edition := Some edition1818;
     referencedUrl := "doc.xml";
     referencedTarget := "string-range(//tei:div,0,10)";
     dereferenced := None |}.

Definition plainPointer : PointerData :=
  {| ptrElement := ptrHandle 6;
     groupId := "g1";
     edition := Some (mkEdition "1831" "1831" [1; 2; 3; 4; 5; 6; 7; 8; 9; 10]%Z);
     referencedUrl := "doc.xml";
     referencedTarget := "x";
     dereferenced := None |}.

(** The entry of [mixedSpine], as parsed. *)
Definition mixedApp : Apparatus.t :=
  {| Apparatus.id := "a1";
     Apparatus.n := None;
     Apparatus.element := ptrHandle 1;
     Apparatus.pointers := [emptyRangePointer; plainPointer] |}.

(** A chunk whose only pointer has no resolved element. *)
Definition undereferencedChunk : Spine.State :=
  {| Spine.this :=
       {| Spine.chunkNumber := 1;
          Spine._apps :=
            Some [ {| Apparatus.id := "a1";
                      Apparatus.n := None;
                      Apparatus.element := ptrHandle 1;
                      Apparatus.pointers := [plainPointer] |} ];
          Spine._xml := Some spineUrl1;
          Spine._initialized := false |};
     Spine.world := loadedWorld mixedSpine |}.

(** The chunk of [danglingSpine] when the dereference phase starts. *)
Definition danglingBeforeDereference : Spine.State :=
  Eval vm_compute in
    fst (phasesBeforeDereference tinyXPath (serving danglingSpine)
           freshChunk).

(** The only pointer of [danglingSpine], as parsed. *)
Definition danglingPointer : PointerData :=
  {| ptrElement := ptrHandle 4;
     groupId := "g1";
     edition := Some edition1818;
     referencedUrl := "doc.xml";
     referencedTarget := "nowhere";
     dereferenced := None |}.

Definition danglingApp : Apparatus.t :=
  {| Apparatus.id := "a1";
     Apparatus.n := None;
     Apparatus.element := ptrHandle 1;
     Apparatus.pointers := [danglingPointer] |}.

End Examples.

(** ** data/store.ts: the chunks of the store *)

Module FvStoreClass.

(** The array [spines] as the constructor builds it. *)
Definition spines : list Spine.t :=
  List.map Spine.constructor [1; 2; 3; 4; 5; 6; 7; 8; 9; 10]%Z.

(** [getSpine(chunk)] on the current chunk objects of the store. *)
Definition getSpine (l : list Spine.t) (chunk : Z) : option Spine.t :=
  List.find (fun sp => Z.eqb (Spine.chunkNumber sp) chunk) l.

End FvStoreClass.

(** ** components/EditionSelector: the choice of an edition *)

Module EditionSelector.

Section Component.

(** The rendered label of an option, [<label><EditionDot .../>name</label>],
    is a parameter. *)
Variable Label : Type.
Variable renderLabel : Edition -> Label.

Record SelectOption : Type := mkOption {
  key : nat;
  value : string;
  label : Label
}.

Record State : Type := mkState {
  availableEditions : list SelectOption;
  selectedEdition : option SelectOption
}.

(** What a handler does besides updating the state. *)
Inductive Effect : Type :=
| Warn (v : string)                    (* console.warn *)
| OnEditionSelected (ed : Edition).    (* this.props.onEditionSelected *)

(** [FvStore.editions.map((ed, index) => ...)], from [index] on. *)
Fixpoint optionsFrom (index : nat) (eds : list Edition) : list SelectOption :=
  match eds with
  | [] => []
  | ed :: r =>
      {| key := index; value := code ed; label := renderLabel ed |}
        :: optionsFrom (S index) r
  end.

Definition componentDidMount (st : State) : State :=
  let editions := optionsFrom 0 FvStore.editions in
  {| availableEditions := editions; selectedEdition := selectedEdition st |}.

Definition editionChanged (selectedOption : SelectOption) (st : State)
  : State * list Effect :=
  match List.find (fun ed => String.eqb (code ed) (value selectedOption))
          FvStore.editions with
  | None => (st, [Warn (value selectedOption)])
  | Some edition =>
      ({| availableEditions := availableEditions st;
          selectedEdition := Some selectedOption |},
       [OnEditionSelected edition])
  end.

End Component.

End EditionSelector.

(** ** Further notions used in the statements *)

(** The template literal of the synthesized ids. *)
Definition mockId (count : nat) : string := "mock-id-" +:+ pretty count.

(** Two pointers that differ at most in [referencedTarget]. *)
Definition sameButTarget (p q : PointerData) : Prop :=
  ptrElement p = ptrElement q /\ groupId p = groupId q
  /\ edition p = edition q /\ referencedUrl p = referencedUrl q
  /\ dereferenced p = dereferenced q.

(** A pointer without its [referencedTarget]. *)
Definition forgetTarget (ptr : PointerData) : PointerData :=
  {| ptrElement := ptrElement ptr;
     groupId := groupId ptr;
     edition := edition ptr;
     referencedUrl := referencedUrl ptr;
     referencedTarget := "";
     dereferenced := dereferenced ptr |}.

(** The URLs that the pointers of the entries name, in the order of
    [fetchAllReferences]. *)
Definition allUrls (l : list Apparatus.t) : list string :=
  List.concat
    (List.map (fun app => List.map referencedUrl (Apparatus.pointers app)) l).

(** An element as it is but for one attribute. *)
Definition sameButAttribute (n : string) (e e' : Element) : Prop :=
  tagName e' = tagName e /\ parentNode e' = parentNode e
  /\ forall n', n' <> n -> getNamedItem e' n' = getNamedItem e n'.

(** The decimal value of a string of digits read onto [acc]. *)
Fixpoint decimalValue (s : string) (acc : Z) : Z :=
  match s with
  | EmptyString => acc
  | String c s' =>
      decimalValue s' (acc * 10 + (Z.of_nat (nat_of_ascii c) - 48))%Z
  end.

(** A pointer that holds the one node that the lookup of its target
    as an id selects in its loaded document. *)
Definition resolvedIn (xpathEval : Document -> string -> list XNode)
  (w : World) (p : PointerData) : Prop :=
  exists (d : Document) (x : XNode),
    cache w !! referencedUrl p = Some d
    /\ evaluateXPath xpathEval d (xmlIdXPath (referencedTarget p)) = [x]
    /\ dereferenced p = Some (mkHandle (referencedUrl p) x).

(** The URLs of a list that are not loaded. *)
Definition notLoaded (w : World) (urls : list string) : list string :=
  List.filter
    (fun u => match cache w !! u with Some _ => false | None => true end)
    urls.

(** ** The console *)

(** [addBackPointers] writes to the console.  The console is kept apart
    from [World]: the phase is given here a second time, over the world
    paired with the lines written by [console.error] so far, oldest
    first. *)
Abbreviation Console := (list string).

Definition nonDereferencedMessage : string :=
  "Non dereferenced pointed in addBackPointers - pointers should all be dereferenced by now".

(** [forEach] and [inPlace] over any state. *)
Fixpoint forEachOn {S A : Type} (body : A -> S -> S * (A * option Error))
  (l : list A) (s : S) : S * (list A * option Error) :=
  match l with
  | [] => (s, ([], None))
  | x :: r =>
      match body x s with
      | (s1, (x', Some e)) => (s1, (x' :: r, Some e))
      | (s1, (x', None)) =>
          match forEachOn body r s1 with
          | (s2, (r', oe)) => (s2, (x' :: r', oe))
          end
      end
  end.

Definition inPlaceOn {S A : Type} (step : A -> M S A)
  : A -> S -> S * (A * option Error) :=
  fun x s =>
    match step x s with
    | (s', Ok x') => (s', (x', None))
    | (s', Err e) => (s', (x, Some e))
    end.

(** The body of the inner loop of [addBackPointers], with its
    [console.error]. *)
Definition addBackPointerLogged (appId : string) (ptr : PointerData)
  : M (World * Console) PointerData :=
  fun s =>
    match dereferenced ptr with
    | None => ((fst s, snd s ++ [nonDereferencedMessage]), Ok ptr)
    | Some h =>
        match setAttributeAt h "app-ref" appId (fst s) with
        | (w', Ok _) => ((w', snd s), Ok ptr)
        | (w', Err e) => ((w', snd s), Err e)
        end
    end.

Definition addBackPointersAppLogged (app : Apparatus.t) (s : World * Console)
  : (World * Console) * (Apparatus.t * option Error) :=
  match forEachOn (inPlaceOn (addBackPointerLogged (Apparatus.id app)))
          (Apparatus.pointers app) s with
  | (s', (ptrs, oe)) => (s', (Spine.set_pointers app ptrs, oe))
  end.

Definition addBackPointersLogged : M (Spine.State * Console) unit :=
  fun s =>
    match Spine._apps (Spine.this (fst s)) with
    | None => (s, Err SpineNotInitialized)
    | Some l =>
        match forEachOn addBackPointersAppLogged l
                (Spine.world (fst s), snd s) with
        | ((w', out), (l', None)) =>
            ((Spine.set_world w' (Spine.set_apps l' (fst s)), out), Ok tt)
        | ((w', out), (l', Some e)) =>
            ((Spine.set_world w' (Spine.set_apps l' (fst s)), out), Err e)
        end
    end.

(** The lines that a completed run over [ptrs] writes: one for each
    pointer without a resolved element. *)
Definition messagesFor (ptrs : list PointerData) : Console :=
  List.flat_map
    (fun p => match dereferenced p with
              | None => [nonDereferencedMessage]
              | Some _ => []
              end) ptrs.

Definition allPointers (l : list Apparatus.t) : list PointerData :=
  List.flat_map Apparatus.pointers l.

(** The specification's reading of C9: the [target] attribute alone
    decides what parsing a [<ptr>] gives. *)
Definition targetAloneDecides (url : string) (doc : Document) (i : nat)
  : Prop :=
  forall (ptrEl : Element) (target : string),
    doc !! i = Some ptrEl -> tagName ptrEl = "ptr" ->
    getNamedItem ptrEl "target" = Some target ->
    (forall u f : string,
        JsString.count "#" u = 0 -> JsString.count "#" f = 0 ->
        target = u +:+ "#" +:+ f ->
        exists p, Apparatus.parsePointer url doc i = Ok p
                  /\ referencedUrl p = u /\ referencedTarget p = f)
    /\ (JsString.count "#" target <> 1 ->
        Apparatus.parsePointer url doc i
        = Err (TargetNotWellFormatted target)).

(** ** Further examples *)

Module MoreExamples.

(** The range of [Examples.rangePointer]. *)
Definition paragraphRange : StringRange.t :=
  StringRange.mk "//tei:p" (JsString.Integer 0) (JsString.Integer 10).

(** The state after the rewrite of [Examples.rangePointer]. *)
Definition rangeRewritten : World :=
  Eval vm_compute in
    fst (Spine.rewriteStringRange Examples.tinyXPath
           (Examples.serving Examples.rangeSpine) Examples.rangePointer
           paragraphRange (Examples.loadedWorld Examples.rangeSpine)).

(** The chunk of [Examples.undereferencedChunk] in a process that has
    loaded nothing. *)
Definition unloadedChunk : Spine.State :=
  {| Spine.this := Spine.this Examples.undereferencedChunk;
     Spine.world := Examples.freshWorld |}.

(** A chunk whose spine document is loaded and not parsed yet. *)
Definition loadedChunk : Spine.State :=
  {| Spine.this :=
       {| Spine.chunkNumber := 1;
          Spine._apps := None;
          Spine._xml := Some Examples.spineUrl1;
          Spine._initialized := false |};
     Spine.world := Examples.loadedWorld Examples.sharedSpine |}.

(** Options whose label is the name of the edition. *)
Definition option1831 : EditionSelector.SelectOption string :=
  EditionSelector.mkOption string 2 "1831" "1831".

Definition option1900 : EditionSelector.SelectOption string :=
  EditionSelector.mkOption string 9 "1900" "1900".

Definition emptySelector : EditionSelector.State string :=
  EditionSelector.mkState string [] None.


(** A [<ptr>] under a [<lem>]: one with a target without [#], one with a
    well-formed target. *)
Definition lemSpine : Document :=
  [ Examples.elem "TEI" [] None;
    Examples.elem "app" [("xml:id", "a1")] (Some 0);
    Examples.elem "lem" [] (Some 1);
    Examples.elem "ptr" [("target", "doc.xml")] (Some 2);
    Examples.elem "ptr" [("target", "doc.xml#abc123")] (Some 2) ].

End MoreExamples.

(** * Properties *)

(** ** The string functions on sample inputs *)

Example split_sample :
  JsString.split "#" "doc.xml#abc123" = ["doc.xml"; "abc123"]
  /\ JsString.split "#" "doc.xml" = ["doc.xml"]
  /\ JsString.split "#" "a#b#c" = ["a"; "b"; "c"]
  /\ JsString.split "#" "" = [""].
Proof. repeat split; reflexivity. Qed.

Example substr_sample :
  JsString.substr "#f1818" 2 = "1818" /\ JsString.substr "#" 2 = "".
Proof. split; reflexivity. Qed.

Example removeAll_sample :
  JsString.removeAll "tei:" "//tei:body/tei:p" = "//body/p".
Proof. reflexivity. Qed.

Example parseInt_sample :
  JsString.parseInt "10" = JsString.Integer 10
  /\ JsString.parseInt " -12px" = JsString.Integer (-12)
  /\ JsString.parseInt "0x1f" = JsString.Integer 31
  /\ JsString.parseInt "9007199254740992" = JsString.Integer (2 ^ 53)
  /\ JsString.parseInt "9007199254740993"
     = JsString.Approximated 9007199254740993
  /\ JsString.parseInt "abc" = JsString.NaN.
Proof. repeat split; reflexivity. Qed.

Example matchGroups_sample :
  StringRange.matchGroups "string-range(//tei:p[2],0,10)"
  = Some ("//tei:p[2]", "0", "10")
  /\ StringRange.matchGroups "string-range(f(a,b),3,4)"
     = Some ("f(a,b)", "3", "4")
  /\ StringRange.matchGroups "string-range(,0,10)" = None
  /\ StringRange.matchGroups "string-range(//p,0,x)" = None
  /\ StringRange.matchGroups "abc123" = None.
Proof. repeat split; reflexivity. Qed.

Example spineUrl_sample :
  Spine.spineUrl 3
  = "https://raw.githubusercontent.com/PghFrankenstein/fv-data/master/standoff_Spine/spine_C03.xml"
  /\ Spine.spineUrl 10
     = "https://raw.githubusercontent.com/PghFrankenstein/fv-data/master/standoff_Spine/spine_C10.xml".
Proof. split; reflexivity. Qed.

Example getEdition_sample :
  FvStore.getEdition "MS" = Ok (Some (mkEdition "MS" "MS" [7; 8; 9; 10]%Z)).
Proof. reflexivity. Qed.

(** The run of [initialize] on [rangeSpine]: the range pointer is
    rewritten to the id [x] and resolved, and the paragraph names the
    entry. *)
Example initialize_sample :
  match Spine.initialize Examples.tinyXPath
          (Examples.serving Examples.rangeSpine) Examples.freshChunk with
  | (st, Ok _) =>
      option_map (List.map (fun app =>
                    List.map (fun p => (referencedTarget p, dereferenced p))
                      (Apparatus.pointers app)))
        (Spine._apps (Spine.this st))
      = Some [[("x", Some (mkHandle "doc.xml" (XElement 1)))]]
      /\ (elementAt (Spine.world st) (mkHandle "doc.xml" (XElement 1))
           ≫= fun e => getNamedItem e "app-ref") = Some "a1"
      /\ fetches (Spine.world st) = [Examples.spineUrl1; "doc.xml"]
  | (_, Err _) => False
  end.
Proof. vm_compute. repeat split; reflexivity. Qed.

(** ** Splitting strings *)

Lemma split_not_nil (c : ascii) (s : string) : JsString.split c s <> [].
Proof.
  destruct s as [|a s]; simpl; [discriminate|].
  destruct (Ascii.eqb a c); [discriminate|].
  destruct (JsString.split c s); discriminate.
Qed.

Lemma length_split (c : ascii) (s : string) :
  length (JsString.split c s) = S (JsString.count c s).
Proof.
  induction s as [|a s IH]; simpl; [reflexivity|].
  destruct (Ascii.eqb a c); simpl.
  - now rewrite IH.
  - destruct (JsString.split c s) eqn:E; simpl in *; [discriminate IH|exact IH].
Qed.

Lemma split_no_sep (c : ascii) (s : string) :
  JsString.count c s = 0 -> JsString.split c s = [s].
Proof.
  induction s as [|a s IH]; simpl; [reflexivity|].
  destruct (Ascii.eqb a c); [discriminate|].
  intros H. now rewrite (IH H).
Qed.

Lemma split_app_sep (c : ascii) (u f : string) :
  JsString.count c u = 0 ->
  JsString.split c (u +:+ String c f) = u :: JsString.split c f.
Proof.
  induction u as [|a u IH]; simpl.
  - intros _. now rewrite Ascii.eqb_refl.
  - destruct (Ascii.eqb a c); [discriminate|].
    intros H. now rewrite (IH H).
Qed.

Lemma split_url_fragment (u f : string) :
  JsString.count "#" u = 0 -> JsString.count "#" f = 0 ->
  JsString.split "#" (u +:+ "#" +:+ f) = [u; f].
Proof.
  intros Hu Hf.
  change ("#" +:+ f) with (String "#" f).
  now rewrite (split_app_sep _ _ _ Hu), (split_no_sep _ _ Hf).
Qed.

(** What a two-part split says of the string. *)
Lemma split_two_inv (c : ascii) (s a b : string) :
  JsString.split c s = [a; b] ->
  s = a +:+ String c b /\ JsString.count c a = 0 /\ JsString.count c b = 0.
Proof.
  revert a. induction s as [|x s IH]; simpl; intros a H; [discriminate|].
  destruct (Ascii.eqb x c) eqn:E.
  - apply Ascii.eqb_eq in E. subst x.
    injection H as <- Hs.
    assert (Hc : JsString.count c s = 0).
    { pose proof (length_split c s) as L. rewrite Hs in L. simpl in L. lia. }
    rewrite (split_no_sep _ _ Hc) in Hs. injection Hs as <-.
    simpl. auto.
  - destruct (JsString.split c s) as [|h t] eqn:Es; [discriminate|].
    injection H as <- ->.
    destruct (IH h eq_refl) as (-> & Hh & Hb).
    simpl. rewrite E. auto.
Qed.

(** ** The state monad *)

Lemma bind_Ok_inv {S A B : Type} (m : M S A) (k : A -> M S B)
  (s s' : S) (b : B) :
  bind m k s = (s', Ok b) ->
  exists a s1, m s = (s1, Ok a) /\ k a s1 = (s', Ok b).
Proof.
  unfold bind. destruct (m s) as [s1 [a|e]]; [eauto|discriminate].
Qed.

Lemma bind_assoc {S A B C : Type} (m : M S A) (k : A -> M S B)
  (k' : B -> M S C) (s : S) :
  bind (bind m k) k' s = bind m (fun a => bind (k a) k') s.
Proof.
  unfold bind. destruct (m s) as [s1 [a|e]]; reflexivity.
Qed.

(** ** The document cache *)

Section CacheFacts.

Variable fetchXML : string -> option Document.

Lemma getXML_cached (u : string) (w : World) (d : Document) :
  cache w !! u = Some d -> FvStore.getXML fetchXML u w = (w, Ok d).
Proof. intros H. unfold FvStore.getXML. now rewrite H. Qed.

(** A lookup neither changes a loaded document nor the identifier
    counter, and the document it returns is the one then in the cache. *)
Lemma getXML_frame (u : string) (w w' : World) (r : Res Document) :
  FvStore.getXML fetchXML u w = (w', r) ->
  mockElementCount w' = mockElementCount w
  /\ (forall u' d', cache w !! u' = Some d' -> cache w' !! u' = Some d')
  /\ (forall d, r = Ok d -> cache w' !! u = Some d).
Proof.
  unfold FvStore.getXML.
  destruct (cache w !! u) as [d0|] eqn:Hc.
  - intros [= <- <-]. repeat split; auto. now intros d [= <-].
  - destruct (fetchXML u) as [d0|]; intros [= <- <-]; simpl.
    + repeat split.
      * intros u' d' H. destruct (decide (u = u')) as [<-|Hne].
        -- congruence.
        -- now rewrite lookup_insert_ne.
      * intros d [= <-]. apply lookup_insert_eq.
    + repeat split; auto. discriminate.
Qed.

End CacheFacts.

(** ** Parsing an apparatus entry *)

Lemma mapRes_Forall2 {A B : Type} (f : A -> Res B) (l : list A)
  (ys : list B) :
  mapRes f l = Ok ys -> Forall2 (fun x y => f x = Ok y) l ys.
Proof.
  revert ys. induction l as [|x l IH]; simpl; intros ys H.
  - injection H as <-. constructor.
  - destruct (f x) as [y|e] eqn:Hx; [|discriminate].
    destruct (mapRes f l) as [ys'|e]; [|discriminate].
    injection H as <-. constructor; auto.
Qed.

Lemma parsePointer_Ok_inv (url : string) (doc : Document) (i : nat)
  (p : PointerData) :
  Apparatus.parsePointer url doc i = Ok p -> pointerOf url doc p.
Proof.
  unfold Apparatus.parsePointer, pointerOf.
  destruct (doc !! i) as [ptrEl|] eqn:Hi; [|discriminate].
  destruct (parentElement doc ptrEl) as [rdg|] eqn:Hrdg; [|discriminate].
  destruct (String.eqb (tagName rdg) "rdg") eqn:Htag; [|discriminate].
  apply String.eqb_eq in Htag. simpl.
  destruct (getNamedItem rdg "wit") as [wit|] eqn:Hwit; [|discriminate].
  destruct (parentElement doc rdg) as [grp|] eqn:Hgrp; [|discriminate].
  destruct (String.eqb (tagName grp) "rdgGrp") eqn:Hgtag; [|discriminate].
  apply String.eqb_eq in Hgtag. simpl.
  destruct (getNamedItem grp "xml:id") as [g|] eqn:Hg; [|discriminate].
  destruct (getNamedItem ptrEl "target") as [target|] eqn:Ht; [|discriminate].
  destruct (JsString.split "#" target) as [|p0 [|p1 [|? ?]]] eqn:Hs;
    try discriminate.
  intros [= <-]. simpl.
  destruct (split_two_inv _ _ _ _ Hs) as (-> & H0 & H1).
  exists i, ptrEl, rdg, grp, wit, (p0 +:+ String "#" p1).
  repeat split; auto.
Qed.

(** C4, counterexample: the entry of [emptyIdSpine] parses, and its id,
    its pointer's group id and its pointer's URL are empty strings. *)
Lemma parsed_fields_may_be_empty :
  ~ parsedFieldsNonEmpty Examples.spineUrl1 Examples.emptyIdSpine 1.
Proof.
  intros H.
  destruct (H {| Apparatus.id := "";
                 Apparatus.n := None;
                 Apparatus.element := Examples.ptrHandle 1;
                 Apparatus.pointers :=
                   [ {| ptrElement := Examples.ptrHandle 4;
                        groupId := "";
                        edition := Some Examples.edition1818;
                        referencedUrl := "";
                        referencedTarget := "x";
                        dereferenced := None |} ] |} eq_refl) as [Hid _].
  now apply Hid.
Qed.

(** C4, as amended: a successful parse takes the id from the [xml:id]
    attribute that the [<app>] element has, and for every pointer takes
    the group id from the [xml:id] attribute that the enclosing
    [<rdgGrp>] has and the URL from the part of the [target] attribute
    before its only [#]; the attributes are present, their values may
    be empty. *)
Theorem parsed_fields_come_from_attributes (url : string) (doc : Document)
  (element : nat) (a : Apparatus.t) :
  Apparatus.constructor url doc element = Ok a ->
  (exists el, doc !! element = Some el
              /\ getNamedItem el "xml:id" = Some (Apparatus.id a))
  /\ Forall (pointerOf url doc) (Apparatus.pointers a).
Proof.
  unfold Apparatus.constructor, Apparatus.parsePointers.
  destruct (doc !! element) as [el|]; [|discriminate].
  destruct (getNamedItem el "xml:id") as [v|] eqn:Hid; [|discriminate].
  destruct (mapRes _ _) as [ptrs|e] eqn:Hm; [|discriminate].
  intros [= <-]. simpl. split; [eauto|].
  apply mapRes_Forall2 in Hm.
  induction Hm as [|x p l ps Hx _ IH]; constructor; auto.
  eapply parsePointer_Ok_inv; eauto.
Qed.

Lemma parsed_fields_come_from_attributes_witness :
  (exists el, Examples.emptyIdSpine !! 1 = Some el
              /\ getNamedItem el "xml:id" = Some "")
  /\ Forall (pointerOf Examples.spineUrl1 Examples.emptyIdSpine)
       [ {| ptrElement := Examples.ptrHandle 4;
            groupId := "";
            edition := Some Examples.edition1818;
            referencedUrl := "";
            referencedTarget := "x";
            dereferenced := None |} ].
Proof.
  exact (parsed_fields_come_from_attributes
           Examples.spineUrl1 Examples.emptyIdSpine 1
           {| Apparatus.id := "";
              Apparatus.n := None;
              Apparatus.element := Examples.ptrHandle 1;
              Apparatus.pointers :=
                [ {| ptrElement := Examples.ptrHandle 4;
                     groupId := "";
                     edition := Some Examples.edition1818;
                     referencedUrl := "";
                     referencedTarget := "x";
                     dereferenced := None |} ] |} eq_refl).
Defined.

(** Under a [<lem>] the check of the parent comes first, whatever the
    target. *)
Example parsePointer_under_lem :
  Apparatus.parsePointer Examples.spineUrl1 MoreExamples.lemSpine 3
  = Err PtrParentNotRdg
  /\ Apparatus.parsePointer Examples.spineUrl1 MoreExamples.lemSpine 4
     = Err PtrParentNotRdg.
Proof. split; reflexivity. Qed.

(** C9, counterexample: a [<ptr>] under a [<lem>] whose target holds no
    [#] does not fail as not well formatted: the check of its parent
    fails first. *)
Lemma target_check_comes_last :
  ~ targetAloneDecides Examples.spineUrl1 MoreExamples.lemSpine 3.
Proof.
  intros H.
  destruct (H (Examples.elem "ptr" [("target", "doc.xml")] (Some 2))
              "doc.xml" eq_refl eq_refl eq_refl) as [_ Hbad].
  assert (Hc : JsString.count "#" "doc.xml" <> 1) by (vm_compute; lia).
  specialize (Hbad Hc). vm_compute in Hbad. discriminate Hbad.
Qed.

(** C9, as amended: when the checks on the enclosing [<rdg>] and
    [<rdgGrp>] pass, a target [u#f] in which [u] and [f] hold no [#]
    parses to the URL [u] and the target [f], and a target that does not
    hold exactly one [#] fails as not well formatted. *)
Theorem parsePointer_splits_target (url : string) (doc : Document)
  (i : nat) (ptrEl rdg grp : Element) (wit g target : string) :
  doc !! i = Some ptrEl ->
  parentElement doc ptrEl = Some rdg -> tagName rdg = "rdg" ->
  getNamedItem rdg "wit" = Some wit ->
  parentElement doc rdg = Some grp -> tagName grp = "rdgGrp" ->
  getNamedItem grp "xml:id" = Some g ->
  getNamedItem ptrEl "target" = Some target ->
  (forall u f : string,
      JsString.count "#" u = 0 -> JsString.count "#" f = 0 ->
      target = u +:+ "#" +:+ f ->
      exists p, Apparatus.parsePointer url doc i = Ok p
                /\ referencedUrl p = u /\ referencedTarget p = f)
  /\ (JsString.count "#" target <> 1 ->
      Apparatus.parsePointer url doc i
      = Err (TargetNotWellFormatted target)).
Proof.
  intros Hi Hrdg Htag Hwit Hgrp Hgtag Hg Ht.
  unfold Apparatus.parsePointer.
  rewrite Hi, Hrdg, Htag, Hwit. simpl.
  rewrite Hgrp, Hgtag, Hg, Ht. simpl.
  split.
  - intros u f Hu Hf ->. rewrite (split_url_fragment _ _ Hu Hf).
    eexists. split; [reflexivity|]. simpl. auto.
  - intros Hc. pose proof (length_split "#" target) as L.
    destruct (JsString.split "#" target) as [|p0 [|p1 [|? ?]]];
      try reflexivity.
    simpl in L. lia.
Qed.

Lemma parsePointer_splits_target_witness :
  (exists p, Apparatus.parsePointer Examples.spineUrl1 Examples.plainSpine 4
             = Ok p
             /\ referencedUrl p = "doc.xml" /\ referencedTarget p = "abc123")
  /\ Apparatus.parsePointer Examples.spineUrl1 Examples.plainSpine 6
     = Err (TargetNotWellFormatted "doc.xml").
Proof.
  split.
  - apply (parsePointer_splits_target
             Examples.spineUrl1 Examples.plainSpine 4
             (Examples.elem "ptr" [("target", "doc.xml#abc123")] (Some 3))
             (Examples.elem "rdg" [("wit", "#f1818")] (Some 2))
             (Examples.elem "rdgGrp" [("xml:id", "g1")] (Some 1))
             "#f1818" "g1" "doc.xml#abc123");
      reflexivity.
  - apply (parsePointer_splits_target
             Examples.spineUrl1 Examples.plainSpine 6
             (Examples.elem "ptr" [("target", "doc.xml")] (Some 5))
             (Examples.elem "rdg" [("wit", "#f1831")] (Some 2))
             (Examples.elem "rdgGrp" [("xml:id", "g1")] (Some 1))
             "#f1831" "g1" "doc.xml");
      try reflexivity.
    simpl. lia.
Defined.

(** C2: the lookup of an edition never raises, a code without a
    descriptor gives [undefined], no parse fails on an invalid witness,
    and the entry of [unknownWitnessSpine], whose reading cites the
    witness [#f1900], parses with a pointer whose edition is
    [undefined]. *)
Theorem unknown_witness_is_accepted :
  (forall c : string, isOk (FvStore.getEdition c) = true)
  /\ FvStore.getEdition "1900" = Ok None
  /\ (forall (url : string) (doc : Document) (i : nat),
         match Apparatus.parsePointer url doc i with
         | Err (RdgInvalidWitness _) => False
         | _ => True
         end)
  /\ Apparatus.constructor Examples.spineUrl1 Examples.unknownWitnessSpine 1
     = Ok {| Apparatus.id := "a1";
             Apparatus.n := None;
             Apparatus.element := Examples.ptrHandle 1;
             Apparatus.pointers :=
               [ {| ptrElement := Examples.ptrHandle 4;
                    groupId := "g1";
                    edition := None;
                    referencedUrl := "doc.xml";
                    referencedTarget := "x";
                    dereferenced := None |} ] |}.
Proof.
  split; [reflexivity|]. split; [reflexivity|]. split; [|reflexivity].
  intros url doc i. unfold Apparatus.parsePointer.
  destruct (doc !! i) as [ptrEl|]; [|exact I].
  destruct (parentElement doc ptrEl) as [rdg|]; [|exact I].
  destruct (String.eqb (tagName rdg) "rdg"); simpl; [|exact I].
  destruct (getNamedItem rdg "wit") as [wit|]; [|exact I].
  destruct (parentElement doc rdg) as [grp|]; [|exact I].
  destruct (String.eqb (tagName grp) "rdgGrp"); simpl; [|exact I].
  destruct (getNamedItem grp "xml:id") as [g|]; [|exact I].
  destruct (getNamedItem ptrEl "target") as [target|]; [|exact I].
  destruct (JsString.split "#" target) as [|p0 [|p1 [|? ?]]]; exact I.
Qed.

(** ** The pipeline *)

Section PipelineFacts.

Variable xpathEval : Document -> string -> list XNode.
Variable fetchXML : string -> option Document.

(** A run that completes leaves the chunk initialized. *)
Lemma initialize_Ok_initialized (st st' : Spine.State) :
  Spine.initialize xpathEval fetchXML st = (st', Ok tt) ->
  Spine._initialized (Spine.this st') = true.
Proof.
  unfold Spine.initialize.
  destruct (Spine._initialized (Spine.this st)) eqn:E.
  - intros [= <-]. exact E.
  - intros H.
    repeat (apply bind_Ok_inv in H; destruct H as (? & ? & _ & H)).
    now injection H as <-.
Qed.

End PipelineFacts.

(** C8: after a call of [initialize] that completed, a second call
    returns at once with the state unchanged: chunk, documents, counter
    and the list of requests issued. *)
Theorem initialize_idempotent (xpathEval : Document -> string -> list XNode)
  (fetchXML : string -> option Document) (st st' : Spine.State) :
  Spine.initialize xpathEval fetchXML st = (st', Ok tt) ->
  Spine.initialize xpathEval fetchXML st' = (st', Ok tt).
Proof.
  intros H. apply initialize_Ok_initialized in H.
  unfold Spine.initialize. now rewrite H.
Qed.

Lemma initialize_idempotent_witness :
  Spine.initialize Examples.tinyXPath (Examples.serving Examples.sharedSpine)
    Examples.sharedReady
  = (Examples.sharedReady, Ok tt).
Proof.
  apply (initialize_idempotent Examples.tinyXPath
           (Examples.serving Examples.sharedSpine)
           Examples.freshChunk Examples.sharedReady).
  vm_compute. reflexivity.
Defined.

(** ** Writing through handles *)

Lemma getNamedItem_setAttribute (n v : string) (e : Element) :
  getNamedItem (setAttribute n v e) n = Some v.
Proof. unfold getNamedItem, setAttribute. simpl. apply lookup_insert_eq. Qed.

Lemma getNamedItem_setAttribute_ne (n n' v : string) (e : Element) :
  n <> n' -> getNamedItem (setAttribute n v e) n' = getNamedItem e n'.
Proof.
  intros H. unfold getNamedItem, setAttribute. simpl.
  now apply lookup_insert_ne.
Qed.

Lemma setAttributeAt_Err (h : Handle) (n v : string) (w w' : World)
  (e : Error) :
  setAttributeAt h n v w = (w', Err e) -> w' = w.
Proof.
  unfold setAttributeAt.
  destruct (node h); [destruct (elementAt w h)|]; now intros [= <-].
Qed.

(** A successful write replaces the element by the updated one, and
    leaves every other element, the counter and the requests as they
    were. *)
Lemma setAttributeAt_Ok (h : Handle) (n v : string) (w w' : World) :
  setAttributeAt h n v w = (w', Ok tt) ->
  (exists e, elementAt w h = Some e
             /\ elementAt w' h = Some (setAttribute n v e))
  /\ (forall h', h' <> h -> elementAt w' h' = elementAt w h')
  /\ mockElementCount w' = mockElementCount w
  /\ fetches w' = fetches w.
Proof.
  unfold setAttributeAt.
  destruct h as [u x]. simpl.
  destruct x as [i|]; [|discriminate].
  destruct (elementAt w (mkHandle u (XElement i))) as [e|] eqn:He;
    [|discriminate].
  intros [= <-]. simpl.
  unfold elementAt in *. simpl in *.
  destruct (cache w !! u) as [doc|] eqn:Hd; [|discriminate].
  repeat split.
  - exists e. split; [reflexivity|].
    rewrite lookup_alter_eq, Hd. simpl.
    now rewrite list_lookup_alter_eq, He.
  - intros [u' x'] Hne. simpl.
    destruct x' as [j|]; [|reflexivity].
    destruct (decide (u = u')) as [<-|Hu].
    + rewrite lookup_alter_eq, Hd. simpl.
      rewrite list_lookup_alter_ne; [reflexivity|].
      intros ->. now apply Hne.
    + now rewrite lookup_alter_ne.
Qed.

Lemma getNamedItemAt_inv (h : Handle) (n : string) (w w' : World)
  (r : Res (option string)) :
  getNamedItemAt h n w = (w', r) -> w' = w.
Proof.
  unfold getNamedItemAt. destruct (elementAt w h); now intros [= <-].
Qed.

(** ** Rewriting one range pointer *)

Section RangeFacts.

Variable xpathEval : Document -> string -> list XNode.
Variable fetchXML : string -> option Document.

Lemma length_ne_1_cases {A : Type} (l : list A) :
  length l <> 1 -> l = [] \/ exists a b r, l = a :: b :: r.
Proof.
  destruct l as [|a [|b r]]; simpl; intros H; [auto|lia|eauto].
Qed.

(** When the patched expression does not select exactly one node, the
    rewrite raises in the state that the document lookup left. *)
Lemma rewriteStringRange_bad_count (ptr : PointerData)
  (range : StringRange.t) (w w1 : World) (d : Document) :
  FvStore.getXML fetchXML (referencedUrl ptr) w = (w1, Ok d) ->
  length (evaluateXPath xpathEval d
            (JsString.removeAll "tei:" (StringRange.xpath range))) <> 1 ->
  exists e, Spine.rewriteStringRange xpathEval fetchXML ptr range w
            = (w1, Err e)
            /\ (e = StringRangeNoNodes \/ e = StringRangeManyNodes).
Proof.
  intros Hg Hc. unfold Spine.rewriteStringRange, bind. rewrite Hg.
  destruct (length_ne_1_cases _ Hc) as [->|(a & b & r & ->)].
  - exists StringRangeNoNodes. auto.
  - exists StringRangeManyNodes. auto.
Qed.

(** The loop then marks the pointer as invalid and leaves it as it
    is. *)
Lemma rewritePointer_bad_count (ptr : PointerData)
  (range : StringRange.t) (w w1 : World) (d : Document) :
  StringRange.ofTarget (referencedTarget ptr) = Some range ->
  FvStore.getXML fetchXML (referencedUrl ptr) w = (w1, Ok d) ->
  length (evaluateXPath xpathEval d
            (JsString.removeAll "tei:" (StringRange.xpath range))) <> 1 ->
  Spine.rewritePointer xpathEval fetchXML ptr w = (w1, (ptr, true)).
Proof.
  intros Hm Hg Hc.
  destruct (rewriteStringRange_bad_count _ _ _ _ _ Hg Hc) as (e & He & _).
  unfold Spine.rewritePointer. now rewrite Hm, He.
Qed.

End RangeFacts.

(** C1: a range rewrite that succeeds found exactly one node for the
    patched expression in the target document; afterwards that node is
    an element whose [xml:id] is the pointer's new [referencedTarget],
    the pointer's URL is as it was, and the [target] attribute of the
    pointer's element holds the new [referencedTarget] followed by [#]
    and again by the new [referencedTarget]. *)
Theorem rewriteStringRange_writes_id_twice
  (xpathEval : Document -> string -> list XNode)
  (fetchXML : string -> option Document)
  (ptr ptr' : PointerData) (range : StringRange.t) (w w' : World) :
  Spine.rewriteStringRange xpathEval fetchXML ptr range w = (w', Ok ptr') ->
  referencedUrl ptr' = referencedUrl ptr
  /\ ptrElement ptr' = ptrElement ptr
  /\ (exists d w1 x t,
         FvStore.getXML fetchXML (referencedUrl ptr) w = (w1, Ok d)
         /\ evaluateXPath xpathEval d
              (JsString.removeAll "tei:" (StringRange.xpath range)) = [x]
         /\ elementAt w' (mkHandle (referencedUrl ptr) x) = Some t
         /\ getNamedItem t "xml:id" = Some (referencedTarget ptr'))
  /\ exists e, elementAt w' (ptrElement ptr') = Some e
               /\ getNamedItem e "target"
                  = Some (referencedTarget ptr' +:+ "#"
                          +:+ referencedTarget ptr').
Proof.
  unfold Spine.rewriteStringRange. intros H.
  apply bind_Ok_inv in H. destruct H as (d & w1 & Hg & H).
  destruct (evaluateXPath _ _ _) as [|x [|? ?]] eqn:Hx; try discriminate.
  apply bind_Ok_inv in H. destruct H as (idAttr & w2 & Hget & H).
  apply bind_Ok_inv in H. destruct H as (xmlId & w3 & Hid & H).
  apply bind_Ok_inv in H. destruct H as ([] & w4 & Hset & H).
  injection H as <- <-. simpl in *.
  set (tgt := mkHandle (referencedUrl ptr) x) in *.
  assert (Ht : exists e3, elementAt w3 tgt = Some e3
                          /\ getNamedItem e3 "xml:id" = Some xmlId).
  { unfold getNamedItemAt in Hget.
    destruct (elementAt w1 tgt) as [e0|] eqn:He0; [|discriminate].
    injection Hget as <- <-.
    destruct (getNamedItem e0 "xml:id") as [v|] eqn:Hv.
    - injection Hid as <- <-. eauto.
    - apply bind_Ok_inv in Hid. destruct Hid as ([] & w3' & Hs & Hr).
      injection Hr as <- <-.
      destruct (setAttributeAt_Ok _ _ _ _ _ Hs) as ((e & _ & He) & _).
      eexists. split; [exact He|apply getNamedItem_setAttribute]. }
  destruct Ht as (e3 & He3 & Hid3).
  destruct (setAttributeAt_Ok _ _ _ _ _ Hset) as ((e & He & He') & Hother & _).
  split; [reflexivity|]. split; [reflexivity|]. split.
  - exists d, w1, x. fold tgt.
    destruct (decide (tgt = ptrElement ptr)) as [Heq|Hne].
    + exists (setAttribute "target" (xmlId +:+ "#" +:+ xmlId) e).
      split; [exact Hg|]. split; [exact Hx|]. split.
      * rewrite Heq. exact He'.
      * rewrite getNamedItem_setAttribute_ne by discriminate.
        rewrite Heq in He3. congruence.
    + exists e3.
      split; [exact Hg|]. split; [exact Hx|]. split; [|exact Hid3].
      rewrite (Hother _ Hne). exact He3.
  - exists (setAttribute "target" (xmlId +:+ "#" +:+ xmlId) e).
    split; [exact He'|apply getNamedItem_setAttribute].
Qed.

(** On the range pointer of [rangeSpine], whose URL is [doc.xml] and
    whose range selects the element with id [x], the attribute written
    is [x#x]. *)
Lemma rewriteStringRange_writes_id_twice_witness :
  exists e,
    elementAt
      (fst (Spine.rewriteStringRange Examples.tinyXPath
              (Examples.serving Examples.rangeSpine)
              Examples.rangePointer
              (StringRange.mk "//tei:p" (JsString.Integer 0) (JsString.Integer 10))
              (Examples.loadedWorld Examples.rangeSpine)))
      (Examples.ptrHandle 4) = Some e
    /\ getNamedItem e "target" = Some "x#x".
Proof.
  apply (rewriteStringRange_writes_id_twice Examples.tinyXPath
           (Examples.serving Examples.rangeSpine)
           Examples.rangePointer
           (Spine.set_referencedTarget Examples.rangePointer "x")
           (StringRange.mk "//tei:p" (JsString.Integer 0) (JsString.Integer 10))
           (Examples.loadedWorld Examples.rangeSpine)).
  vm_compute. reflexivity.
Defined.

(** C10: when the patched expression of a range pointer does not select
    exactly one node, the rewrite raises without writing: the counter
    of synthesized ids keeps its value, every element of every loaded
    document (the pointer's own [<ptr>] element among them) is as it
    was, the target document in the cache is the one that was
    evaluated, a target document that was already loaded leaves the
    whole state unchanged, and the loop of [rewriteStringRanges] only
    marks the pointer as invalid. *)
Theorem failed_range_rewrite_writes_nothing
  (xpathEval : Document -> string -> list XNode)
  (fetchXML : string -> option Document)
  (ptr : PointerData) (range : StringRange.t) (w w1 : World)
  (d : Document) :
  StringRange.ofTarget (referencedTarget ptr) = Some range ->
  FvStore.getXML fetchXML (referencedUrl ptr) w = (w1, Ok d) ->
  length (evaluateXPath xpathEval d
            (JsString.removeAll "tei:" (StringRange.xpath range))) <> 1 ->
  (exists e, Spine.rewriteStringRange xpathEval fetchXML ptr range w
             = (w1, Err e))
  /\ Spine.rewritePointer xpathEval fetchXML ptr w = (w1, (ptr, true))
  /\ mockElementCount w1 = mockElementCount w
  /\ (forall h e, elementAt w h = Some e -> elementAt w1 h = Some e)
  /\ cache w1 !! referencedUrl ptr = Some d
  /\ (forall d0, cache w !! referencedUrl ptr = Some d0 ->
                 w1 = w /\ d0 = d).
Proof.
  intros Hm Hg Hc.
  destruct (rewriteStringRange_bad_count xpathEval fetchXML _ _ _ _ _ Hg Hc)
    as (e & He & _).
  destruct (getXML_frame _ _ _ _ _ Hg) as (Hcount & Hkeep & Hd).
  split; [eauto|]. split.
  { eapply rewritePointer_bad_count; eauto. }
  split; [exact Hcount|]. split.
  { intros [u x] el. unfold elementAt. simpl.
    destruct x as [i|]; [|discriminate].
    destruct (cache w !! u) as [doc|] eqn:Hu; [|discriminate].
    now rewrite (Hkeep _ _ Hu). }
  split; [now apply Hd|].
  intros d0 H0. rewrite (getXML_cached fetchXML _ _ _ H0) in Hg.
  injection Hg as -> ->. auto.
Qed.

(** On [mixedSpine], whose first pointer has a range that selects no
    element of [doc.xml]. *)
Lemma failed_range_rewrite_writes_nothing_witness :
  (exists e, Spine.rewriteStringRange Examples.tinyXPath
               (Examples.serving Examples.mixedSpine)
               Examples.emptyRangePointer
               (StringRange.mk "//tei:div" (JsString.Integer 0) (JsString.Integer 10))
               (Examples.loadedWorld Examples.mixedSpine)
             = (Examples.loadedWorld Examples.mixedSpine, Err e))
  /\ Spine.rewritePointer Examples.tinyXPath
       (Examples.serving Examples.mixedSpine)
       Examples.emptyRangePointer
       (Examples.loadedWorld Examples.mixedSpine)
     = (Examples.loadedWorld Examples.mixedSpine,
        (Examples.emptyRangePointer, true))
  /\ mockElementCount (Examples.loadedWorld Examples.mixedSpine)
     = mockElementCount (Examples.loadedWorld Examples.mixedSpine)
  /\ (forall h e,
         elementAt (Examples.loadedWorld Examples.mixedSpine) h = Some e ->
         elementAt (Examples.loadedWorld Examples.mixedSpine) h = Some e)
  /\ cache (Examples.loadedWorld Examples.mixedSpine) !! "doc.xml"
     = Some Examples.witnessDoc
  /\ (forall d0,
         cache (Examples.loadedWorld Examples.mixedSpine) !! "doc.xml"
         = Some d0 ->
         Examples.loadedWorld Examples.mixedSpine
         = Examples.loadedWorld Examples.mixedSpine
         /\ d0 = Examples.witnessDoc).
Proof.
  apply (failed_range_rewrite_writes_nothing Examples.tinyXPath
           (Examples.serving Examples.mixedSpine)
           Examples.emptyRangePointer
           (StringRange.mk "//tei:div" (JsString.Integer 0) (JsString.Integer 10))
           (Examples.loadedWorld Examples.mixedSpine)
           (Examples.loadedWorld Examples.mixedSpine)
           Examples.witnessDoc).
  - reflexivity.
  - reflexivity.
  - vm_compute. lia.
Defined.

(** ** The loops of the range-rewrite phase *)

Section RewriteLoop.

Variable xpathEval : Document -> string -> list XNode.
Variable fetchXML : string -> option Document.





End RewriteLoop.

(** ** Loops that update their items *)

Lemma forEach_app {A : Type}
  (body : A -> World -> World * (A * option Error))
  (l1 l2 : list A) (w : World) :
  forEach body (l1 ++ l2) w
  = match forEach body l1 w with
    | (w1, (l1', Some e)) => (w1, (l1' ++ l2, Some e))
    | (w1, (l1', None)) =>
        match forEach body l2 w1 with
        | (w2, (l2', oe)) => (w2, (l1' ++ l2', oe))
        end
    end.
Proof.
  revert w. induction l1 as [|x l1 IH]; intros w; simpl.
  - now destruct (forEach body l2 w) as [w2 [l2' oe]].
  - destruct (body x w) as [w0 [x' [e|]]]; [reflexivity|].
    rewrite IH.
    destruct (forEach body l1 w0) as [w1 [l1' [e|]]]; [reflexivity|].
    now destruct (forEach body l2 w1) as [w2 [l2' oe]].
Qed.


(** What every item satisfies after a loop that ran to its end. *)
Lemma forEach_None_Forall {A : Type}
  (body : A -> World -> World * (A * option Error)) (P : A -> Prop) :
  (forall x w w' x', body x w = (w', (x', None)) -> P x') ->
  forall l w w' l',
    forEach body l w = (w', (l', None)) -> Forall P l'.
Proof.
  intros Hb. induction l as [|x l IH]; simpl; intros w w' l' H.
  - injection H as <- <-. constructor.
  - destruct (body x w) as [w0 [x' [e|]]] eqn:Hx; [discriminate|].
    destruct (forEach body l w0) as [w1 [l1 oe]] eqn:Hl.
    injection H as <- <- ->. constructor; eauto.
Qed.

Lemma set_pointers_same (app : Apparatus.t) :
  Spine.set_pointers app (Apparatus.pointers app) = app.
Proof. now destruct app. Qed.

(** ** The range phase as a whole *)



(** ** The back-reference phase *)

Lemma addBackPointer_skip (appId : string) (p : PointerData) (w : World) :
  dereferenced p = None -> Spine.addBackPointer appId p w = (w, Ok p).
Proof. intros H. unfold Spine.addBackPointer. now rewrite H. Qed.

(** The inner loop writes the claims of the entry's pointers, and
    leaves the pointers as they are. *)
Lemma addBackPointer_loop (appId : string) (ptrs : list PointerData)
  (w : World) :
  forEach (inPlace (Spine.addBackPointer appId)) ptrs w
  = (fst (applyClaims (pointerClaims appId ptrs) w),
     (ptrs, snd (applyClaims (pointerClaims appId ptrs) w))).
Proof.
  revert w. induction ptrs as [|p ptrs IH]; intros w; simpl; [reflexivity|].
  unfold inPlace at 1, Spine.addBackPointer at 1.
  destruct (dereferenced p) as [h|]; simpl.
  - unfold bind, ret.
    destruct (setAttributeAt h "app-ref" appId w) as [w1 [[]|e]];
      [|reflexivity].
    now rewrite IH.
  - now rewrite IH.
Qed.

Lemma applyClaims_app (c1 c2 : list (Handle * string)) (w : World) :
  applyClaims (c1 ++ c2) w
  = match applyClaims c1 w with
    | (w1, None) => applyClaims c2 w1
    | (w1, Some e) => (w1, Some e)
    end.
Proof.
  revert w. induction c1 as [|[h v] c1 IH]; intros w; simpl; [reflexivity|].
  destruct (setAttributeAt h "app-ref" v w) as [w1 [[]|e]];
    [apply IH|reflexivity].
Qed.

Lemma addBackPointersApp_loop (l : list Apparatus.t) (w : World) :
  forEach Spine.addBackPointersApp l w
  = (fst (applyClaims (claimsOf l) w),
     (l, snd (applyClaims (claimsOf l) w))).
Proof.
  revert w. induction l as [|app l IH]; intros w; [reflexivity|].
  cbn [forEach claimsOf List.flat_map]. fold (claimsOf l).
  unfold Spine.addBackPointersApp at 1.
  rewrite addBackPointer_loop, set_pointers_same, applyClaims_app.
  destruct (applyClaims (pointerClaims _ _) w) as [w1 [e|]]; simpl;
    [reflexivity|].
  now rewrite IH.
Qed.

(** C5, counterexample: on a chunk whose only pointer has no resolved
    element, [addBackPointers] returns without raising. *)
Lemma undereferenced_pointer_raises_nothing :
  ~ raisesOnUndereferenced Examples.undereferencedChunk.
Proof.
  intros H.
  assert (Hex : exists l app p,
             Spine._apps (Spine.this Examples.undereferencedChunk) = Some l
             /\ In app l /\ In p (Apparatus.pointers app)
             /\ dereferenced p = None).
  { eexists _, _, Examples.plainPointer.
    split; [reflexivity|].
    split; [left; reflexivity|].
    split; [left; reflexivity|reflexivity]. }
  destruct (H Hex) as (st' & e & H').
  vm_compute in H'. discriminate H'.
Qed.

(** ** The back-reference phase and the console *)

Lemma forEachOn_app {S A : Type}
  (body : A -> S -> S * (A * option Error))
  (l1 l2 : list A) (s : S) :
  forEachOn body (l1 ++ l2) s
  = match forEachOn body l1 s with
    | (s1, (l1', Some e)) => (s1, (l1' ++ l2, Some e))
    | (s1, (l1', None)) =>
        match forEachOn body l2 s1 with
        | (s2, (l2', oe)) => (s2, (l1' ++ l2', oe))
        end
    end.
Proof.
  revert s. induction l1 as [|x l1 IH]; intros s; simpl.
  - now destruct (forEachOn body l2 s) as [s2 [l2' oe]].
  - destruct (body x s) as [s0 [x' [e|]]]; [reflexivity|].
    rewrite IH.
    destruct (forEachOn body l1 s0) as [s1 [l1' [e|]]]; [reflexivity|].
    now destruct (forEachOn body l2 s1) as [s2 [l2' oe]].
Qed.

Lemma addBackPointerLogged_skip (appId : string) (p : PointerData)
  (w : World) (out : Console) :
  dereferenced p = None ->
  addBackPointerLogged appId p (w, out)
  = ((w, out ++ [nonDereferencedMessage]), Ok p).
Proof. intros H. unfold addBackPointerLogged. now rewrite H. Qed.

(** The inner loop with the console does to the world what the loop
    without it does, and writes one line for each pointer without a
    resolved element that it reaches. *)
Lemma addBackPointerLogged_loop (appId : string) (ptrs : list PointerData)
  (w : World) (out : Console) :
  exists msgs,
    forEachOn (inPlaceOn (addBackPointerLogged appId)) ptrs (w, out)
    = ((fst (forEach (inPlace (Spine.addBackPointer appId)) ptrs w),
        out ++ msgs),
       snd (forEach (inPlace (Spine.addBackPointer appId)) ptrs w))
    /\ (snd (snd (forEach (inPlace (Spine.addBackPointer appId)) ptrs w))
        = None -> msgs = messagesFor ptrs).
Proof.
  revert w out. induction ptrs as [|p ptrs IH]; intros w out.
  - exists []. simpl. now rewrite app_nil_r.
  - cbn [forEachOn forEach].
    unfold inPlaceOn at 1, addBackPointerLogged at 1.
    unfold inPlace at 1 3 5, Spine.addBackPointer at 1 3 5.
    unfold messagesFor. cbn [List.flat_map]. fold (messagesFor ptrs).
    destruct (dereferenced p) as [h|]; cbn [fst snd].
    + unfold bind, ret.
      destruct (setAttributeAt h "app-ref" appId w) as [w1 [[]|e]].
      * destruct (IH w1 out) as (msgs & Heq & Hn).
        exists msgs. rewrite Heq.
        destruct (forEach _ ptrs w1) as [w2 [r' oe]].
        split; [reflexivity|]. exact Hn.
      * exists []. rewrite app_nil_r. split; [reflexivity|discriminate].
    + unfold ret.
      destruct (IH w (out ++ [nonDereferencedMessage])) as (msgs & Heq & Hn).
      exists (nonDereferencedMessage :: msgs). rewrite Heq.
      destruct (forEach _ ptrs w) as [w2 [r' oe]]. cbn [fst snd] in *.
      rewrite <- app_assoc. split; [reflexivity|].
      intros H. now rewrite (Hn H).
Qed.

Lemma addBackPointersAppLogged_loop (l : list Apparatus.t)
  (w : World) (out : Console) :
  exists msgs,
    forEachOn addBackPointersAppLogged l (w, out)
    = ((fst (forEach Spine.addBackPointersApp l w), out ++ msgs),
       snd (forEach Spine.addBackPointersApp l w))
    /\ (snd (snd (forEach Spine.addBackPointersApp l w)) = None ->
        msgs = messagesFor (allPointers l)).
Proof.
  revert w out. induction l as [|app l IH]; intros w out.
  - exists []. simpl. now rewrite app_nil_r.
  - cbn [forEachOn forEach].
    unfold addBackPointersAppLogged at 1.
    unfold Spine.addBackPointersApp at 1 3 5.
    destruct (addBackPointerLogged_loop (Apparatus.id app)
                (Apparatus.pointers app) w out) as (m1 & Heq1 & Hn1).
    destruct (forEach (inPlace _) (Apparatus.pointers app) w)
      as [w1 [ptrs [e|]]]; cbn [fst snd] in *.
    + exists m1. rewrite Heq1. split; [reflexivity|discriminate].
    + destruct (IH w1 (out ++ m1)) as (m2 & Heq2 & Hn2).
      exists (m1 ++ m2). rewrite Heq1, Heq2.
      destruct (forEach Spine.addBackPointersApp l w1) as [w2 [l' oe]].
      cbn [fst snd] in *.
      rewrite <- app_assoc. split; [reflexivity|].
      intros H. rewrite (Hn1 eq_refl), (Hn2 H).
      unfold allPointers, messagesFor. cbn [List.flat_map].
      now rewrite List.flat_map_app.
Qed.

(** The phase with the console agrees with [Spine.addBackPointers] on
    the state and on the result; a run that ends without an error has
    written one line for each pointer without a resolved element. *)
Lemma addBackPointersLogged_erase (st : Spine.State) (out : Console) :
  exists msgs,
    addBackPointersLogged (st, out)
    = ((fst (Spine.addBackPointers st), out ++ msgs),
       snd (Spine.addBackPointers st))
    /\ (forall l, Spine._apps (Spine.this st) = Some l ->
                  snd (Spine.addBackPointers st) = Ok tt ->
                  msgs = messagesFor (allPointers l)).
Proof.
  unfold addBackPointersLogged, Spine.addBackPointers, Spine.forApps.
  cbn [fst snd].
  destruct (Spine._apps (Spine.this st)) as [l|] eqn:Hl.
  - destruct (addBackPointersAppLogged_loop l (Spine.world st) out)
      as (msgs & Heq & Hn).
    exists msgs. rewrite Heq.
    destruct (forEach Spine.addBackPointersApp l (Spine.world st))
      as [w' [l' [e|]]]; cbn [fst snd] in *.
    + split; [reflexivity|]. intros l0 _ H. discriminate H.
    + split; [reflexivity|].
      intros l0 [= <-] _. now apply Hn.
  - exists []. rewrite app_nil_r. split; [reflexivity|]. intros l0 H.
    discriminate H.
Qed.

Lemma messagesFor_In (ptrs : list PointerData) (p : PointerData) :
  In p ptrs -> dereferenced p = None ->
  In nonDereferencedMessage (messagesFor ptrs).
Proof.
  intros Hin Hd. unfold messagesFor. apply List.in_flat_map.
  exists p. split; [exact Hin|]. rewrite Hd. now left.
Qed.

(** C5, as amended: a pointer without a resolved element is logged and
    skipped.  Its step writes the line to the console, leaves the world
    as it is and raises nothing; the loop over the entry's pointers goes
    on with the pointers after it; a phase that ends without an error
    has written to the console one line for each such pointer, this one
    included; and on the world and the result the phase with the console
    is [Spine.addBackPointers], where the pointer's step returns at once
    in the same state. *)
Theorem undereferenced_pointer_is_skipped (appId : string)
  (p : PointerData) :
  dereferenced p = None ->
  (forall (w : World) (out : Console),
      addBackPointerLogged appId p (w, out)
      = ((w, out ++ [nonDereferencedMessage]), Ok p))
  /\ (forall (pre post : list PointerData) (s : World * Console),
         forEachOn (inPlaceOn (addBackPointerLogged appId))
           (pre ++ p :: post) s
         = match forEachOn (inPlaceOn (addBackPointerLogged appId)) pre s
           with
           | (s1, (pre', Some e)) => (s1, (pre' ++ p :: post, Some e))
           | ((w1, out1), (pre', None)) =>
               match forEachOn (inPlaceOn (addBackPointerLogged appId)) post
                       (w1, out1 ++ [nonDereferencedMessage])
               with
               | (s2, (post', oe)) => (s2, (pre' ++ p :: post', oe))
               end
           end)
  /\ (forall (st st' : Spine.State) (out out' : Console)
             (l : list Apparatus.t) (app : Apparatus.t),
         Spine._apps (Spine.this st) = Some l ->
         In app l -> In p (Apparatus.pointers app) ->
         addBackPointersLogged (st, out) = ((st', out'), Ok tt) ->
         out' = out ++ messagesFor (allPointers l)
         /\ In nonDereferencedMessage (messagesFor (allPointers l)))
  /\ (forall (st : Spine.State) (out : Console),
         Spine.addBackPointers st
         = (fst (fst (addBackPointersLogged (st, out))),
            snd (addBackPointersLogged (st, out))))
  /\ (forall w, Spine.addBackPointer appId p w = (w, Ok p))
  /\ (forall (pre post : list PointerData) (w : World),
         forEach (inPlace (Spine.addBackPointer appId)) (pre ++ p :: post) w
         = match forEach (inPlace (Spine.addBackPointer appId)) pre w with
           | (w1, (pre', Some e)) => (w1, (pre' ++ p :: post, Some e))
           | (w1, (pre', None)) =>
               match forEach (inPlace (Spine.addBackPointer appId)) post w1
               with
               | (w2, (post', oe)) => (w2, (pre' ++ p :: post', oe))
               end
           end).
Proof.
  intros H. split; [|split; [|split; [|split; [|split]]]].
  - intros w out. now apply addBackPointerLogged_skip.
  - intros pre post s. rewrite forEachOn_app.
    destruct (forEachOn _ pre s) as [[w1 out1] [pre' [e|]]]; [reflexivity|].
    cbn [forEachOn]. unfold inPlaceOn at 1.
    rewrite (addBackPointerLogged_skip _ _ _ _ H).
    now destruct (forEachOn _ post _) as [s2 [post' oe]].
  - intros st st' out out' l app Hl Happ Hp Hrun.
    destruct (addBackPointersLogged_erase st out) as (msgs & Heq & Hn).
    rewrite Heq in Hrun. injection Hrun as _ <- Hr.
    split; [now rewrite (Hn l Hl Hr)|].
    apply messagesFor_In with (p := p); [|exact H].
    unfold allPointers. apply List.in_flat_map. eauto.
  - intros st out.
    destruct (addBackPointersLogged_erase st out) as (msgs & Heq & _).
    rewrite Heq. cbn [fst snd]. now destruct (Spine.addBackPointers st).
  - intros w. now apply addBackPointer_skip.
  - intros pre post w. rewrite forEach_app.
    destruct (forEach _ pre w) as [w1 [pre' [e|]]]; [reflexivity|].
    simpl. unfold inPlace at 1. rewrite (addBackPointer_skip _ _ _ H).
    now destruct (forEach _ post w1) as [w2 [post' oe]].
Qed.

(** On [undereferencedChunk]: the step of its pointer writes the line
    and changes nothing else. *)
Lemma undereferenced_pointer_is_skipped_witness :
  addBackPointerLogged "a1" Examples.plainPointer
    (Examples.loadedWorld Examples.mixedSpine, [])
  = ((Examples.loadedWorld Examples.mixedSpine, [nonDereferencedMessage]),
     Ok Examples.plainPointer).
Proof.
  apply (undereferenced_pointer_is_skipped "a1" Examples.plainPointer).
  reflexivity.
Defined.

(** The whole phase on [undereferencedChunk]: one line on the console,
    the chunk as it was, no error. *)
Example addBackPointersLogged_sample :
  addBackPointersLogged (Examples.undereferencedChunk, [])
  = ((Examples.undereferencedChunk, [nonDereferencedMessage]), Ok tt).
Proof. reflexivity. Qed.

(** ** The dereference phase *)

Section DereferenceFacts.

Variable xpathEval : Document -> string -> list XNode.
Variable fetchXML : string -> option Document.

Lemma cacheKept_refl (w : World) : cacheKept w w.
Proof. intros u d H. exact H. Qed.

Lemma cacheKept_trans (w1 w2 w3 : World) :
  cacheKept w1 w2 -> cacheKept w2 w3 -> cacheKept w1 w3.
Proof. intros H12 H23 u d H. apply H23, H12, H. Qed.

(** A step of the loop keeps the loaded documents; when it succeeds it
    only sets the pointer's [dereferenced] field. *)
Lemma dereferencePointer_frame (p : PointerData) (w w' : World)
  (r : Res PointerData) :
  Spine.dereferencePointer xpathEval fetchXML p w = (w', r) ->
  cacheKept w w'
  /\ (forall p', r = Ok p' ->
                 forgetDereferenced p' = forgetDereferenced p
                 /\ exists x, dereferenced p'
                              = Some (mkHandle (referencedUrl p) x)).
Proof.
  unfold Spine.dereferencePointer, bind.
  destruct (FvStore.getXML fetchXML (referencedUrl p) w) as [w1 [d|e]] eqn:Hg.
  - destruct (getXML_frame _ _ _ _ _ Hg) as (_ & Hkeep & _).
    destruct (findElementByXmlId xpathEval d (referencedTarget p)) as [x|e];
      intros [= <- <-]; (split; [exact Hkeep|]).
    + intros p' [= <-]. split; [reflexivity|]. simpl. eauto.
    + discriminate.
  - destruct (getXML_frame _ _ _ _ _ Hg) as (_ & Hkeep & _).
    intros [= <- <-]. split; [exact Hkeep|discriminate].
Qed.

Lemma findElementByXmlId_bad_count (d : Document) (xmlId : string) :
  length (evaluateXPath xpathEval d (xmlIdXPath xmlId)) <> 1 ->
  exists e, findElementByXmlId xpathEval d xmlId = Err e
            /\ (e = PointerInvalidElement xmlId
                \/ e = PointerManyElements xmlId).
Proof.
  intros H. unfold findElementByXmlId.
  destruct (evaluateXPath xpathEval d (xmlIdXPath xmlId)) as [|a [|b r]];
    simpl in H; [eauto|lia|eauto].
Qed.

(** The step raises, in the same state, on a pointer whose lookup does
    not find exactly one element. *)
Lemma dereferencePointer_bad_count (p : PointerData) (w : World)
  (d : Document) :
  cache w !! referencedUrl p = Some d ->
  length (evaluateXPath xpathEval d (xmlIdXPath (referencedTarget p))) <> 1 ->
  exists e, Spine.dereferencePointer xpathEval fetchXML p w = (w, Err e).
Proof.
  intros Hc Hn.
  destruct (findElementByXmlId_bad_count _ _ Hn) as (e & He & _).
  exists e. unfold Spine.dereferencePointer, bind.
  now rewrite (getXML_cached fetchXML _ _ _ Hc), He.
Qed.

Lemma dereference_loop_frame (l l' : list PointerData) (w w' : World)
  (oe : option Error) :
  forEach (inPlace (Spine.dereferencePointer xpathEval fetchXML)) l w
  = (w', (l', oe)) ->
  cacheKept w w'
  /\ List.map forgetDereferenced l' = List.map forgetDereferenced l.
Proof.
  revert l' w w' oe. induction l as [|p l IH]; simpl; intros l' w w' oe H.
  - injection H as <- <- <-. split; [apply cacheKept_refl|reflexivity].
  - unfold inPlace at 1 in H.
    destruct (Spine.dereferencePointer xpathEval fetchXML p w)
      as [w1 [p'|e]] eqn:Hp;
      destruct (dereferencePointer_frame _ _ _ _ Hp) as (Hk & Hf).
    + destruct (forEach _ l w1) as [w2 [l2 oe2]] eqn:Hl.
      injection H as <- <- <-.
      destruct (IH _ _ _ _ Hl) as (Hk2 & Hm).
      destruct (Hf p' eq_refl) as (Hfp & _).
      split; [eapply cacheKept_trans; eauto|].
      simpl. now rewrite Hfp, Hm.
    + injection H as <- <- <-. split; [exact Hk|reflexivity].
Qed.

Lemma dereference_loop_bad (l : list PointerData) (p : PointerData)
  (w : World) (d : Document) :
  In p l ->
  cache w !! referencedUrl p = Some d ->
  length (evaluateXPath xpathEval d (xmlIdXPath (referencedTarget p))) <> 1 ->
  exists w' l' e,
    forEach (inPlace (Spine.dereferencePointer xpathEval fetchXML)) l w
    = (w', (l', Some e)).
Proof.
  revert w. induction l as [|q l IH]; simpl; intros w Hin Hc Hn; [easy|].
  unfold inPlace at 1.
  destruct (Spine.dereferencePointer xpathEval fetchXML q w)
    as [w1 [q'|e]] eqn:Hq; [|eauto].
  destruct Hin as [->|Hin].
  - destruct (dereferencePointer_bad_count _ _ _ Hc Hn) as (e & He).
    congruence.
  - destruct (dereferencePointer_frame _ _ _ _ Hq) as (Hk & _).
    destruct (IH w1 Hin (Hk _ _ Hc) Hn) as (w' & l' & e & ->). eauto.
Qed.

Lemma dereferenceApp_frame (app app' : Apparatus.t) (w w' : World)
  (oe : option Error) :
  Spine.dereferenceApp xpathEval fetchXML app w = (w', (app', oe)) ->
  cacheKept w w'
  /\ List.map forgetDereferenced (Apparatus.pointers app')
     = List.map forgetDereferenced (Apparatus.pointers app).
Proof.
  unfold Spine.dereferenceApp.
  destruct (forEach _ (Apparatus.pointers app) w) as [w1 [l1 oe1]] eqn:H.
  intros [= <- <- <-]. simpl. eapply dereference_loop_frame; eauto.
Qed.

Lemma dereference_apps_frame (l l' : list Apparatus.t) (w w' : World)
  (oe : option Error) :
  forEach (Spine.dereferenceApp xpathEval fetchXML) l w = (w', (l', oe)) ->
  cacheKept w w' /\ pointersOf l' = pointersOf l.
Proof.
  revert l' w w' oe. induction l as [|a l IH]; simpl; intros l' w w' oe H.
  - injection H as <- <- <-. split; [apply cacheKept_refl|reflexivity].
  - destruct (Spine.dereferenceApp xpathEval fetchXML a w)
      as [w1 [a' oa]] eqn:Ha.
    destruct (dereferenceApp_frame _ _ _ _ _ Ha) as (Hk & Hf).
    destruct oa as [e|].
    + injection H as <- <- <-. split; [exact Hk|].
      unfold pointersOf. simpl. now rewrite Hf.
    + destruct (forEach _ l w1) as [w2 [l2 oe2]] eqn:Hl.
      injection H as <- <- <-.
      destruct (IH _ _ _ _ Hl) as (Hk2 & Hm).
      split; [eapply cacheKept_trans; eauto|].
      unfold pointersOf in *. simpl. now rewrite Hf, Hm.
Qed.

Lemma dereference_apps_bad (l : list Apparatus.t) (app : Apparatus.t)
  (p : PointerData) (w : World) (d : Document) :
  In app l -> In p (Apparatus.pointers app) ->
  cache w !! referencedUrl p = Some d ->
  length (evaluateXPath xpathEval d (xmlIdXPath (referencedTarget p))) <> 1 ->
  exists w' l' e,
    forEach (Spine.dereferenceApp xpathEval fetchXML) l w
    = (w', (l', Some e)).
Proof.
  revert w. induction l as [|a l IH]; simpl; intros w Ha Hp Hc Hn; [easy|].
  destruct (Spine.dereferenceApp xpathEval fetchXML a w)
    as [w1 [a' [e|]]] eqn:Hs; [eauto|].
  destruct Ha as [->|Ha].
  - unfold Spine.dereferenceApp in Hs.
    destruct (dereference_loop_bad _ _ _ _ Hp Hc Hn) as (w' & l' & e & He).
    rewrite He in Hs. discriminate.
  - destruct (dereferenceApp_frame _ _ _ _ _ Hs) as (Hk & _).
    destruct (IH w1 Ha Hp (Hk _ _ Hc) Hn) as (w' & l' & e & ->). eauto.
Qed.

(** The phase raises when some pointer's lookup does not find exactly
    one element; the pointers stay in their lists. *)
Lemma dereferencePointers_bad (st : Spine.State) (l : list Apparatus.t)
  (app : Apparatus.t) (p : PointerData) (d : Document) :
  Spine._apps (Spine.this st) = Some l ->
  In app l -> In p (Apparatus.pointers app) ->
  cache (Spine.world st) !! referencedUrl p = Some d ->
  length (evaluateXPath xpathEval d (xmlIdXPath (referencedTarget p))) <> 1 ->
  exists st' e l',
    Spine.dereferencePointers xpathEval fetchXML st = (st', Err e)
    /\ Spine._initialized (Spine.this st')
       = Spine._initialized (Spine.this st)
    /\ Spine._apps (Spine.this st') = Some l'
    /\ pointersOf l' = pointersOf l.
Proof.
  intros Hl Ha Hp Hc Hn.
  destruct (dereference_apps_bad _ _ _ _ _ Ha Hp Hc Hn)
    as (w' & l' & e & He).
  destruct (dereference_apps_frame _ _ _ _ _ He) as (_ & Hf).
  unfold Spine.dereferencePointers, Spine.forApps. rewrite Hl, He.
  eexists _, e, l'. split; [reflexivity|]. simpl. auto.
Qed.

End DereferenceFacts.

(** ** The phases in sequence *)

Section PhaseFacts.

Variable xpathEval : Document -> string -> list XNode.
Variable fetchXML : string -> option Document.

Lemma liftW_this {A : Type} (m : M World A) (st st' : Spine.State)
  (r : Res A) :
  Spine.liftW m st = (st', r) -> Spine.this st' = Spine.this st.
Proof.
  unfold Spine.liftW. destruct (m (Spine.world st)) as [w' r'].
  now intros [= <- <-].
Qed.

Lemma forApps_initialized
  (body : Apparatus.t -> World -> World * (Apparatus.t * option Error))
  (st st' : Spine.State) (r : Res unit) :
  Spine.forApps body st = (st', r) ->
  Spine._initialized (Spine.this st') = Spine._initialized (Spine.this st).
Proof.
  unfold Spine.forApps.
  destruct (Spine._apps (Spine.this st)) as [l|]; [|now intros [= <- <-]].
  destruct (forEach body l (Spine.world st)) as [w' [l' [e|]]];
    now intros [= <- <-].
Qed.

Lemma parseApps_initialized (st st' : Spine.State) (r : Res unit) :
  Spine.parseApps st = (st', r) ->
  Spine._initialized (Spine.this st') = Spine._initialized (Spine.this st).
Proof.
  unfold Spine.parseApps.
  destruct (Spine._xml (Spine.this st)) as [u|]; [|now intros [= <- <-]].
  destruct (cache (Spine.world st) !! u) as [doc|]; [|now intros [= <- <-]].
  destruct (mapRes _ _) as [l|e]; now intros [= <- <-].
Qed.

Lemma fetchAllReferences_initialized (st st' : Spine.State) (r : Res unit) :
  Spine.fetchAllReferences fetchXML st = (st', r) ->
  Spine._initialized (Spine.this st') = Spine._initialized (Spine.this st).
Proof.
  unfold Spine.fetchAllReferences, bind, Spine.apps.
  destruct (Spine._apps (Spine.this st)) as [l|]; [|now intros [= <- <-]].
  intros H. apply liftW_this in H. now rewrite H.
Qed.

(** The first four phases leave the flag as it was. *)
Lemma phasesBeforeDereference_initialized (st st4 : Spine.State) :
  phasesBeforeDereference xpathEval fetchXML st = (st4, Ok tt) ->
  Spine._initialized (Spine.this st4) = Spine._initialized (Spine.this st).
Proof.
  unfold phasesBeforeDereference. intros H.
  apply bind_Ok_inv in H. destruct H as (u & s1 & H1 & H).
  apply bind_Ok_inv in H. destruct H as ([] & s2 & H2 & H).
  apply bind_Ok_inv in H. destruct H as ([] & s3 & H3 & H).
  apply bind_Ok_inv in H. destruct H as ([] & s4 & H4 & H).
  apply forApps_initialized in H.
  apply fetchAllReferences_initialized in H4.
  apply parseApps_initialized in H3.
  injection H2 as <-.
  unfold Spine.getXML in H1. apply liftW_this in H1.
  rewrite H, H4, H3. simpl. now rewrite H1.
Qed.

(** [initialize] on a chunk that is not initialized: the first four
    phases, then the last two and the flag. *)
Lemma initialize_phases (st : Spine.State) :
  Spine._initialized (Spine.this st) = false ->
  Spine.initialize xpathEval fetchXML st
  = bind (phasesBeforeDereference xpathEval fetchXML)
      (fun _ =>
         bind (Spine.dereferencePointers xpathEval fetchXML)
           (fun _ =>
              bind Spine.addBackPointers
                (fun _ s => (Spine.set_initialized s, Ok tt))))
      st.
Proof.
  intros H. unfold Spine.initialize, phasesBeforeDereference. rewrite H.
  unfold bind.
  destruct (Spine.getXML fetchXML st) as [s1 [u|e]]; [|reflexivity].
  destruct (Spine.parseApps (Spine.set_xml u s1)) as [s2 [[]|e]];
    [|reflexivity].
  destruct (Spine.fetchAllReferences fetchXML s2) as [s3 [[]|e]];
    [|reflexivity].
  destruct (Spine.rewriteStringRanges xpathEval fetchXML s3) as [s4 [[]|e]];
    reflexivity.
Qed.

End PhaseFacts.

(** C7: when the dereference phase starts with a pointer whose
    [referencedTarget], looked up as an id in its loaded
    [referencedUrl] document, does not find exactly one element,
    [initialize] raises, the chunk is not marked initialized, and the
    pointers are all still in their lists. *)
Theorem dereference_failure_aborts
  (xpathEval : Document -> string -> list XNode)
  (fetchXML : string -> option Document)
  (st st4 : Spine.State) (l : list Apparatus.t) (app : Apparatus.t)
  (p : PointerData) (d : Document) :
  Spine._initialized (Spine.this st) = false ->
  phasesBeforeDereference xpathEval fetchXML st = (st4, Ok tt) ->
  Spine._apps (Spine.this st4) = Some l ->
  In app l -> In p (Apparatus.pointers app) ->
  cache (Spine.world st4) !! referencedUrl p = Some d ->
  length (evaluateXPath xpathEval d (xmlIdXPath (referencedTarget p))) <> 1 ->
  (exists e, findElementByXmlId xpathEval d (referencedTarget p) = Err e)
  /\ exists st' e l',
      Spine.initialize xpathEval fetchXML st = (st', Err e)
      /\ Spine._initialized (Spine.this st') = false
      /\ Spine._apps (Spine.this st') = Some l'
      /\ pointersOf l' = pointersOf l.
Proof.
  intros Hflag Hpre Hl Ha Hp Hc Hn. split.
  { destruct (findElementByXmlId_bad_count xpathEval _ _ Hn) as (e & He & _).
    eauto. }
  destruct (dereferencePointers_bad xpathEval fetchXML _ _ _ _ _
              Hl Ha Hp Hc Hn) as (st' & e & l' & Hd & Hf & Hl' & Hps).
  exists st', e, l'.
  rewrite (initialize_phases _ _ _ Hflag).
  unfold bind at 1. rewrite Hpre. unfold bind at 1. rewrite Hd.
  split; [reflexivity|]. split; [|auto].
  rewrite Hf.
  rewrite (phasesBeforeDereference_initialized _ _ _ _ Hpre). exact Hflag.
Qed.

(** On [danglingSpine], whose pointer names the id [nowhere], which no
    element of [doc.xml] carries. *)
Lemma dereference_failure_aborts_witness :
  (exists e, findElementByXmlId Examples.tinyXPath Examples.witnessDoc
               "nowhere" = Err e)
  /\ exists st' e l',
      Spine.initialize Examples.tinyXPath
        (Examples.serving Examples.danglingSpine) Examples.freshChunk
      = (st', Err e)
      /\ Spine._initialized (Spine.this st') = false
      /\ Spine._apps (Spine.this st') = Some l'
      /\ pointersOf l' = pointersOf [Examples.danglingApp].
Proof.
  apply (dereference_failure_aborts Examples.tinyXPath
           (Examples.serving Examples.danglingSpine)
           Examples.freshChunk Examples.danglingBeforeDereference
           [Examples.danglingApp] Examples.danglingApp
           Examples.danglingPointer Examples.witnessDoc).
  - reflexivity.
  - vm_compute. reflexivity.
  - reflexivity.
  - simpl. auto.
  - simpl. auto.
  - reflexivity.
  - vm_compute. lia.
Defined.

(** ** Back-references after a full run *)

Lemma lastClaim_app (h : Handle) (c1 c2 : list (Handle * string)) :
  lastClaim h (c1 ++ c2)
  = match lastClaim h c2 with
    | Some v => Some v
    | None => lastClaim h c1
    end.
Proof.
  induction c1 as [|[h' v] c1 IH]; simpl.
  - now destruct (lastClaim h c2).
  - rewrite IH. now destruct (lastClaim h c2).
Qed.

Lemma lastClaim_In (h : Handle) (v : string) (cl : list (Handle * string)) :
  lastClaim h cl = Some v -> In (h, v) cl.
Proof.
  induction cl as [|[h' v'] cl IH]; simpl; [discriminate|].
  destruct (lastClaim h cl) as [v0|].
  - intros [= ->]. right. now apply IH.
  - destruct (decide (h' = h)) as [->|]; [|discriminate].
    intros [= ->]. now left.
Qed.

Lemma In_lastClaim (h : Handle) (v : string) (cl : list (Handle * string)) :
  In (h, v) cl -> exists v', lastClaim h cl = Some v'.
Proof.
  induction cl as [|[h' v'] cl IH]; simpl; [easy|].
  intros [[= -> ->]|Hin].
  - destruct (lastClaim h cl); [eauto|].
    destruct (decide (h = h)); [eauto|congruence].
  - destruct (IH Hin) as (v0 & ->). eauto.
Qed.

Lemma In_pointerClaims (appId : string) (ptrs : list PointerData)
  (h : Handle) (v : string) :
  In (h, v) (pointerClaims appId ptrs)
  <-> v = appId /\ exists p, In p ptrs /\ dereferenced p = Some h.
Proof.
  unfold pointerClaims. rewrite in_flat_map. split.
  - intros (p & Hp & Hin). destruct (dereferenced p) as [h'|] eqn:Hd.
    + destruct Hin as [[= -> ->]|[]]. eauto.
    + destruct Hin.
  - intros (-> & p & Hp & Hd). exists p. split; [exact Hp|].
    rewrite Hd. now left.
Qed.

Lemma In_claimsOf (l : list Apparatus.t) (h : Handle) (v : string) :
  In (h, v) (claimsOf l)
  <-> exists app p, In app l /\ In p (Apparatus.pointers app)
                    /\ dereferenced p = Some h /\ v = Apparatus.id app.
Proof.
  unfold claimsOf. rewrite in_flat_map. split.
  - intros (app & Ha & Hin). apply In_pointerClaims in Hin.
    destruct Hin as (-> & p & Hp & Hd). eauto 10.
  - intros (app & p & Ha & Hp & Hd & ->). exists app. split; [exact Ha|].
    apply In_pointerClaims. eauto.
Qed.

(** The writes leave alone an element that no claim names. *)
Lemma applyClaims_frame (cl : list (Handle * string)) (w w' : World)
  (h : Handle) :
  applyClaims cl w = (w', None) -> lastClaim h cl = None ->
  elementAt w' h = elementAt w h.
Proof.
  revert w. induction cl as [|[h' v] cl IH]; simpl; intros w H Hn.
  - now injection H as <-.
  - destruct (setAttributeAt h' "app-ref" v w) as [w1 [[]|e]] eqn:Hs;
      [|discriminate].
    destruct (lastClaim h cl) as [v0|] eqn:Hl; [discriminate|].
    destruct (decide (h' = h)) as [|Hne]; [discriminate|].
    rewrite (IH _ H eq_refl).
    destruct (setAttributeAt_Ok _ _ _ _ _ Hs) as (_ & Hother & _).
    apply Hother. congruence.
Qed.

(** After the writes, an element carries the id of its last claim. *)
Lemma applyClaims_last (cl : list (Handle * string)) (w w' : World)
  (h : Handle) (v : string) :
  applyClaims cl w = (w', None) -> lastClaim h cl = Some v ->
  exists e, elementAt w' h = Some e /\ getNamedItem e "app-ref" = Some v.
Proof.
  revert w. induction cl as [|[h' v'] cl IH]; simpl; intros w H Hl;
    [discriminate|].
  destruct (setAttributeAt h' "app-ref" v' w) as [w1 [[]|e]] eqn:Hs;
    [|discriminate].
  destruct (lastClaim h cl) as [v0|] eqn:Hc.
  - injection Hl as ->. eapply IH; eauto.
  - destruct (decide (h' = h)) as [->|]; [|discriminate].
    injection Hl as ->.
    destruct (setAttributeAt_Ok _ _ _ _ _ Hs) as ((e & _ & He) & _).
    rewrite (applyClaims_frame _ _ _ _ H Hc), He.
    eexists. split; [reflexivity|apply getNamedItem_setAttribute].
Qed.

(** The last claim on an element that a pointer of [app] names is
    [app]'s own when no later entry with another id names it. *)
Lemma lastClaim_own (A1 A2 : list Apparatus.t) (app : Apparatus.t)
  (p : PointerData) (h : Handle) (v : string) :
  In p (Apparatus.pointers app) -> dereferenced p = Some h ->
  lastClaim h (claimsOf (A1 ++ app :: A2)) = Some v ->
  (forall app2 q, In app2 A2 -> In q (Apparatus.pointers app2) ->
                  dereferenced q = Some h ->
                  Apparatus.id app2 = Apparatus.id app) ->
  v = Apparatus.id app.
Proof.
  intros Hp Hd Hl Hlater.
  unfold claimsOf in Hl. rewrite flat_map_app in Hl. simpl in Hl.
  fold (claimsOf A1) in Hl. fold (claimsOf A2) in Hl.
  rewrite !lastClaim_app in Hl.
  destruct (lastClaim h (claimsOf A2)) as [v2|] eqn:H2.
  - injection Hl as <-. apply lastClaim_In, In_claimsOf in H2.
    destruct H2 as (app2 & q & Ha2 & Hq & Hdq & ->). eauto.
  - assert (Hin : In (h, Apparatus.id app)
                    (pointerClaims (Apparatus.id app)
                       (Apparatus.pointers app))).
    { apply In_pointerClaims. eauto. }
    destruct (In_lastClaim _ _ _ Hin) as (v' & Hv').
    rewrite Hv' in Hl. injection Hl as <-.
    apply lastClaim_In, In_pointerClaims in Hv'. tauto.
Qed.

Section FullRun.

Variable xpathEval : Document -> string -> list XNode.
Variable fetchXML : string -> option Document.

(** After a dereference phase that ran to its end, every pointer has a
    resolved node. *)
Lemma dereference_apps_resolved (l l' : list Apparatus.t) (w w' : World) :
  forEach (Spine.dereferenceApp xpathEval fetchXML) l w = (w', (l', None)) ->
  Forall (fun app => Forall (fun p => exists h, dereferenced p = Some h)
                       (Apparatus.pointers app)) l'.
Proof.
  apply forEach_None_Forall.
  intros app w0 w1 app' H. unfold Spine.dereferenceApp in H.
  destruct (forEach _ (Apparatus.pointers app) w0) as [w2 [ptrs oe]] eqn:Hl.
  injection H as <- <- ->. simpl.
  revert Hl. apply forEach_None_Forall.
  intros p wa wb p' Hp. unfold inPlace in Hp.
  destruct (Spine.dereferencePointer xpathEval fetchXML p wa)
    as [wc [p1|e]] eqn:Hd; [|discriminate].
  injection Hp as <- <-.
  destruct (dereferencePointer_frame _ _ _ _ _ _ Hd) as (_ & Hf).
  destruct (Hf p1 eq_refl) as (_ & x & Hx). eauto.
Qed.

(** The state that a completed run leaves: the entries as the
    dereference phase left them, all resolved, and the documents after
    the writes of their claims. *)
Lemma initialize_Ok_shape (st st' : Spine.State) :
  Spine._initialized (Spine.this st) = false ->
  Spine.initialize xpathEval fetchXML st = (st', Ok tt) ->
  exists l w5,
    Spine._apps (Spine.this st') = Some l
    /\ Forall (fun app => Forall (fun p => exists h, dereferenced p = Some h)
                            (Apparatus.pointers app)) l
    /\ applyClaims (claimsOf l) w5 = (Spine.world st', None).
Proof.
  intros Hflag H. rewrite (initialize_phases _ _ _ Hflag) in H.
  apply bind_Ok_inv in H. destruct H as ([] & s4 & _ & H).
  apply bind_Ok_inv in H. destruct H as ([] & s5 & Hd & H).
  apply bind_Ok_inv in H. destruct H as ([] & s6 & Hb & H).
  injection H as <-.
  unfold Spine.dereferencePointers, Spine.forApps in Hd.
  destruct (Spine._apps (Spine.this s4)) as [l4|]; [|discriminate].
  destruct (forEach _ l4 (Spine.world s4)) as [w5 [l5 [e|]]] eqn:Hl;
    [discriminate|].
  injection Hd as <-.
  unfold Spine.addBackPointers, Spine.forApps in Hb. simpl in Hb.
  rewrite addBackPointersApp_loop in Hb.
  destruct (applyClaims (claimsOf l5) w5) as [w6 [e|]] eqn:Hc;
    simpl in Hb; [discriminate|].
  injection Hb as <-. simpl.
  exists l5, w5. split; [reflexivity|]. split; [|exact Hc].
  eapply dereference_apps_resolved; eauto.
Qed.

End FullRun.

(** C3, counterexample: [sharedSpine] has two entries, [a1] and [a2],
    whose pointers name the same element of [doc.xml]; after the run
    the element names [a2], not [a1]. *)
Lemma shared_element_names_the_later_entry :
  Spine.initialize Examples.tinyXPath (Examples.serving Examples.sharedSpine)
    Examples.freshChunk
  = (Examples.sharedReady, Ok tt)
  /\ ~ backReferencesOwn Examples.sharedReady.
Proof.
  split; [vm_compute; reflexivity|].
  intros H.
  destruct (H _
              {| Apparatus.id := "a1";
                 Apparatus.n := None;
                 Apparatus.element := Examples.ptrHandle 1;
                 Apparatus.pointers :=
                   [ {| ptrElement := Examples.ptrHandle 4;
                        groupId := "g1";
                        edition := Some Examples.edition1818;
                        referencedUrl := "doc.xml";
                        referencedTarget := "x";
                        dereferenced :=
                          Some (mkHandle "doc.xml" (XElement 1)) |} ] |}
              _ eq_refl (or_introl eq_refl) (or_introl eq_refl))
    as (h & e & Hh & He & Hattr).
  injection Hh as <-.
  vm_compute in He. injection He as <-.
  vm_compute in Hattr. discriminate Hattr.
Qed.

(** C3, as amended: after a run of [initialize] that completes on a
    chunk that was not initialized, every pointer of every entry has a
    resolved element, and that element carries the back-reference
    attribute whose value is the id of the last entry, in the order of
    the entries, that has a pointer resolved to it; the value is the id
    of the pointer's own entry whenever no later entry with another id
    has a pointer resolved to the same element. *)
Theorem back_references_name_last_claimant
  (xpathEval : Document -> string -> list XNode)
  (fetchXML : string -> option Document) (st st' : Spine.State) :
  Spine._initialized (Spine.this st) = false ->
  Spine.initialize xpathEval fetchXML st = (st', Ok tt) ->
  exists l,
    Spine._apps (Spine.this st') = Some l
    /\ forall (A1 A2 : list Apparatus.t) (app : Apparatus.t)
              (p : PointerData),
        l = A1 ++ app :: A2 -> In p (Apparatus.pointers app) ->
        exists h e v,
          dereferenced p = Some h
          /\ elementAt (Spine.world st') h = Some e
          /\ getNamedItem e "app-ref" = Some v
          /\ lastClaim h (claimsOf l) = Some v
          /\ ((forall app2 q,
                  In app2 A2 -> In q (Apparatus.pointers app2) ->
                  dereferenced q = Some h ->
                  Apparatus.id app2 = Apparatus.id app) ->
              v = Apparatus.id app).
Proof.
  intros Hflag H.
  destruct (initialize_Ok_shape _ _ _ _ Hflag H) as (l & w5 & Hl & Hres & Hc).
  exists l. split; [exact Hl|].
  intros A1 A2 app p -> Hp.
  rewrite List.Forall_forall in Hres.
  assert (Ha : In app (A1 ++ app :: A2)) by (apply in_elt).
  specialize (Hres app Ha). rewrite List.Forall_forall in Hres.
  destruct (Hres p Hp) as (h & Hh).
  assert (Hin : In (h, Apparatus.id app) (claimsOf (A1 ++ app :: A2))).
  { apply In_claimsOf. eauto 10. }
  destruct (In_lastClaim _ _ _ Hin) as (v & Hv).
  destruct (applyClaims_last _ _ _ _ _ Hc Hv) as (e & He & Hattr).
  exists h, e, v. repeat (split; [assumption|]).
  intros Hlater. eapply lastClaim_own; eauto.
Qed.

(** On [sharedSpine], from a fresh chunk. *)
Lemma back_references_name_last_claimant_witness :
  exists l,
    Spine._apps (Spine.this Examples.sharedReady) = Some l
    /\ forall (A1 A2 : list Apparatus.t) (app : Apparatus.t)
              (p : PointerData),
        l = A1 ++ app :: A2 -> In p (Apparatus.pointers app) ->
        exists h e v,
          dereferenced p = Some h
          /\ elementAt (Spine.world Examples.sharedReady) h = Some e
          /\ getNamedItem e "app-ref" = Some v
          /\ lastClaim h (claimsOf l) = Some v
          /\ ((forall app2 q,
                  In app2 A2 -> In q (Apparatus.pointers app2) ->
                  dereferenced q = Some h ->
                  Apparatus.id app2 = Apparatus.id app) ->
              v = Apparatus.id app).
Proof.
  apply (back_references_name_last_claimant Examples.tinyXPath
           (Examples.serving Examples.sharedSpine)
           Examples.freshChunk Examples.sharedReady).
  - reflexivity.
  - vm_compute. reflexivity.
Defined.

(** * Further properties *)

(** ** Strings *)

Lemma append_assoc (a b c : string) : (a +:+ b) +:+ c = a +:+ (b +:+ c).
Proof.
  induction a as [|x a IH]; [reflexivity|].
  change (String x ((a +:+ b) +:+ c) = String x (a +:+ (b +:+ c))).
  now rewrite IH.
Qed.

Lemma append_cons (x : ascii) (a b : string) :
  String x a +:+ b = String x (a +:+ b).
Proof. reflexivity. Qed.

Lemma append_empty_l (b : string) : "" +:+ b = b.
Proof. reflexivity. Qed.

Lemma count_append (c : ascii) (a b : string) :
  JsString.count c (a +:+ b) = JsString.count c a + JsString.count c b.
Proof.
  induction a as [|x a IH]; [reflexivity|].
  rewrite append_cons. cbn [JsString.count]. rewrite IH. lia.
Qed.

Lemma stripPrefix_Some (p s r : string) :
  JsString.stripPrefix p s = Some r <-> s = p +:+ r.
Proof.
  revert s. induction p as [|a p IH]; intros s; cbn [JsString.stripPrefix].
  - rewrite append_empty_l. split; [now intros [= ->]|now intros ->].
  - destruct s as [|b s]; [split; [discriminate|rewrite append_cons; discriminate]|].
    rewrite append_cons.
    destruct (Ascii.eqb a b) eqn:E.
    + apply Ascii.eqb_eq in E. subst b. rewrite IH.
      split; [now intros ->|now intros [= ->]].
    + apply Ascii.eqb_neq in E.
      split; [discriminate|intros [= <- _]; now elim E].
Qed.

Lemma splitLast_None (c : ascii) (s : string) :
  JsString.splitLast c s = None <-> JsString.count c s = 0.
Proof.
  induction s as [|a s IH]; cbn [JsString.splitLast JsString.count].
  - tauto.
  - destruct (JsString.splitLast c s) as [[l r]|].
    + split; [discriminate|]. intros H.
      assert (H0 : JsString.count c s = 0) by lia.
      apply IH in H0. discriminate.
    + assert (H0 : JsString.count c s = 0) by (now apply IH).
      rewrite H0. destruct (Ascii.eqb a c); split; (discriminate || auto || lia).
Qed.

(** [splitLast] cuts at the last occurrence. *)
Lemma splitLast_Some_inv (c : ascii) (s l r : string) :
  JsString.splitLast c s = Some (l, r) ->
  s = l +:+ String c r /\ JsString.count c r = 0.
Proof.
  revert l r. induction s as [|a s IH]; intros l r;
    cbn [JsString.splitLast]; [discriminate|].
  destruct (JsString.splitLast c s) as [[l0 r0]|] eqn:Hs.
  - intros [= <- <-]. destruct (IH _ _ eq_refl) as [-> Hr]. auto.
  - apply splitLast_None in Hs.
    destruct (Ascii.eqb a c) eqn:E; [|discriminate].
    apply Ascii.eqb_eq in E. subst a. intros [= <- <-]. auto.
Qed.

Lemma splitLast_app (c : ascii) (l r : string) :
  JsString.count c r = 0 ->
  JsString.splitLast c (l +:+ String c r) = Some (l, r).
Proof.
  intros Hr. induction l as [|x l IH].
  - rewrite append_empty_l. cbn [JsString.splitLast].
    apply splitLast_None in Hr. now rewrite Hr, Ascii.eqb_refl.
  - rewrite append_cons. cbn [JsString.splitLast]. now rewrite IH.
Qed.

Lemma isDigit_not (c d : ascii) :
  JsString.isDigit d = true -> JsString.isDigit c = false ->
  Ascii.eqb d c = false.
Proof.
  intros Hd Hc. destruct (Ascii.eqb d c) eqn:E; [|reflexivity].
  apply Ascii.eqb_eq in E. congruence.
Qed.

(** A string of digits holds no character that is not a digit. *)
Lemma allDigits_count (c : ascii) (s : string) :
  JsString.isDigit c = false -> JsString.allDigits s = true ->
  JsString.count c s = 0.
Proof.
  intros Hc. induction s as [|d s IH]; cbn [JsString.allDigits JsString.count];
    [reflexivity|].
  intros H. apply andb_true_iff in H. destruct H as [Hd Hs].
  rewrite (isDigit_not _ _ Hd Hc). now rewrite IH.
Qed.

Lemma isDigits_allDigits (s : string) :
  JsString.isDigits s = true <-> s <> "" /\ JsString.allDigits s = true.
Proof.
  destruct s as [|c s]; cbn [JsString.isDigits].
  - split; [discriminate|]. intros [H _]. now elim H.
  - split; [|tauto]. intros H. split; [discriminate|exact H].
Qed.

(** ** The grammar of range targets *)

Lemma matchGroups_grammar_core (s x a b : string) :
  StringRange.matchGroups s = Some (x, a, b)
  <-> s = "string-range(" +:+ x +:+ "," +:+ a +:+ "," +:+ b +:+ ")"
      /\ x <> "" /\ JsString.noLineTerminator x = true
      /\ JsString.isDigits a = true /\ JsString.isDigits b = true.
Proof.
  unfold StringRange.matchGroups. split.
  - destruct (JsString.stripPrefix "string-range(" s) as [r1|] eqn:H1;
      [|discriminate].
    apply stripPrefix_Some in H1.
    destruct (JsString.splitLast ")" r1) as [[r2 [|? ?]]|] eqn:H2;
      try discriminate.
    apply splitLast_Some_inv in H2. destruct H2 as [H2 _].
    destruct (JsString.splitLast "," r2) as [[r3 len]|] eqn:H3;
      [|discriminate].
    apply splitLast_Some_inv in H3. destruct H3 as [H3 _].
    destruct (JsString.splitLast "," r3) as [[xp st]|] eqn:H4;
      [|discriminate].
    apply splitLast_Some_inv in H4. destruct H4 as [H4 _].
    destruct (JsString.isDigits len) eqn:Hlen; [|discriminate].
    destruct (JsString.isDigits st) eqn:Hst; [|discriminate].
    destruct (String.eqb xp "") eqn:Hxp; [discriminate|].
    destruct (JsString.noLineTerminator xp) eqn:Hnl; [|discriminate].
    cbn [andb negb]. intros [= <- <- <-].
    apply String.eqb_neq in Hxp.
    repeat split; auto.
    subst s r1 r2 r3. rewrite !append_assoc. reflexivity.
  - intros (-> & Hx & Hnl & Ha & Hb).
    assert (H1 : JsString.stripPrefix "string-range("
                   ("string-range(" +:+ x +:+ "," +:+ a +:+ "," +:+ b
                    +:+ ")")
                 = Some (x +:+ "," +:+ a +:+ "," +:+ b +:+ ")"))
      by (now apply stripPrefix_Some).
    rewrite H1.
    apply isDigits_allDigits in Ha. destruct Ha as [Ha Hda].
    apply isDigits_allDigits in Hb. destruct Hb as [Hb Hdb].
    assert (H2 : JsString.splitLast ")"
                   (x +:+ "," +:+ a +:+ "," +:+ b +:+ ")")
                 = Some (x +:+ "," +:+ a +:+ "," +:+ b, "")).
    { replace (x +:+ "," +:+ a +:+ "," +:+ b +:+ ")")
        with ((x +:+ "," +:+ a +:+ "," +:+ b) +:+ String ")" "")
        by (rewrite !append_assoc; reflexivity).
      now apply splitLast_app. }
    rewrite H2.
    assert (H3 : JsString.splitLast "," (x +:+ "," +:+ a +:+ "," +:+ b)
                 = Some (x +:+ "," +:+ a, b)).
    { replace (x +:+ "," +:+ a +:+ "," +:+ b)
        with ((x +:+ "," +:+ a) +:+ String "," b)
        by (rewrite !append_assoc; reflexivity).
      apply splitLast_app. now apply allDigits_count. }
    rewrite H3.
    assert (H4 : JsString.splitLast "," (x +:+ "," +:+ a) = Some (x, a)).
    { change (x +:+ "," +:+ a) with (x +:+ String "," a).
      apply splitLast_app. now apply allDigits_count. }
    rewrite H4.
    assert (Hda' : JsString.isDigits a = true)
      by (apply isDigits_allDigits; auto).
    assert (Hdb' : JsString.isDigits b = true)
      by (apply isDigits_allDigits; auto).
    rewrite Hda', Hdb', Hnl.
    apply String.eqb_neq in Hx. now rewrite Hx.
Qed.

(** X5: The regular expression of [rewriteStringRanges] accepts exactly the
    strings [string-range(X,A,B)] in which [X] is not empty and holds
    no line terminator and [A] and [B] are not empty and hold only
    digits, and its groups are then [X], [A] and [B]. *)
Theorem matchGroups_grammar (s x a b : string) :
  StringRange.matchGroups s = Some (x, a, b)
  <-> s = "string-range(" +:+ x +:+ "," +:+ a +:+ "," +:+ b +:+ ")"
      /\ x <> "" /\ JsString.noLineTerminator x = true
      /\ JsString.isDigits a = true /\ JsString.isDigits b = true.
Proof. apply matchGroups_grammar_core. Qed.

(** ** Numbers in range targets *)

Lemma digitValue_digit (c : ascii) :
  JsString.isDigit c = true ->
  JsString.digitValue 10 c = Some (Z.of_nat (nat_of_ascii c) - 48)%Z
  /\ (0 <= Z.of_nat (nat_of_ascii c) - 48)%Z.
Proof.
  unfold JsString.isDigit, JsString.digitValue. intros H.
  apply andb_true_iff in H. destruct H as [H1 H2].
  apply Nat.leb_le in H1. apply Nat.leb_le in H2.
  assert (Ha : (48 <=? Z.of_nat (nat_of_ascii c))%Z = true)
    by (apply Z.leb_le; lia).
  assert (Hb : (Z.of_nat (nat_of_ascii c) <=? 57)%Z = true)
    by (apply Z.leb_le; lia).
  cbv zeta. rewrite Ha, Hb. cbn [andb].
  assert (Hc : (Z.of_nat (nat_of_ascii c) - 48 <? 10)%Z = true)
    by (apply Z.ltb_lt; lia).
  rewrite Hc. split; [reflexivity|lia].
Qed.

Lemma readDigits_digits (s : string) (acc : Z) :
  JsString.allDigits s = true -> (0 <= acc)%Z ->
  JsString.readDigits 10 s acc true = Some (decimalValue s acc)
  /\ (0 <= decimalValue s acc)%Z.
Proof.
  revert acc. induction s as [|c s IH]; intros acc H Hacc;
    cbn [JsString.readDigits decimalValue JsString.allDigits] in *.
  - auto.
  - apply andb_true_iff in H. destruct H as [Hc Hs].
    destruct (digitValue_digit c Hc) as [-> Hd].
    apply IH; [exact Hs|lia].
Qed.

(** On a string of digits [parseInt] gives the Number value of its
    decimal value. *)
Lemma parseInt_digits (s : string) :
  JsString.isDigits s = true ->
  JsString.parseInt s = JsString.numberOf (decimalValue s 0)
  /\ (0 <= decimalValue s 0)%Z.
Proof.
  destruct s as [|c s]; [discriminate|].
  cbn [JsString.isDigits JsString.allDigits]. intros H.
  apply andb_true_iff in H. destruct H as [Hc Hs].
  assert (Hr : JsString.readDigits 10 (String c s) 0 false
               = Some (decimalValue (String c s) 0)
               /\ (0 <= decimalValue (String c s) 0)%Z).
  { cbn [JsString.readDigits decimalValue].
    destruct (digitValue_digit c Hc) as [-> Hd].
    apply readDigits_digits; [exact Hs|lia]. }
  destruct Hr as [Hr Hpos]. split; [|exact Hpos].
  revert Hr. generalize (decimalValue (String c s) 0). intros v Hr.
  unfold JsString.parseInt.
  destruct c as [[] [] [] [] [] [] [] []]; try discriminate Hc;
    cbn [JsString.skipWhiteSpace];
    match goal with
    | |- context [JsString.isWhiteSpace ?c] =>
        change (JsString.isWhiteSpace c) with false
    end; cbv iota beta.
  all: try (rewrite Hr; reflexivity).
  destruct s as [|c2 s2]; [now rewrite Hr|].
  cbn [JsString.allDigits] in Hs.
  apply andb_true_iff in Hs. destruct Hs as [Hc2 _].
  destruct c2 as [[] [] [] [] [] [] [] []]; try discriminate Hc2;
    now rewrite Hr.
Qed.

Lemma numberOf_not_NaN (v : Z) : JsString.numberOf v <> JsString.NaN.
Proof.
  unfold JsString.numberOf.
  destruct (Z.abs v <=? 2 ^ 53)%Z; discriminate.
Qed.

(** X6: the numbers of a range are the Number values of the decimal
    values of the two digit groups: the integers themselves when they
    are at most 2^53, the engine's doubles for them beyond; they are
    never [NaN], and the decimal values are never negative. *)
Theorem ofTarget_numbers (s : string) (r : StringRange.t) :
  StringRange.ofTarget s = Some r ->
  exists x a b,
    StringRange.matchGroups s = Some (x, a, b)
    /\ StringRange.xpath r = x
    /\ StringRange.start r = JsString.numberOf (decimalValue a 0)
    /\ StringRange.length r = JsString.numberOf (decimalValue b 0)
    /\ (0 <= decimalValue a 0)%Z /\ (0 <= decimalValue b 0)%Z
    /\ ((decimalValue a 0 <= 2 ^ 53)%Z ->
        StringRange.start r = JsString.Integer (decimalValue a 0))
    /\ ((decimalValue b 0 <= 2 ^ 53)%Z ->
        StringRange.length r = JsString.Integer (decimalValue b 0))
    /\ StringRange.start r <> JsString.NaN
    /\ StringRange.length r <> JsString.NaN.
Proof.
  unfold StringRange.ofTarget.
  destruct (StringRange.matchGroups s) as [[[x a] b]|] eqn:Hm; [|discriminate].
  intros [= <-]. cbn [StringRange.xpath StringRange.start StringRange.length].
  apply matchGroups_grammar_core in Hm.
  destruct Hm as (_ & _ & _ & Ha & Hb).
  destruct (parseInt_digits a Ha) as [-> Hpa].
  destruct (parseInt_digits b Hb) as [-> Hpb].
  assert (Hint : forall v, (0 <= v)%Z -> (v <= 2 ^ 53)%Z ->
                           JsString.numberOf v = JsString.Integer v).
  { intros v H0 H1. unfold JsString.numberOf.
    assert (Hle : (Z.abs v <=? 2 ^ 53)%Z = true)
      by (apply Z.leb_le; rewrite Z.abs_eq; assumption).
    now rewrite Hle. }
  exists x, a, b.
  repeat split; auto using numberOf_not_NaN.
Qed.

(** On a range whose length has more digits than a Number holds
    exactly. *)
Lemma ofTarget_numbers_witness :
  exists x a b,
    StringRange.matchGroups "string-range(//tei:p,0,9007199254740993)"
    = Some (x, a, b)
    /\ "//tei:p" = x
    /\ JsString.Integer 0 = JsString.numberOf (decimalValue a 0)
    /\ JsString.Approximated 9007199254740993
       = JsString.numberOf (decimalValue b 0)
    /\ (0 <= decimalValue a 0)%Z /\ (0 <= decimalValue b 0)%Z
    /\ ((decimalValue a 0 <= 2 ^ 53)%Z ->
        JsString.Integer 0 = JsString.Integer (decimalValue a 0))
    /\ ((decimalValue b 0 <= 2 ^ 53)%Z ->
        JsString.Approximated 9007199254740993
        = JsString.Integer (decimalValue b 0))
    /\ JsString.Integer 0 <> JsString.NaN
    /\ JsString.Approximated 9007199254740993 <> JsString.NaN.
Proof.
  apply (ofTarget_numbers "string-range(//tei:p,0,9007199254740993)"
           (StringRange.mk "//tei:p" (JsString.Integer 0)
              (JsString.Approximated 9007199254740993))).
  reflexivity.
Defined.

(** ** The edition lookup *)

Lemma getEdition_lookup_core (c : string) :
  (forall ed, FvStore.getEdition c = Ok (Some ed)
              <-> In ed FvStore.editions /\ code ed = c)
  /\ (FvStore.getEdition c = Ok None
      <-> forall ed, In ed FvStore.editions -> code ed <> c).
Proof.
  unfold FvStore.getEdition. split.
  - intros ed. split.
    + intros H.
      assert (H' : List.find (fun e => String.eqb (code e) c)
                     FvStore.editions = Some ed) by congruence.
      apply List.find_some in H'. destruct H' as [Hin Hc].
      apply String.eqb_eq in Hc. auto.
    + intros [Hin <-]. f_equal.
      cbn [In FvStore.editions] in Hin.
      repeat (destruct Hin as [<-|Hin]; [reflexivity|]). destruct Hin.
  - split.
    + intros H ed Hin Hc.
      assert (H' : List.find (fun e => String.eqb (code e) c)
                     FvStore.editions = None) by congruence.
      pose proof (List.find_none _ _ H' ed Hin) as Hn. cbv beta in Hn.
      apply String.eqb_neq in Hn. auto.
    + intros H. f_equal.
      destruct (List.find _ FvStore.editions) as [ed|] eqn:Hf; [|reflexivity].
      apply List.find_some in Hf. destruct Hf as [Hin Hc].
      apply String.eqb_eq in Hc. now elim (H ed Hin).
Qed.

(** X4: The lookup finds an edition exactly when it is an edition of the
    store with that code, and finds none exactly when no edition of the
    store has that code. *)
Theorem getEdition_lookup (c : string) :
  (forall ed, FvStore.getEdition c = Ok (Some ed)
              <-> In ed FvStore.editions /\ code ed = c)
  /\ (FvStore.getEdition c = Ok None
      <-> forall ed, In ed FvStore.editions -> code ed <> c).
Proof. apply getEdition_lookup_core. Qed.

(** ** Parsing, both ways *)

Lemma mapRes_Forall2_iff {A B : Type} (f : A -> Res B) (l : list A)
  (ys : list B) :
  mapRes f l = Ok ys <-> Forall2 (fun x y => f x = Ok y) l ys.
Proof.
  split; [apply mapRes_Forall2|].
  induction 1 as [|x y l ys Hx _ IH]; cbn [mapRes]; [reflexivity|].
  now rewrite Hx, IH.
Qed.

(** The traversal ends with the error of the first item that fails. *)
Lemma mapRes_first_error {A B : Type} (f : A -> Res B) (l1 l2 : list A)
  (x : A) (e : Error) :
  List.Forall (fun y => isOk (f y) = true) l1 -> f x = Err e ->
  mapRes f (l1 ++ x :: l2) = Err e.
Proof.
  intros H Hx. induction H as [|y l1 Hy _ IH]; cbn [mapRes app].
  - now rewrite Hx.
  - destruct (f y); [|discriminate]. now rewrite IH.
Qed.

Lemma parsePointer_characterization_core (url : string) (doc : Document)
  (i : nat) (p : PointerData) :
  Apparatus.parsePointer url doc i = Ok p
  <-> exists (ptrEl rdg grp : Element) (wit : string),
        doc !! i = Some ptrEl
        /\ parentElement doc ptrEl = Some rdg /\ tagName rdg = "rdg"
        /\ getNamedItem rdg "wit" = Some wit
        /\ parentElement doc rdg = Some grp /\ tagName grp = "rdgGrp"
        /\ getNamedItem grp "xml:id" = Some (groupId p)
        /\ getNamedItem ptrEl "target"
           = Some (referencedUrl p +:+ "#" +:+ referencedTarget p)
        /\ JsString.count "#" (referencedUrl p) = 0
        /\ JsString.count "#" (referencedTarget p) = 0
        /\ ptrElement p = mkHandle url (XElement i)
        /\ FvStore.getEdition (JsString.substr wit 2) = Ok (edition p)
        /\ dereferenced p = None.
Proof.
  unfold Apparatus.parsePointer. split.
  - destruct (doc !! i) as [ptrEl|] eqn:Hi; [|discriminate].
    destruct (parentElement doc ptrEl) as [rdg|] eqn:Hrdg; [|discriminate].
    destruct (String.eqb (tagName rdg) "rdg") eqn:Htag; [|discriminate].
    apply String.eqb_eq in Htag. cbn [negb].
    destruct (getNamedItem rdg "wit") as [wit|] eqn:Hwit; [|discriminate].
    cbv zeta.
    destruct (FvStore.getEdition (JsString.substr wit 2)) as [ed|] eqn:Hed;
      [|discriminate].
    destruct (parentElement doc rdg) as [grp|] eqn:Hgrp; [|discriminate].
    destruct (String.eqb (tagName grp) "rdgGrp") eqn:Hgtag; [|discriminate].
    apply String.eqb_eq in Hgtag. cbn [negb].
    destruct (getNamedItem grp "xml:id") as [g|] eqn:Hg; [|discriminate].
    destruct (getNamedItem ptrEl "target") as [target|] eqn:Ht;
      [|discriminate].
    destruct (JsString.split "#" target) as [|p0 [|p1 [|? ?]]] eqn:Hs;
      try discriminate.
    intros [= <-]. cbn.
    destruct (split_two_inv _ _ _ _ Hs) as (-> & H0 & H1).
    exists ptrEl, rdg, grp, wit. repeat split; auto.
  - intros (ptrEl & rdg & grp & wit & Hi & Hrdg & Htag & Hwit & Hgrp & Hgtag
            & Hg & Ht & H0 & H1 & Hh & Hed & Hd).
    rewrite Hi, Hrdg, Htag, Hwit. cbn [String.eqb negb]. cbv zeta.
    rewrite Hed, Hgrp, Hgtag, Hg, Ht. cbn [negb].
    rewrite (split_url_fragment _ _ H0 H1).
    destruct p; cbn in *. now subst.
Qed.

(** X1: A [<ptr>] element parses to [p] exactly when its parent is a [<rdg>]
    with a [wit] attribute, whose parent is a [<rdgGrp>] whose [xml:id]
    is the group id of [p], when its [target] holds one [#] between the
    URL and the target of [p], when the edition of [p] is what the
    lookup gives for [wit] without its first two characters, and when
    [p] holds the handle of the element and no resolved element. *)
Theorem parsePointer_characterization (url : string) (doc : Document)
  (i : nat) (p : PointerData) :
  Apparatus.parsePointer url doc i = Ok p
  <-> exists (ptrEl rdg grp : Element) (wit : string),
        doc !! i = Some ptrEl
        /\ parentElement doc ptrEl = Some rdg /\ tagName rdg = "rdg"
        /\ getNamedItem rdg "wit" = Some wit
        /\ parentElement doc rdg = Some grp /\ tagName grp = "rdgGrp"
        /\ getNamedItem grp "xml:id" = Some (groupId p)
        /\ getNamedItem ptrEl "target"
           = Some (referencedUrl p +:+ "#" +:+ referencedTarget p)
        /\ JsString.count "#" (referencedUrl p) = 0
        /\ JsString.count "#" (referencedTarget p) = 0
        /\ ptrElement p = mkHandle url (XElement i)
        /\ FvStore.getEdition (JsString.substr wit 2) = Ok (edition p)
        /\ dereferenced p = None.
Proof. apply parsePointer_characterization_core. Qed.

(** X2: An [<app>] element parses to [a] exactly when it has an [xml:id],
    which is the id of [a], when [n] is what [parseInt] makes of the
    attribute [n] if there is one, and when the pointers of [a] are the
    parses of the [<ptr>] descendants of the element, one for each and
    in document order. *)
Theorem constructor_characterization (url : string) (doc : Document)
  (element : nat) (a : Apparatus.t) :
  Apparatus.constructor url doc element = Ok a
  <-> exists el,
        doc !! element = Some el
        /\ getNamedItem el "xml:id" = Some (Apparatus.id a)
        /\ Apparatus.n a
           = match getNamedItem el "n" with
             | Some v => Some (JsString.parseInt v)
             | None => None
             end
        /\ Apparatus.element a = mkHandle url (XElement element)
        /\ Forall2 (fun i p => Apparatus.parsePointer url doc i = Ok p)
             (getDescendantsByTagName doc element "ptr")
             (Apparatus.pointers a).
Proof.
  unfold Apparatus.constructor, Apparatus.parsePointers. split.
  - destruct (doc !! element) as [el|]; [|discriminate].
    destruct (getNamedItem el "xml:id") as [v|] eqn:Hid; [|discriminate].
    destruct (mapRes _ _) as [ptrs|e] eqn:Hm; [|discriminate].
    intros [= <-]. cbn. apply mapRes_Forall2 in Hm.
    eexists. repeat split; eauto.
  - intros (el & -> & -> & Hn & He & Hp).
    apply mapRes_Forall2_iff in Hp. rewrite Hp.
    destruct a; cbn in *. now subst.
Qed.

(** X3: An [<app>] element without [xml:id] fails on that, whatever its
    pointers are; one with [xml:id] fails with the error of its first
    [<ptr>] descendant, in document order, that does not parse. *)
Theorem constructor_first_error (url : string) (doc : Document)
  (element : nat) (el : Element) :
  doc !! element = Some el ->
  (getNamedItem el "xml:id" = None ->
   Apparatus.constructor url doc element = Err AppNoXmlId)
  /\ (forall (l1 l2 : list nat) (i : nat) (e : Error),
         is_Some (getNamedItem el "xml:id") ->
         getDescendantsByTagName doc element "ptr" = l1 ++ i :: l2 ->
         List.Forall
           (fun j => isOk (Apparatus.parsePointer url doc j) = true) l1 ->
         Apparatus.parsePointer url doc i = Err e ->
         Apparatus.constructor url doc element = Err e).
Proof.
  intros Hel. unfold Apparatus.constructor, Apparatus.parsePointers.
  rewrite Hel. split.
  - now intros ->.
  - intros l1 l2 i e [v ->] -> Hl1 Hi.
    now rewrite (mapRes_first_error _ _ _ _ _ Hl1 Hi).
Qed.

(** On [plainSpine]: the first pointer parses, the second has a target
    without [#]. *)
Lemma constructor_first_error_witness :
  Apparatus.constructor Examples.spineUrl1 Examples.plainSpine 1
  = Err (TargetNotWellFormatted "doc.xml").
Proof.
  apply (constructor_first_error Examples.spineUrl1 Examples.plainSpine 1
           (Examples.elem "app" [("xml:id", "a1")] (Some 0)) eq_refl)
    with (l1 := [4]) (l2 := []) (i := 6).
  - exists "a1". reflexivity.
  - reflexivity.
  - repeat constructor.
  - reflexivity.
Defined.

(** ** The fetch phase *)

Lemma unique_In (l : list string) (x : string) :
  In x (unique l) <-> In x l.
Proof.
  induction l as [|y l IH]; cbn [unique In]; [tauto|].
  rewrite List.filter_In, IH.
  destruct (String.eqb y x) eqn:E.
  - apply String.eqb_eq in E. subst. cbn. tauto.
  - apply String.eqb_neq in E. cbn. intuition congruence.
Qed.

Lemma unique_NoDup (l : list string) : List.NoDup (unique l).
Proof.
  induction l as [|y l IH]; cbn [unique]; constructor.
  - rewrite List.filter_In. intros [_ H].
    now rewrite String.eqb_refl in H.
  - now apply List.NoDup_filter.
Qed.

Section FetchFacts.

Variable fetchXML : string -> option Document.

Lemma notLoaded_ext (w w1 : World) (urls : list string) :
  (forall u, In u urls -> cache w1 !! u = cache w !! u) ->
  notLoaded w1 urls = notLoaded w urls.
Proof.
  intros H. unfold notLoaded. apply List.filter_ext_in.
  intros u Hu. now rewrite (H u Hu).
Qed.

(** The requests of [Promise.all] over distinct URLs: one for each URL
    that is not loaded, in order; the loaded documents are kept, and
    when no request fails every URL is loaded. *)
Lemma fetchAll_spec (urls : list string) (w w' : World)
  (oe : option Error) :
  List.NoDup urls ->
  Spine.fetchAll fetchXML urls w = (w', oe) ->
  fetches w' = fetches w ++ notLoaded w urls
  /\ cacheKept w w'
  /\ mockElementCount w' = mockElementCount w
  /\ (oe = None -> forall u, In u urls -> is_Some (cache w' !! u)).
Proof.
  intros Hnd. revert w w' oe.
  induction Hnd as [|u urls Hu Hnd IH]; intros w w' oe;
    cbn [Spine.fetchAll].
  - intros [= <- <-]. unfold notLoaded. cbn. rewrite app_nil_r.
    repeat split; auto using cacheKept_refl. intros _ u [].
  - unfold FvStore.getXML at 1.
    assert (Hext : forall d2 f2 c2,
               notLoaded {| cache := <[u := d2]> (cache w); fetches := f2;
                            mockElementCount := c2 |} urls
               = notLoaded w urls).
    { intros d2 f2 c2. apply notLoaded_ext. intros v Hv. cbn.
      apply lookup_insert_ne. intros ->. now apply Hu. }
    unfold notLoaded at 1. cbn [List.filter]. fold (notLoaded w urls).
    destruct (cache w !! u) as [d|] eqn:Hc.
    + intros H. destruct (IH _ _ _ H) as (Hf & Hk & Hm & Hall).
      repeat split; auto.
      intros -> v [<-|Hv]; [|now apply Hall].
      rewrite (Hk _ _ Hc). eauto.
    + destruct (fetchXML u) as [d|].
      * intros H. destruct (IH _ _ _ H) as (Hf & Hk & Hm & Hall).
        cbn [fetches cache mockElementCount] in *.
        rewrite Hext in Hf. rewrite Hf, <- app_assoc. cbn.
        split; [reflexivity|]. split.
        { intros v dv Hv. apply Hk. cbn.
          rewrite lookup_insert_ne; [exact Hv|]. intros ->. congruence. }
        split; [exact Hm|].
        intros -> v [<-|Hv]; [|now apply Hall].
        rewrite (Hk u d); [eauto|]. cbn. apply lookup_insert_eq.
      * destruct (Spine.fetchAll fetchXML urls _) as [w2 oe2] eqn:H.
        intros [= <- <-].
        destruct (IH _ _ _ H) as (Hf & Hk & Hm & _).
        cbn [fetches cache mockElementCount fst] in *.
        assert (Hn : notLoaded {| cache := cache w; fetches := fetches w ++ [u];
                                  mockElementCount := mockElementCount w |} urls
                     = notLoaded w urls) by reflexivity.
        rewrite Hn in Hf. rewrite Hf, <- app_assoc. cbn.
        repeat split; auto. discriminate.
Qed.

Lemma In_allUrls (l : list Apparatus.t) (u : string) :
  In u (allUrls l)
  <-> exists app p, In app l /\ In p (Apparatus.pointers app)
                    /\ referencedUrl p = u.
Proof.
  unfold allUrls. rewrite List.in_concat. split.
  - intros (us & Hus & Hu). apply List.in_map_iff in Hus.
    destruct Hus as (app & <- & Ha). apply List.in_map_iff in Hu.
    destruct Hu as (p & <- & Hp). eauto.
  - intros (app & p & Ha & Hp & <-).
    exists (List.map referencedUrl (Apparatus.pointers app)).
    split; apply List.in_map_iff; eauto.
Qed.

(** X9: The fetch phase asks once for each distinct URL that the pointers
    name and that is not loaded, in the order in which the URLs first
    occur, and for nothing else; it changes neither the chunk, nor a
    loaded document, nor the counter. *)
Theorem fetchAllReferences_requests (st st' : Spine.State)
  (l : list Apparatus.t) (r : Res unit) :
  Spine._apps (Spine.this st) = Some l ->
  Spine.fetchAllReferences fetchXML st = (st', r) ->
  fetches (Spine.world st')
  = fetches (Spine.world st) ++ notLoaded (Spine.world st) (unique (allUrls l))
  /\ Spine.this st' = Spine.this st
  /\ cacheKept (Spine.world st) (Spine.world st')
  /\ mockElementCount (Spine.world st') = mockElementCount (Spine.world st).
Proof.
  intros Hl. unfold Spine.fetchAllReferences, bind, Spine.apps, Spine.liftW.
  rewrite Hl. fold (allUrls l).
  destruct (Spine.fetchAll fetchXML (unique (allUrls l)) (Spine.world st))
    as [w' oe] eqn:H.
  destruct (fetchAll_spec _ _ _ _ (unique_NoDup _) H) as (Hf & Hk & Hm & _).
  destruct oe; intros [= <- <-]; cbn; auto.
Qed.

(** X10: After a fetch phase that completes, the document of every pointer
    of every entry is loaded. *)
Theorem fetchAllReferences_loads (st st' : Spine.State)
  (l : list Apparatus.t) :
  Spine._apps (Spine.this st) = Some l ->
  Spine.fetchAllReferences fetchXML st = (st', Ok tt) ->
  forall app p, In app l -> In p (Apparatus.pointers app) ->
                is_Some (cache (Spine.world st') !! referencedUrl p).
Proof.
  intros Hl. unfold Spine.fetchAllReferences, bind, Spine.apps, Spine.liftW.
  rewrite Hl. fold (allUrls l).
  destruct (Spine.fetchAll fetchXML (unique (allUrls l)) (Spine.world st))
    as [w' oe] eqn:H.
  destruct (fetchAll_spec _ _ _ _ (unique_NoDup _) H) as (_ & _ & _ & Hall).
  destruct oe; intros [= <-]; cbn.
  intros app p Ha Hp. apply (Hall eq_refl).
  apply unique_In, In_allUrls. eauto.
Qed.

Lemma fetchAll_None_inv (urls : list string) (w w' : World) :
  Spine.fetchAll fetchXML urls w = (w', None) ->
  forall u, In u urls -> is_Some (cache w !! u) \/ is_Some (fetchXML u).
Proof.
  revert w w'. induction urls as [|v urls IH]; intros w w';
    cbn [Spine.fetchAll]; [intros _ u []|].
  unfold FvStore.getXML at 1.
  destruct (cache w !! v) as [d|] eqn:Hc.
  - intros H u [<-|Hu]; [left; rewrite Hc; eauto|]. eapply IH; eauto.
  - destruct (fetchXML v) as [d|] eqn:Hf.
    + intros H u [<-|Hu]; [right; rewrite Hf; eauto|].
      destruct (IH _ _ H u Hu) as [Hl|Hr]; [|auto].
      cbn in Hl. destruct (decide (v = u)) as [<-|Hne].
      * right. rewrite Hf. eauto.
      * rewrite lookup_insert_ne in Hl by exact Hne. auto.
    + destruct (Spine.fetchAll fetchXML urls _); discriminate.
Qed.

Lemma fetchAll_None (urls : list string) (w : World) :
  (forall u, In u urls -> is_Some (cache w !! u) \/ is_Some (fetchXML u)) ->
  snd (Spine.fetchAll fetchXML urls w) = None.
Proof.
  revert w. induction urls as [|v urls IH]; intros w H;
    cbn [Spine.fetchAll]; [reflexivity|].
  unfold FvStore.getXML at 1.
  destruct (cache w !! v) as [d|] eqn:Hc.
  - apply IH. intros u Hu. apply H. now right.
  - destruct (fetchXML v) as [d|] eqn:Hf.
    + apply IH. intros u Hu. cbn.
      destruct (decide (v = u)) as [<-|Hne].
      * left. rewrite lookup_insert_eq. eauto.
      * rewrite lookup_insert_ne by exact Hne. apply H. now right.
    + destruct (H v (or_introl eq_refl)) as [[? Hl]|[? Hr]]; congruence.
Qed.

(** X11: The fetch phase completes exactly when the document of every
    pointer of every entry is loaded or can be fetched. *)
Theorem fetchAllReferences_completes (st : Spine.State)
  (l : list Apparatus.t) :
  Spine._apps (Spine.this st) = Some l ->
  snd (Spine.fetchAllReferences fetchXML st) = Ok tt
  <-> forall app p, In app l -> In p (Apparatus.pointers app) ->
                    is_Some (cache (Spine.world st) !! referencedUrl p)
                    \/ is_Some (fetchXML (referencedUrl p)).
Proof.
  intros Hl. unfold Spine.fetchAllReferences, bind, Spine.apps, Spine.liftW.
  rewrite Hl. fold (allUrls l).
  destruct (Spine.fetchAll fetchXML (unique (allUrls l)) (Spine.world st))
    as [w' oe] eqn:H.
  split.
  - destruct oe; [discriminate|]. intros _ app p Ha Hp.
    apply (fetchAll_None_inv _ _ _ H).
    apply unique_In, In_allUrls. eauto.
  - intros Hall.
    assert (Hn : snd (Spine.fetchAll fetchXML (unique (allUrls l))
                        (Spine.world st)) = None).
    { apply fetchAll_None. intros u Hu.
      apply unique_In, In_allUrls in Hu.
      destruct Hu as (app & p & Ha & Hp & <-). eauto. }
    rewrite H in Hn. cbn in Hn. now subst oe.
Qed.

End FetchFacts.

(** ** The dereference phase, when it completes *)

Section DereferenceFurther.

Variable xpathEval : Document -> string -> list XNode.
Variable fetchXML : string -> option Document.

Lemma resolvedIn_kept (w w' : World) (p : PointerData) :
  cacheKept w w' -> resolvedIn xpathEval w p -> resolvedIn xpathEval w' p.
Proof.
  intros Hk (d & x & Hd & Hx & Hp). exists d, x. auto.
Qed.

Lemma dereferencePointer_resolved (p p' : PointerData) (w w' : World) :
  Spine.dereferencePointer xpathEval fetchXML p w = (w', Ok p') ->
  resolvedIn xpathEval w' p'.
Proof.
  unfold Spine.dereferencePointer, bind.
  destruct (FvStore.getXML fetchXML (referencedUrl p) w) as [w1 [d|e]] eqn:Hg;
    [|discriminate].
  destruct (getXML_frame _ _ _ _ _ Hg) as (_ & _ & Hd).
  unfold findElementByXmlId.
  destruct (evaluateXPath xpathEval d (xmlIdXPath (referencedTarget p)))
    as [|x [|? ?]] eqn:Hx; try discriminate.
  intros [= <- <-]. exists d, x. cbn. auto.
Qed.

Lemma dereference_loop_resolved (l l' : list PointerData) (w w' : World) :
  forEach (inPlace (Spine.dereferencePointer xpathEval fetchXML)) l w
  = (w', (l', None)) ->
  List.Forall (resolvedIn xpathEval w') l'.
Proof.
  revert l' w. induction l as [|p l IH]; cbn [forEach]; intros l' w H.
  - injection H as <- <-. constructor.
  - unfold inPlace at 1 in H.
    destruct (Spine.dereferencePointer xpathEval fetchXML p w)
      as [w1 [p1|e]] eqn:Hp; [|discriminate].
    destruct (forEach _ l w1) as [w2 [l2 oe]] eqn:Hl.
    injection H as <- <- ->.
    destruct (dereference_loop_frame _ _ _ _ _ _ _ Hl) as (Hk & _).
    constructor; [|eauto].
    eapply resolvedIn_kept; [exact Hk|].
    eapply dereferencePointer_resolved; eauto.
Qed.

Lemma dereference_apps_resolvedIn (l l' : list Apparatus.t) (w w' : World) :
  forEach (Spine.dereferenceApp xpathEval fetchXML) l w = (w', (l', None)) ->
  List.Forall
    (fun app => List.Forall (resolvedIn xpathEval w') (Apparatus.pointers app))
    l'.
Proof.
  revert l' w. induction l as [|a l IH]; cbn [forEach]; intros l' w H.
  - injection H as <- <-. constructor.
  - destruct (Spine.dereferenceApp xpathEval fetchXML a w)
      as [w1 [a' [e|]]] eqn:Ha; [discriminate|].
    destruct (forEach _ l w1) as [w2 [l2 oe]] eqn:Hl.
    injection H as <- <- ->.
    destruct (dereference_apps_frame _ _ _ _ _ _ _ Hl) as (Hk & _).
    constructor; [|eauto].
    unfold Spine.dereferenceApp in Ha.
    destruct (forEach _ (Apparatus.pointers a) w) as [w3 [ptrs oe]] eqn:Hp.
    injection Ha as <- <- ->. cbn.
    apply dereference_loop_resolved in Hp.
    eapply List.Forall_impl; [|exact Hp].
    intros p. now apply resolvedIn_kept.
Qed.

(** X16: After a dereference phase that completes, every pointer holds the
    one node that the lookup of its target as an id selects in its
    loaded document; the pointers are otherwise as they were, and the
    loaded documents are unchanged. *)
Theorem dereferencePointers_resolves (st st' : Spine.State) :
  Spine.dereferencePointers xpathEval fetchXML st = (st', Ok tt) ->
  exists l l',
    Spine._apps (Spine.this st) = Some l
    /\ Spine._apps (Spine.this st') = Some l'
    /\ pointersOf l' = pointersOf l
    /\ cacheKept (Spine.world st) (Spine.world st')
    /\ List.Forall
         (fun app =>
            List.Forall (resolvedIn xpathEval (Spine.world st'))
              (Apparatus.pointers app)) l'.
Proof.
  unfold Spine.dereferencePointers, Spine.forApps.
  destruct (Spine._apps (Spine.this st)) as [l|]; [|discriminate].
  destruct (forEach _ l (Spine.world st)) as [w' [l' [e|]]] eqn:H;
    [discriminate|].
  intros [= <-]. exists l, l'. cbn.
  destruct (dereference_apps_frame _ _ _ _ _ _ _ H) as (Hk & Hp).
  repeat split; auto.
  eapply dereference_apps_resolvedIn; eauto.
Qed.

End DereferenceFurther.

(** ** The back-reference phase, further *)

Lemma sameButAttribute_refl (n : string) (e : Element) :
  sameButAttribute n e e.
Proof. repeat split. Qed.

Lemma sameButAttribute_trans (n : string) (e1 e2 e3 : Element) :
  sameButAttribute n e1 e2 -> sameButAttribute n e2 e3 ->
  sameButAttribute n e1 e3.
Proof.
  intros (Ht & Hp & Ha) (Ht' & Hp' & Ha').
  repeat split; try congruence.
  intros n' Hn. now rewrite Ha', Ha.
Qed.

Lemma setAttributeAt_frame (h : Handle) (n v : string) (w w' : World)
  (r : Res unit) :
  setAttributeAt h n v w = (w', r) ->
  mockElementCount w' = mockElementCount w
  /\ fetches w' = fetches w
  /\ forall h' e, elementAt w h' = Some e ->
                  exists e', elementAt w' h' = Some e'
                             /\ sameButAttribute n e e'.
Proof.
  destruct r as [[]|err]; intros H.
  - destruct (setAttributeAt_Ok _ _ _ _ _ H)
      as ((e0 & He0 & He0') & Hother & Hc & Hf).
    repeat split; auto. intros h' e He.
    destruct (decide (h' = h)) as [->|Hne].
    + rewrite He0 in He. injection He as <-.
      eexists. split; [exact He0'|].
      repeat split. intros n' Hn. now apply getNamedItem_setAttribute_ne.
    + rewrite (Hother _ Hne). eauto using sameButAttribute_refl.
  - apply setAttributeAt_Err in H. subst.
    repeat split; eauto using sameButAttribute_refl.
Qed.

Lemma applyClaims_frame_all (cl : list (Handle * string)) (w w' : World)
  (oe : option Error) :
  applyClaims cl w = (w', oe) ->
  mockElementCount w' = mockElementCount w
  /\ fetches w' = fetches w
  /\ forall h e, elementAt w h = Some e ->
                 exists e', elementAt w' h = Some e'
                            /\ sameButAttribute "app-ref" e e'.
Proof.
  revert w. induction cl as [|[h v] cl IH]; intros w; cbn [applyClaims].
  - intros [= <- <-]. repeat split; eauto using sameButAttribute_refl.
  - destruct (setAttributeAt h "app-ref" v w) as [w1 r] eqn:Hs.
    destruct (setAttributeAt_frame _ _ _ _ _ _ Hs) as (Hc & Hf & He).
    destruct r as [[]|err].
    + intros H. destruct (IH _ H) as (Hc' & Hf' & He').
      repeat split; try congruence.
      intros h' e Hh. destruct (He _ _ Hh) as (e1 & H1 & S1).
      destruct (He' _ _ H1) as (e2 & H2 & S2).
      eauto using sameButAttribute_trans.
    + intros [= <- <-]. auto.
Qed.

(** X17: Whatever its result, the back-reference phase leaves the chunk
    object, the counter and the requests as they were, and every
    element of every loaded document in its place with its name, its
    parent and all its attributes but the back-reference. *)
Theorem addBackPointers_writes_only_back_references
  (st st' : Spine.State) (r : Res unit) :
  Spine.addBackPointers st = (st', r) ->
  Spine.this st' = Spine.this st
  /\ mockElementCount (Spine.world st') = mockElementCount (Spine.world st)
  /\ fetches (Spine.world st') = fetches (Spine.world st)
  /\ forall h e, elementAt (Spine.world st) h = Some e ->
                 exists e', elementAt (Spine.world st') h = Some e'
                            /\ sameButAttribute "app-ref" e e'.
Proof.
  unfold Spine.addBackPointers, Spine.forApps.
  destruct (Spine._apps (Spine.this st)) as [l|] eqn:Hl.
  - rewrite addBackPointersApp_loop.
    destruct (applyClaims (claimsOf l) (Spine.world st)) as [w' oe] eqn:H.
    destruct (applyClaims_frame_all _ _ _ _ H) as (Hc & Hf & He).
    assert (Hthis : Spine.this (Spine.set_world w' (Spine.set_apps l st))
                    = Spine.this st).
    { destruct st as [[c a x i] w]. cbn in *. now subst. }
    cbn [fst snd]. destruct oe; intros [= <- <-]; auto.
  - intros [= <- <-].
    repeat split; eauto using sameButAttribute_refl.
Qed.

(** ** Parsing the entries of a chunk *)

Lemma parseApps_all_or_nothing_core (st st' : Spine.State) (r : Res unit) :
  Spine.parseApps st = (st', r) ->
  Spine.world st' = Spine.world st
  /\ match r with
     | Err _ => st' = st
     | Ok _ =>
         exists u doc apps,
           Spine._xml (Spine.this st) = Some u
           /\ cache (Spine.world st) !! u = Some doc
           /\ st' = Spine.set_apps apps st
           /\ Forall2 (fun i a => Apparatus.constructor u doc i = Ok a)
                (getElementsByTagName doc "app") apps
     end.
Proof.
  unfold Spine.parseApps.
  destruct (Spine._xml (Spine.this st)) as [u|] eqn:Hu;
    [|now intros [= <- <-]].
  destruct (cache (Spine.world st) !! u) as [doc|] eqn:Hd;
    [|now intros [= <- <-]].
  destruct (mapRes _ _) as [apps|e] eqn:Hm; intros [= <- <-];
    (split; [reflexivity|]); [|reflexivity].
  apply mapRes_Forall2 in Hm. exists u, doc, apps. auto.
Qed.

(** X8: [parseApps] never changes the documents; when it fails the chunk
    is as it was, without a list of entries it did not have; when it
    completes the chunk holds one entry for each [<app>] element of
    the spine document, in document order, and nothing else of the
    chunk has changed. *)
Theorem parseApps_all_or_nothing (st st' : Spine.State) (r : Res unit) :
  Spine.parseApps st = (st', r) ->
  Spine.world st' = Spine.world st
  /\ match r with
     | Err _ => st' = st
     | Ok _ =>
         exists u doc apps,
           Spine._xml (Spine.this st) = Some u
           /\ cache (Spine.world st) !! u = Some doc
           /\ st' = Spine.set_apps apps st
           /\ Forall2 (fun i a => Apparatus.constructor u doc i = Ok a)
                (getElementsByTagName doc "app") apps
     end.
Proof. apply parseApps_all_or_nothing_core. Qed.


(** ** Relations that every step of the pipeline preserves *)

Section Preserved.

Variable xpathEval : Document -> string -> list XNode.
Variable fetchXML : string -> option Document.

(** A reflexive and transitive relation between states that a document
    lookup, a write of an attribute and an advance of the counter
    preserve. *)
Variable R : World -> World -> Prop.
Hypothesis R_refl : forall w, R w w.
Hypothesis R_trans : forall w1 w2 w3, R w1 w2 -> R w2 w3 -> R w1 w3.
Hypothesis R_getXML :
  forall u w w' r, FvStore.getXML fetchXML u w = (w', r) -> R w w'.
Hypothesis R_setAttributeAt :
  forall h n v w w' r, setAttributeAt h n v w = (w', r) -> R w w'.
Hypothesis R_counter :
  forall w, R w {| cache := cache w; fetches := fetches w;
                   mockElementCount := mockElementCount w + 1 |}.

Let preserves {A : Type} (m : M World A) : Prop :=
  forall w w' r, m w = (w', r) -> R w w'.

Let preservesS {A : Type} (m : M Spine.State A) : Prop :=
  forall st st' r, m st = (st', r) -> R (Spine.world st) (Spine.world st').

Lemma preserves_bind {A B : Type} (m : M World A) (k : A -> M World B) :
  preserves m -> (forall a, preserves (k a)) -> preserves (bind m k).
Proof.
  intros Hm Hk w w' r. unfold bind.
  destruct (m w) as [w1 [a|e]] eqn:H1.
  - intros H2. eapply R_trans; [eapply Hm|eapply Hk]; eauto.
  - intros [= <- <-]. eapply Hm; eauto.
Qed.

Lemma preserves_ret {A : Type} (a : A) : preserves (ret a).
Proof. intros w w' r [= <- <-]. apply R_refl. Qed.

Lemma preserves_throw {A : Type} (e : Error) : preserves (@throw World A e).
Proof. intros w w' r [= <- <-]. apply R_refl. Qed.

Lemma preserves_getNamedItemAt (h : Handle) (n : string) :
  preserves (getNamedItemAt h n).
Proof.
  intros w w' r H. apply getNamedItemAt_inv in H. subst. apply R_refl.
Qed.

Lemma rewriteStringRange_preserves (ptr : PointerData)
  (range : StringRange.t) :
  preserves (Spine.rewriteStringRange xpathEval fetchXML ptr range).
Proof.
  unfold Spine.rewriteStringRange.
  apply preserves_bind; [intros w w' r; apply R_getXML|]. intros d.
  destruct (evaluateXPath _ _ _) as [|x [|? ?]];
    [apply preserves_throw| |apply preserves_throw].
  apply preserves_bind; [apply preserves_getNamedItemAt|]. intros idAttr.
  apply preserves_bind.
  - destruct idAttr as [v|]; [apply preserves_ret|].
    intros w w' r H.
    assert (Hm : preserves
                   (bind (setAttributeAt (mkHandle (referencedUrl ptr) x)
                            "xml:id"
                            ("mock-id-" +:+ pretty (mockElementCount w)))
                      (fun _ => ret
                         ("mock-id-" +:+ pretty (mockElementCount w))))).
    { apply preserves_bind; [intros ? ? ?; apply R_setAttributeAt|].
      intros _. apply preserves_ret. }
    apply Hm in H. eapply R_trans; [apply R_counter|exact H].
  - intros xmlId.
    apply preserves_bind; [intros ? ? ?; apply R_setAttributeAt|].
    intros _. apply preserves_ret.
Qed.

Lemma rewritePointer_preserves (p : PointerData) (w w' : World)
  (x : PointerData * bool) :
  Spine.rewritePointer xpathEval fetchXML p w = (w', x) -> R w w'.
Proof.
  unfold Spine.rewritePointer.
  destruct (StringRange.ofTarget (referencedTarget p)) as [range|].
  - destruct (Spine.rewriteStringRange xpathEval fetchXML p range w)
      as [w1 [p1|e]] eqn:Hr; intros [= <- <-];
      eapply rewriteStringRange_preserves; eauto.
  - intros [= <- <-]. apply R_refl.
Qed.

Lemma rewritePointers_preserves (ptrs : list PointerData) (w w' : World)
  (marked : list (PointerData * bool)) :
  Spine.rewritePointers xpathEval fetchXML ptrs w = (w', marked) -> R w w'.
Proof.
  revert w w' marked. induction ptrs as [|p ptrs IH]; intros w w' marked;
    cbn [Spine.rewritePointers].
  - intros [= <- <-]. apply R_refl.
  - destruct (Spine.rewritePointer xpathEval fetchXML p w) as [w1 x] eqn:Hp.
    destruct (Spine.rewritePointers xpathEval fetchXML ptrs w1)
      as [w2 m] eqn:Hr.
    intros [= <- <-].
    eapply R_trans; [eapply rewritePointer_preserves|eapply IH]; eauto.
Qed.

Lemma forEach_preserves {A : Type}
  (body : A -> World -> World * (A * option Error)) :
  (forall x w w' y, body x w = (w', y) -> R w w') ->
  forall l w w' y, forEach body l w = (w', y) -> R w w'.
Proof.
  intros Hb. induction l as [|x l IH]; intros w w' y; cbn [forEach].
  - intros [= <- <-]. apply R_refl.
  - destruct (body x w) as [w1 [x' [e|]]] eqn:Hx.
    + intros [= <- <-]. eapply Hb; eauto.
    + destruct (forEach body l w1) as [w2 [l' oe]] eqn:Hl.
      intros [= <- <-]. eapply R_trans; [eapply Hb|eapply IH]; eauto.
Qed.

Lemma inPlace_preserves {A : Type} (step : A -> M World A) :
  (forall x, preserves (step x)) ->
  forall x w w' y, inPlace step x w = (w', y) -> R w w'.
Proof.
  intros Hs x w w' y. unfold inPlace.
  destruct (step x w) as [w1 [x'|e]] eqn:H; intros [= <- <-];
    eapply Hs; eauto.
Qed.

Lemma rewriteApp_preserves (app : Apparatus.t) (w w' : World)
  (y : Apparatus.t * option Error) :
  Spine.rewriteApp xpathEval fetchXML app w = (w', y) -> R w w'.
Proof.
  unfold Spine.rewriteApp.
  destruct (Spine.rewritePointers _ _ _ w) as [w1 m] eqn:H.
  intros [= <- <-]. eapply rewritePointers_preserves; eauto.
Qed.

Lemma dereferencePointer_preserves (p : PointerData) :
  preserves (Spine.dereferencePointer xpathEval fetchXML p).
Proof.
  unfold Spine.dereferencePointer.
  apply preserves_bind; [intros w w' r; apply R_getXML|]. intros d.
  destruct (findElementByXmlId _ _ _);
    [apply preserves_ret|apply preserves_throw].
Qed.

Lemma dereferenceApp_preserves (app : Apparatus.t) (w w' : World)
  (y : Apparatus.t * option Error) :
  Spine.dereferenceApp xpathEval fetchXML app w = (w', y) -> R w w'.
Proof.
  unfold Spine.dereferenceApp.
  destruct (forEach _ _ w) as [w1 [ptrs oe]] eqn:H.
  intros [= <- <-]. revert H. apply forEach_preserves.
  apply inPlace_preserves, dereferencePointer_preserves.
Qed.

Lemma addBackPointersApp_preserves (app : Apparatus.t) (w w' : World)
  (y : Apparatus.t * option Error) :
  Spine.addBackPointersApp app w = (w', y) -> R w w'.
Proof.
  unfold Spine.addBackPointersApp.
  destruct (forEach _ _ w) as [w1 [ptrs oe]] eqn:H.
  intros [= <- <-]. revert H. apply forEach_preserves.
  apply inPlace_preserves. intros p. unfold Spine.addBackPointer.
  destruct (dereferenced p); [|apply preserves_ret].
  apply preserves_bind; [intros ? ? ?; apply R_setAttributeAt|].
  intros _. apply preserves_ret.
Qed.

Lemma fetchAll_preserves (urls : list string) (w w' : World)
  (oe : option Error) :
  Spine.fetchAll fetchXML urls w = (w', oe) -> R w w'.
Proof.
  revert w w' oe. induction urls as [|u urls IH]; intros w w' oe;
    cbn [Spine.fetchAll].
  - intros [= <- <-]. apply R_refl.
  - destruct (FvStore.getXML fetchXML u w) as [w1 [d|e]] eqn:Hg.
    + intros H. eapply R_trans; [eapply R_getXML|eapply IH]; eauto.
    + destruct (Spine.fetchAll fetchXML urls w1) as [w2 oe2] eqn:H.
      intros [= <- <-]. eapply R_trans; [eapply R_getXML|eapply IH]; eauto.
Qed.

Lemma preservesS_bind {A B : Type} (m : M Spine.State A)
  (k : A -> M Spine.State B) :
  preservesS m -> (forall a, preservesS (k a)) -> preservesS (bind m k).
Proof.
  intros Hm Hk st st' r. unfold bind.
  destruct (m st) as [s1 [a|e]] eqn:H1.
  - intros H2. eapply R_trans; [eapply Hm|eapply Hk]; eauto.
  - intros [= <- <-]. eapply Hm; eauto.
Qed.

Lemma preservesS_liftW {A : Type} (m : M World A) :
  preserves m -> preservesS (Spine.liftW m).
Proof.
  intros Hm st st' r. unfold Spine.liftW.
  destruct (m (Spine.world st)) as [w' r'] eqn:H.
  intros [= <- <-]. cbn. eapply Hm; eauto.
Qed.

Lemma preservesS_forApps
  (body : Apparatus.t -> World -> World * (Apparatus.t * option Error)) :
  (forall x w w' y, body x w = (w', y) -> R w w') ->
  preservesS (Spine.forApps body).
Proof.
  intros Hb st st' r. unfold Spine.forApps.
  destruct (Spine._apps (Spine.this st)) as [l|];
    [|intros [= <- <-]; apply R_refl].
  destruct (forEach body l (Spine.world st)) as [w' [l' oe]] eqn:H.
  pose proof (forEach_preserves _ Hb _ _ _ _ H) as HR.
  destruct oe; intros [= <- <-]; exact HR.
Qed.

(** The phases that follow the load of the spine document preserve the
    relation. *)
Lemma afterGetXML_preserves (u : string) :
  preservesS
    (bind (fun s => (Spine.set_xml u s, Ok tt))
       (fun _ =>
          bind Spine.parseApps
            (fun _ =>
               bind (Spine.fetchAllReferences fetchXML)
                 (fun _ =>
                    bind (Spine.rewriteStringRanges xpathEval fetchXML)
                      (fun _ =>
                         bind (Spine.dereferencePointers xpathEval fetchXML)
                           (fun _ =>
                              bind Spine.addBackPointers
                                (fun _ s =>
                                   (Spine.set_initialized s, Ok tt)))))))).
Proof.
  apply preservesS_bind.
  { intros st st' r [= <- <-]. apply R_refl. }
  intros _. apply preservesS_bind.
  { intros st st' r H.
    destruct (parseApps_all_or_nothing_core _ _ _ H) as [-> _].
    apply R_refl. }
  intros _. apply preservesS_bind.
  { unfold Spine.fetchAllReferences. apply preservesS_bind.
    - intros st st' r. unfold Spine.apps.
      destruct (Spine._apps (Spine.this st)); intros [= <- <-]; apply R_refl.
    - intros l. apply preservesS_liftW. intros w w' r.
      destruct (Spine.fetchAll fetchXML _ w) as [w1 oe] eqn:H.
      pose proof (fetchAll_preserves _ _ _ _ H) as HR.
      destruct oe; intros [= <- <-]; exact HR. }
  intros _. apply preservesS_bind.
  { apply preservesS_forApps. apply rewriteApp_preserves. }
  intros _. apply preservesS_bind.
  { apply preservesS_forApps. apply dereferenceApp_preserves. }
  intros _. apply preservesS_bind.
  { apply preservesS_forApps. apply addBackPointersApp_preserves. }
  intros _ st st' r [= <- <-]. apply R_refl.
Qed.

(** Every call of [initialize] preserves the relation. *)
Lemma initialize_preserves :
  preservesS (Spine.initialize xpathEval fetchXML).
Proof.
  intros st st' r. unfold Spine.initialize.
  destruct (Spine._initialized (Spine.this st));
    [intros [= <- <-]; apply R_refl|].
  revert st st' r.
  apply preservesS_bind; [|apply afterGetXML_preserves].
  unfold Spine.getXML. intros st st' r.
  apply preservesS_liftW.
  apply preserves_bind; [intros ? ? ?; apply R_getXML|].
  intros _. apply preserves_ret.
Qed.

End Preserved.

(** Loaded documents stay loaded through a lookup, a write and an
    advance of the counter. *)
Lemma loaded_refl (w : World) (u : string) :
  is_Some (cache w !! u) -> is_Some (cache w !! u).
Proof. auto. Qed.

Lemma loaded_trans (w1 w2 w3 : World) :
  (forall u, is_Some (cache w1 !! u) -> is_Some (cache w2 !! u)) ->
  (forall u, is_Some (cache w2 !! u) -> is_Some (cache w3 !! u)) ->
  forall u, is_Some (cache w1 !! u) -> is_Some (cache w3 !! u).
Proof. auto. Qed.

Lemma loaded_getXML (fetchXML : string -> option Document) (u : string)
  (w w' : World) (r : Res Document) :
  FvStore.getXML fetchXML u w = (w', r) ->
  forall v, is_Some (cache w !! v) -> is_Some (cache w' !! v).
Proof.
  intros Hg v [d Hv].
  destruct (getXML_frame _ _ _ _ _ Hg) as (_ & Hk & _).
  rewrite (Hk _ _ Hv). eauto.
Qed.

Lemma loaded_setAttributeAt (h : Handle) (n v : string) (w w' : World)
  (r : Res unit) :
  setAttributeAt h n v w = (w', r) ->
  forall u, is_Some (cache w !! u) -> is_Some (cache w' !! u).
Proof.
  unfold setAttributeAt.
  destruct (node h) as [i|]; [|intros [= <- <-]; auto].
  destruct (elementAt w h); intros [= <- <-]; [|auto].
  cbn. intros u Hu. now apply lookup_alter_is_Some.
Qed.

Lemma loaded_counter (w : World) (u : string) :
  is_Some (cache w !! u) ->
  is_Some (cache {| cache := cache w; fetches := fetches w;
                    mockElementCount := mockElementCount w + 1 |} !! u).
Proof. auto. Qed.

(** X20: Whatever its result, [initialize] never lowers the counter of
    synthesized ids, never drops a request from those issued, and never
    unloads a document. *)
Theorem initialize_only_grows
  (xpathEval : Document -> string -> list XNode)
  (fetchXML : string -> option Document)
  (st st' : Spine.State) (r : Res unit) :
  Spine.initialize xpathEval fetchXML st = (st', r) ->
  mockElementCount (Spine.world st) <= mockElementCount (Spine.world st')
  /\ (exists issued,
         fetches (Spine.world st') = fetches (Spine.world st) ++ issued)
  /\ (forall u, is_Some (cache (Spine.world st) !! u) ->
                is_Some (cache (Spine.world st') !! u)).
Proof.
  intros H. split; [|split].
  - revert H.
    apply (initialize_preserves xpathEval fetchXML
             (fun w w' => mockElementCount w <= mockElementCount w')).
    + intros w. lia.
    + intros w1 w2 w3 H1 H2. lia.
    + intros u w w' r0 Hg.
      destruct (getXML_frame _ _ _ _ _ Hg) as (Hc & _). lia.
    + intros h n v w w' r0 Hs.
      destruct (setAttributeAt_frame _ _ _ _ _ _ Hs) as (Hc & _). lia.
    + intros w. cbn. lia.
  - revert H.
    apply (initialize_preserves xpathEval fetchXML
             (fun w w' => exists issued, fetches w' = fetches w ++ issued)).
    + intros w. exists []. now rewrite app_nil_r.
    + intros w1 w2 w3 (i1 & H1) (i2 & H2). exists (i1 ++ i2).
      now rewrite H2, H1, <- app_assoc.
    + intros u w w' r0. unfold FvStore.getXML.
      destruct (cache w !! u); [|destruct (fetchXML u)];
        intros [= <- <-]; cbn; eauto.
      exists []. now rewrite app_nil_r.
    + intros h n v w w' r0 Hs.
      destruct (setAttributeAt_frame _ _ _ _ _ _ Hs) as (_ & Hf & _).
      exists []. now rewrite app_nil_r.
    + intros w. exists []. cbn. now rewrite app_nil_r.
  - revert H.
    apply (initialize_preserves xpathEval fetchXML
             (fun w w' => forall u, is_Some (cache w !! u) ->
                                    is_Some (cache w' !! u))
             loaded_refl loaded_trans (loaded_getXML fetchXML)
             loaded_setAttributeAt loaded_counter).
Qed.

(** ** The range-rewrite phase, further *)

Lemma elementAt_counter (w : World) (h : Handle) (n : nat) :
  elementAt {| cache := cache w; fetches := fetches w;
               mockElementCount := n |} h
  = elementAt w h.
Proof. reflexivity. Qed.

Section RewriteFurther.

Variable xpathEval : Document -> string -> list XNode.
Variable fetchXML : string -> option Document.

Lemma rewriteStringRange_id_core (ptr ptr' : PointerData)
  (range : StringRange.t) (w w' : World) :
  Spine.rewriteStringRange xpathEval fetchXML ptr range w = (w', Ok ptr') ->
  exists d w1 x e0,
    FvStore.getXML fetchXML (referencedUrl ptr) w = (w1, Ok d)
    /\ evaluateXPath xpathEval d
         (JsString.removeAll "tei:" (StringRange.xpath range)) = [x]
    /\ elementAt w1 (mkHandle (referencedUrl ptr) x) = Some e0
    /\ match getNamedItem e0 "xml:id" with
       | Some v =>
           referencedTarget ptr' = v
           /\ mockElementCount w' = mockElementCount w
       | None =>
           referencedTarget ptr' = mockId (mockElementCount w)
           /\ mockElementCount w' = mockElementCount w + 1
       end
    /\ ptr' = Spine.set_referencedTarget ptr (referencedTarget ptr')
    /\ fetches w' = fetches w1.
Proof.
  unfold Spine.rewriteStringRange. intros H.
  apply bind_Ok_inv in H. destruct H as (d & w1 & Hg & H).
  destruct (evaluateXPath _ _ _) as [|x [|? ?]] eqn:Hx; try discriminate.
  apply bind_Ok_inv in H. destruct H as (idAttr & w2 & Hget & H).
  apply bind_Ok_inv in H. destruct H as (xmlId & w3 & Hid & H).
  apply bind_Ok_inv in H. destruct H as ([] & w4 & Hset & H).
  injection H as <- <-.
  destruct (getXML_frame _ _ _ _ _ Hg) as (Hc1 & _ & _).
  destruct (setAttributeAt_Ok _ _ _ _ _ Hset) as (_ & _ & Hc4 & Hf4).
  unfold getNamedItemAt in Hget.
  destruct (elementAt w1 (mkHandle (referencedUrl ptr) x)) as [e0|] eqn:He0;
    [|discriminate].
  injection Hget as <- <-.
  exists d, w1, x, e0.
  split; [exact Hg|]. split; [exact Hx|]. split; [exact He0|].
  destruct (getNamedItem e0 "xml:id") as [v|].
  - injection Hid as <- <-.
    split; [split; [reflexivity|congruence]|]. split; [reflexivity|exact Hf4].
  - apply bind_Ok_inv in Hid. destruct Hid as ([] & w3' & Hs & Hr).
    injection Hr as <- <-.
    destruct (setAttributeAt_Ok _ _ _ _ _ Hs) as (_ & _ & Hc3 & Hf3).
    cbn [mockElementCount fetches] in Hc3, Hf3.
    unfold mockId. cbn [referencedTarget Spine.set_referencedTarget].
    rewrite Hc1.
    split; [split; [reflexivity|congruence]|].
    split; [reflexivity|congruence].
Qed.

(** X12: A range rewrite that succeeds reuses the [xml:id] of the selected
    element when it has one, leaving the counter as it is; otherwise it
    names the element by the counter, which it advances by one.  In
    both cases nothing of the pointer changes but [referencedTarget]. *)
Theorem rewriteStringRange_id (ptr ptr' : PointerData)
  (range : StringRange.t) (w w' : World) :
  Spine.rewriteStringRange xpathEval fetchXML ptr range w = (w', Ok ptr') ->
  exists d w1 x e0,
    FvStore.getXML fetchXML (referencedUrl ptr) w = (w1, Ok d)
    /\ evaluateXPath xpathEval d
         (JsString.removeAll "tei:" (StringRange.xpath range)) = [x]
    /\ elementAt w1 (mkHandle (referencedUrl ptr) x) = Some e0
    /\ match getNamedItem e0 "xml:id" with
       | Some v =>
           referencedTarget ptr' = v
           /\ mockElementCount w' = mockElementCount w
       | None =>
           referencedTarget ptr' = mockId (mockElementCount w)
           /\ mockElementCount w' = mockElementCount w + 1
       end
    /\ ptr' = Spine.set_referencedTarget ptr (referencedTarget ptr')
    /\ fetches w' = fetches w1.
Proof. apply rewriteStringRange_id_core. Qed.

Lemma rewriteStringRange_counter (ptr : PointerData)
  (range : StringRange.t) (w w' : World) (r : Res PointerData) :
  Spine.rewriteStringRange xpathEval fetchXML ptr range w = (w', r) ->
  mockElementCount w <= mockElementCount w'.
Proof.
  apply (rewriteStringRange_preserves xpathEval fetchXML
           (fun w w' => mockElementCount w <= mockElementCount w')).
  - intros w0. lia.
  - intros w1 w2 w3 H1 H2. lia.
  - intros u w0 w1 r0 Hg.
    destruct (getXML_frame _ _ _ _ _ Hg) as (Hc & _). lia.
  - intros h n v w0 w1 r0 Hs.
    destruct (setAttributeAt_frame _ _ _ _ _ _ Hs) as (Hc & _). lia.
  - intros w0. cbn. lia.
Qed.

(** The step of the loop changes at most the pointer's
    [referencedTarget], and never lowers the counter. *)
Lemma rewritePointer_frame (p p' : PointerData) (w w' : World) (b : bool) :
  Spine.rewritePointer xpathEval fetchXML p w = (w', (p', b)) ->
  forgetTarget p' = forgetTarget p
  /\ mockElementCount w <= mockElementCount w'.
Proof.
  unfold Spine.rewritePointer.
  destruct (StringRange.ofTarget (referencedTarget p)) as [range|].
  - destruct (Spine.rewriteStringRange xpathEval fetchXML p range w)
      as [w1 [p1|e]] eqn:Hr; intros [= <- <- <-];
      pose proof (rewriteStringRange_counter _ _ _ _ _ Hr) as Hc;
      (split; [|exact Hc]); [|reflexivity].
    destruct (rewriteStringRange_id_core _ _ _ _ _ Hr)
      as (d & w0 & x & e0 & _ & _ & _ & _ & -> & _).
    reflexivity.
  - intros [= <- <- <-]. split; [reflexivity|lia].
Qed.

Lemma rewritePointers_frame (ptrs : list PointerData) (w w' : World)
  (marked : list (PointerData * bool)) :
  Spine.rewritePointers xpathEval fetchXML ptrs w = (w', marked) ->
  List.map forgetTarget (List.map fst marked) = List.map forgetTarget ptrs
  /\ mockElementCount w <= mockElementCount w'.
Proof.
  revert w w' marked. induction ptrs as [|p ptrs IH]; intros w w' marked;
    cbn [Spine.rewritePointers].
  - intros [= <- <-]. split; [reflexivity|lia].
  - destruct (Spine.rewritePointer xpathEval fetchXML p w)
      as [w1 [p' b]] eqn:Hp.
    destruct (Spine.rewritePointers xpathEval fetchXML ptrs w1)
      as [w2 m] eqn:Hr.
    intros [= <- <-].
    destruct (rewritePointer_frame _ _ _ _ _ Hp) as [Hf Hc].
    destruct (IH _ _ _ Hr) as [Hm Hc2].
    cbn. rewrite Hf, Hm. split; [reflexivity|lia].
Qed.

Lemma validPointers_sublist (marked : list (PointerData * bool)) :
  sublist (Spine.validPointers marked) (List.map fst marked).
Proof.
  unfold Spine.validPointers.
  induction marked as [|[p b] m IH]; cbn; [constructor|].
  destruct b; cbn; now constructor.
Qed.

Lemma sublist_map {A B : Type} (f : A -> B) (l1 l2 : list A) :
  sublist l1 l2 -> sublist (List.map f l1) (List.map f l2).
Proof. induction 1; cbn; now constructor. Qed.

(** X13: The loop over an entry removes pointers but adds none, keeps the
    order of those it leaves, changes nothing of them but
    [referencedTarget], keeps the entry's id, ordinal and element, and
    never lowers the counter. *)
Theorem rewriteApp_keeps_pointers (app app' : Apparatus.t) (w w' : World)
  (oe : option Error) :
  Spine.rewriteApp xpathEval fetchXML app w = (w', (app', oe)) ->
  oe = None
  /\ Apparatus.id app' = Apparatus.id app
  /\ Apparatus.n app' = Apparatus.n app
  /\ Apparatus.element app' = Apparatus.element app
  /\ sublist (List.map forgetTarget (Apparatus.pointers app'))
       (List.map forgetTarget (Apparatus.pointers app))
  /\ mockElementCount w <= mockElementCount w'.
Proof.
  unfold Spine.rewriteApp.
  destruct (Spine.rewritePointers xpathEval fetchXML (Apparatus.pointers app) w)
    as [w1 marked] eqn:Hr.
  intros [= <- <- <-]. cbn.
  destruct (rewritePointers_frame _ _ _ _ Hr) as [Hm Hc].
  repeat split; auto.
  rewrite <- Hm. apply sublist_map, validPointers_sublist.
Qed.

(** A pointer whose target is no range expression is left as it is, in
    the state as it is. *)
Lemma rewritePointers_plain (ptrs : list PointerData) (w : World) :
  List.Forall
    (fun p => StringRange.ofTarget (referencedTarget p) = None) ptrs ->
  Spine.rewritePointers xpathEval fetchXML ptrs w
  = (w, List.map (fun p => (p, false)) ptrs).
Proof.
  induction 1 as [|p ptrs Hp _ IH]; cbn [Spine.rewritePointers List.map];
    [reflexivity|].
  unfold Spine.rewritePointer. now rewrite Hp, IH.
Qed.

Lemma validPointers_plain (ptrs : list PointerData) :
  Spine.validPointers (List.map (fun p => (p, false)) ptrs) = ptrs.
Proof.
  unfold Spine.validPointers.
  induction ptrs as [|p ptrs IH]; cbn; [reflexivity|]. now f_equal.
Qed.

Lemma forEach_rewriteApp_plain (l : list Apparatus.t) (w : World) :
  List.Forall
    (fun app =>
       List.Forall
         (fun p => StringRange.ofTarget (referencedTarget p) = None)
         (Apparatus.pointers app)) l ->
  forEach (Spine.rewriteApp xpathEval fetchXML) l w = (w, (l, None)).
Proof.
  induction 1 as [|app l Ha _ IH]; cbn [forEach]; [reflexivity|].
  unfold Spine.rewriteApp at 1.
  rewrite (rewritePointers_plain _ _ Ha), validPointers_plain,
    set_pointers_same.
  now rewrite IH.
Qed.

(** X14: On a chunk none of whose pointers has a range target, the phase
    changes nothing: entries, documents, counter and requests are as
    they were. *)
Theorem rewriteStringRanges_plain (st : Spine.State) (l : list Apparatus.t) :
  Spine._apps (Spine.this st) = Some l ->
  List.Forall
    (fun app =>
       List.Forall
         (fun p => StringRange.ofTarget (referencedTarget p) = None)
         (Apparatus.pointers app)) l ->
  Spine.rewriteStringRanges xpathEval fetchXML st = (st, Ok tt).
Proof.
  intros Hl H. unfold Spine.rewriteStringRanges, Spine.forApps.
  rewrite Hl, (forEach_rewriteApp_plain _ _ H).
  destruct st as [[c a x i] w]. cbn in *. now subst.
Qed.

End RewriteFurther.
(** ** What [initialize] does to the chunk object *)

Section InitializeFurther.

Variable xpathEval : Document -> string -> list XNode.
Variable fetchXML : string -> option Document.

(** A phase that leaves the chunk number, the spine document and the
    flag of the chunk as they are. *)
Let steady {A : Type} (m : M Spine.State A) : Prop :=
  forall st st' r,
    m st = (st', r) ->
    Spine.chunkNumber (Spine.this st') = Spine.chunkNumber (Spine.this st)
    /\ Spine._xml (Spine.this st') = Spine._xml (Spine.this st)
    /\ Spine._initialized (Spine.this st')
       = Spine._initialized (Spine.this st).

Lemma steady_liftW {A : Type} (m : M World A) : steady (Spine.liftW m).
Proof.
  intros st st' r H. apply liftW_this in H. now rewrite H.
Qed.

Lemma steady_getXML : steady (Spine.getXML fetchXML).
Proof. intros st st' r H. unfold Spine.getXML in H. eapply steady_liftW, H. Qed.

Lemma steady_parseApps : steady Spine.parseApps.
Proof.
  intros st st' r. unfold Spine.parseApps.
  destruct (Spine._xml (Spine.this st)) as [u|] eqn:Hu;
    [|now intros [= <- <-]].
  destruct (cache (Spine.world st) !! u) as [doc|]; [|now intros [= <- <-]].
  destruct (mapRes _ _) as [l|e]; now intros [= <- <-].
Qed.

Lemma steady_forApps
  (body : Apparatus.t -> World -> World * (Apparatus.t * option Error)) :
  steady (Spine.forApps body).
Proof.
  intros st st' r. unfold Spine.forApps.
  destruct (Spine._apps (Spine.this st)) as [l|]; [|now intros [= <- <-]].
  destruct (forEach body l (Spine.world st)) as [w' [l' [e|]]];
    now intros [= <- <-].
Qed.

Lemma steady_fetchAllReferences :
  steady (Spine.fetchAllReferences fetchXML).
Proof.
  intros st st' r. unfold Spine.fetchAllReferences, bind, Spine.apps.
  destruct (Spine._apps (Spine.this st)) as [l|]; [|now intros [= <- <-]].
  apply steady_liftW.
Qed.

(** X18: [initialize] never changes the chunk number, and a call that
    raises leaves the chunk not initialized. *)
Theorem initialize_failure_not_ready (st st' : Spine.State) (r : Res unit) :
  Spine.initialize xpathEval fetchXML st = (st', r) ->
  Spine.chunkNumber (Spine.this st') = Spine.chunkNumber (Spine.this st)
  /\ (isOk r = false ->
      Spine._initialized (Spine.this st) = false
      /\ Spine._initialized (Spine.this st') = false).
Proof.
  unfold Spine.initialize.
  destruct (Spine._initialized (Spine.this st)) eqn:Hflag.
  { intros [= <- <-]. split; [reflexivity|discriminate]. }
  unfold bind.
  destruct (Spine.getXML fetchXML st) as [s1 [u|e]] eqn:H1;
    destruct (steady_getXML _ _ _ H1) as (C1 & _ & F1);
    [|intros [= <- <-]; split; [congruence|intros _; split; congruence]].
  destruct (Spine.parseApps (Spine.set_xml u s1)) as [s2 [[]|e]] eqn:H2;
    destruct (steady_parseApps _ _ _ H2) as (C2 & _ & F2);
    cbn in C2, F2;
    [|intros [= <- <-]; split; [congruence|intros _; split; congruence]].
  destruct (Spine.fetchAllReferences fetchXML s2) as [s3 [[]|e]] eqn:H3;
    destruct (steady_fetchAllReferences _ _ _ H3) as (C3 & _ & F3);
    [|intros [= <- <-]; split; [congruence|intros _; split; congruence]].
  destruct (Spine.rewriteStringRanges xpathEval fetchXML s3)
    as [s4 [[]|e]] eqn:H4;
    destruct (steady_forApps _ _ _ _ H4) as (C4 & _ & F4);
    [|intros [= <- <-]; split; [congruence|intros _; split; congruence]].
  destruct (Spine.dereferencePointers xpathEval fetchXML s4)
    as [s5 [[]|e]] eqn:H5;
    destruct (steady_forApps _ _ _ _ H5) as (C5 & _ & F5);
    [|intros [= <- <-]; split; [congruence|intros _; split; congruence]].
  destruct (Spine.addBackPointers s5) as [s6 [[]|e]] eqn:H6;
    destruct (steady_forApps _ _ _ _ H6) as (C6 & _ & F6);
    [|intros [= <- <-]; split; [congruence|intros _; split; congruence]].
  intros [= <- <-]. cbn. split; [congruence|discriminate].
Qed.

(** X19: After a call that completes on a chunk that was not initialized,
    the chunk holds the URL of its spine document, built from its
    chunk number, and a list of entries, and is initialized. *)
Theorem initialize_success_shape (st st' : Spine.State) :
  Spine._initialized (Spine.this st) = false ->
  Spine.initialize xpathEval fetchXML st = (st', Ok tt) ->
  Spine._xml (Spine.this st')
  = Some (Spine.spineUrl (Spine.chunkNumber (Spine.this st)))
  /\ is_Some (Spine._apps (Spine.this st'))
  /\ Spine._initialized (Spine.this st') = true
  /\ is_Some (cache (Spine.world st')
                !! Spine.spineUrl (Spine.chunkNumber (Spine.this st))).
Proof.
  intros Hflag H.
  unfold Spine.initialize in H. rewrite Hflag in H.
  apply bind_Ok_inv in H. destruct H as (u & s1 & H1 & H).
  pose proof H as Htail.
  apply bind_Ok_inv in H. destruct H as ([] & s1' & H1' & H).
  apply bind_Ok_inv in H. destruct H as ([] & s2 & H2 & H).
  apply bind_Ok_inv in H. destruct H as ([] & s3 & H3 & H).
  apply bind_Ok_inv in H. destruct H as ([] & s4 & H4 & H).
  apply bind_Ok_inv in H. destruct H as ([] & s5 & H5 & H).
  apply bind_Ok_inv in H. destruct H as ([] & s6 & H6 & H).
  injection H as <-. injection H1' as <-.
  destruct (steady_parseApps _ _ _ H2) as (_ & X2 & _).
  destruct (steady_fetchAllReferences _ _ _ H3) as (_ & X3 & _).
  destruct (steady_forApps _ _ _ _ H4) as (_ & X4 & _).
  destruct (steady_forApps _ _ _ _ H5) as (_ & X5 & _).
  destruct (steady_forApps _ _ _ _ H6) as (_ & X6 & _).
  cbn in X2.
  unfold Spine.getXML, Spine.liftW, bind in H1.
  destruct (FvStore.getXML fetchXML _ (Spine.world st)) as [w1 [d|e]] eqn:Hg;
    [|discriminate].
  injection H1 as <- <-.
  cbn. split; [congruence|]. split; [|split; [reflexivity|]].
  - unfold Spine.addBackPointers, Spine.forApps in H6.
    destruct (Spine._apps (Spine.this s5)); [|discriminate].
    destruct (forEach _ _ _) as [w' [l' [e|]]]; [discriminate|].
    injection H6 as <-. cbn. eauto.
  - apply (afterGetXML_preserves xpathEval fetchXML
             (fun w w' => forall u, is_Some (cache w !! u) ->
                                    is_Some (cache w' !! u))
             loaded_refl loaded_trans (loaded_getXML fetchXML)
             loaded_setAttributeAt loaded_counter _ _ _ _ Htail).
    cbn. destruct (getXML_frame _ _ _ _ _ Hg) as (_ & _ & Hd).
    rewrite (Hd d eq_refl). eauto.
Qed.

End InitializeFurther.

(** ** The chunks of the store *)

(** X22: On chunk objects numbered 1 to 10, as the store builds them,
    [getSpine] finds a chunk exactly for the numbers 1 to 10, and the
    chunk it finds is one of the store with the number asked for. *)
Theorem getSpine_range (l : list Spine.t) (chunk : Z) :
  List.map Spine.chunkNumber l = [1; 2; 3; 4; 5; 6; 7; 8; 9; 10]%Z ->
  (is_Some (FvStoreClass.getSpine l chunk) <-> (1 <= chunk <= 10)%Z)
  /\ (forall sp, FvStoreClass.getSpine l chunk = Some sp ->
                 In sp l /\ Spine.chunkNumber sp = chunk).
Proof.
  intros Hl. unfold FvStoreClass.getSpine.
  assert (Hfound : forall sp,
             List.find (fun sp => Z.eqb (Spine.chunkNumber sp) chunk) l
             = Some sp ->
             In sp l /\ Spine.chunkNumber sp = chunk).
  { intros sp H. apply List.find_some in H. destruct H as [Hin Hc].
    apply Z.eqb_eq in Hc. auto. }
  split; [|exact Hfound]. split.
  - intros [sp H]. destruct (Hfound sp H) as [Hin <-].
    apply (List.in_map Spine.chunkNumber) in Hin. rewrite Hl in Hin.
    cbn in Hin. lia.
  - intros Hc.
    assert (Hin : In chunk (List.map Spine.chunkNumber l)).
    { rewrite Hl. cbn. lia. }
    apply List.in_map_iff in Hin. destruct Hin as (sp & Hsp & Hin).
    destruct (List.find _ l) as [sp'|] eqn:Hf; [eauto|].
    pose proof (List.find_none _ _ Hf sp Hin) as Hn. cbv beta in Hn.
    apply Z.eqb_neq in Hn. congruence.
Qed.

Lemma getSpine_range_witness :
  (is_Some (FvStoreClass.getSpine FvStoreClass.spines 7)
   <-> (1 <= 7 <= 10)%Z)
  /\ (forall sp, FvStoreClass.getSpine FvStoreClass.spines 7 = Some sp ->
                 In sp FvStoreClass.spines /\ Spine.chunkNumber sp = 7%Z).
Proof.
  apply (getSpine_range FvStoreClass.spines 7). reflexivity.
Defined.

(** ** The choice of an edition *)

Section SelectorFacts.

Variable Label : Type.
Variable renderLabel : Edition -> Label.

Lemma In_optionsFrom (k : nat) (eds : list Edition)
  (opt : EditionSelector.SelectOption Label) :
  In opt (EditionSelector.optionsFrom Label renderLabel k eds) ->
  exists ed, In ed eds
             /\ EditionSelector.value Label opt = code ed
             /\ EditionSelector.label Label opt = renderLabel ed.
Proof.
  revert k. induction eds as [|ed eds IH]; intros k;
    cbn [EditionSelector.optionsFrom In]; [tauto|].
  intros [<-|H].
  - exists ed. cbn. auto.
  - destruct (IH _ H) as (ed' & Hin & Hv & Hl). eauto.
Qed.

(** X23: Choosing an option that [componentDidMount] built never takes the
    warning branch: the edition of the store whose code is the value of
    the option, and whose label the option shows, is passed to
    [onEditionSelected], and the option becomes the selected one. *)
Theorem editionChanged_on_mounted_option
  (st0 st : EditionSelector.State Label)
  (opt : EditionSelector.SelectOption Label) :
  In opt (EditionSelector.availableEditions Label
            (EditionSelector.componentDidMount Label renderLabel st0)) ->
  exists ed,
    In ed FvStore.editions
    /\ code ed = EditionSelector.value Label opt
    /\ EditionSelector.label Label opt = renderLabel ed
    /\ EditionSelector.editionChanged Label opt st
       = ({| EditionSelector.availableEditions :=
               EditionSelector.availableEditions Label st;
             EditionSelector.selectedEdition := Some opt |},
          [EditionSelector.OnEditionSelected ed]).
Proof.
  cbn [EditionSelector.componentDidMount EditionSelector.availableEditions].
  intros H. apply In_optionsFrom in H. destruct H as (ed & Hin & Hv & Hl).
  exists ed. repeat split; auto.
  unfold EditionSelector.editionChanged.
  destruct (getEdition_lookup_core (EditionSelector.value Label opt))
    as [Hfind _].
  assert (Hf : FvStore.getEdition (EditionSelector.value Label opt)
               = Ok (Some ed)) by (apply Hfind; auto).
  assert (Hf' : List.find
                  (fun e => String.eqb (code e)
                              (EditionSelector.value Label opt))
                  FvStore.editions = Some ed)
    by (unfold FvStore.getEdition in Hf; congruence).
  now rewrite Hf'.
Qed.

(** X24: Choosing an option whose value is the code of no edition changes
    nothing and only warns. *)
Theorem editionChanged_unknown_value
  (st : EditionSelector.State Label)
  (opt : EditionSelector.SelectOption Label) :
  (forall ed, In ed FvStore.editions ->
              code ed <> EditionSelector.value Label opt) ->
  EditionSelector.editionChanged Label opt st
  = (st, [EditionSelector.Warn (EditionSelector.value Label opt)]).
Proof.
  intros H. unfold EditionSelector.editionChanged.
  destruct (getEdition_lookup_core (EditionSelector.value Label opt))
    as [_ Hnone].
  assert (Hf : FvStore.getEdition (EditionSelector.value Label opt)
               = Ok None) by (apply Hnone; auto).
  assert (Hf' : List.find
                  (fun e => String.eqb (code e)
                              (EditionSelector.value Label opt))
                  FvStore.editions = None)
    by (unfold FvStore.getEdition in Hf; congruence).
  now rewrite Hf'.
Qed.

End SelectorFacts.

(** ** The patched expression *)

Lemma length_append (a b : string) :
  String.length (a +:+ b) = String.length a + String.length b.
Proof.
  induction a as [|x a IH]; [reflexivity|].
  rewrite append_cons. cbn [String.length]. now rewrite IH.
Qed.

(** Any fuel above the length of the string gives the same result. *)
Lemma removeAllFuel_enough (p : string) (f1 f2 : nat) (s : string) :
  p <> "" -> String.length s < f1 -> String.length s < f2 ->
  JsString.removeAllFuel f1 p s = JsString.removeAllFuel f2 p s.
Proof.
  intros Hp. revert f2 s.
  induction f1 as [|f1 IH]; intros f2 s H1 H2; [lia|].
  destruct f2 as [|f2]; [lia|]. cbn [JsString.removeAllFuel].
  destruct (JsString.stripPrefix p s) as [rest|] eqn:Hs.
  - apply stripPrefix_Some in Hs. subst s. rewrite length_append in H1, H2.
    assert (0 < String.length p) by (destruct p; [congruence|cbn; lia]).
    apply IH; lia.
  - destruct s as [|c s]; [reflexivity|]. cbn [String.length] in H1, H2.
    f_equal. apply IH; lia.
Qed.

(** X7: The removal of the prefix token [tei:] from an expression: an
    occurrence at the head is dropped and the removal goes on behind
    it, any other character is kept and the removal goes on behind it;
    the result is no longer than the expression, and an expression
    without a colon is left as it is. *)
Theorem removeAll_tei :
  JsString.removeAll "tei:" "" = ""
  /\ (forall s, JsString.removeAll "tei:" ("tei:" +:+ s)
                = JsString.removeAll "tei:" s)
  /\ (forall c s, JsString.stripPrefix "tei:" (String c s) = None ->
                  JsString.removeAll "tei:" (String c s)
                  = String c (JsString.removeAll "tei:" s))
  /\ (forall s, String.length (JsString.removeAll "tei:" s)
                <= String.length s)
  /\ (forall s, JsString.count ":" s = 0 ->
                JsString.removeAll "tei:" s = s).
Proof.
  assert (Hp : "tei:" <> "") by discriminate.
  assert (E1 : forall s, JsString.removeAll "tei:" ("tei:" +:+ s)
                         = JsString.removeAll "tei:" s).
  { intros s. unfold JsString.removeAll at 1.
    cbn [JsString.removeAllFuel].
    assert (Hs : JsString.stripPrefix "tei:" ("tei:" +:+ s) = Some s)
      by (now apply stripPrefix_Some).
    rewrite Hs. apply removeAllFuel_enough; [exact Hp| |lia].
    rewrite length_append. cbn. lia. }
  assert (E2 : forall c s, JsString.stripPrefix "tei:" (String c s) = None ->
                           JsString.removeAll "tei:" (String c s)
                           = String c (JsString.removeAll "tei:" s)).
  { intros c s Hs. unfold JsString.removeAll at 1.
    cbn [JsString.removeAllFuel]. rewrite Hs. reflexivity. }
  split; [reflexivity|]. split; [exact E1|]. split; [exact E2|]. split.
  - intros s. remember (String.length s) as n eqn:Hn.
    revert s Hn. induction (lt_wf n) as [n _ IH]. intros s ->.
    destruct (JsString.stripPrefix "tei:" s) as [rest|] eqn:Hs.
    + apply stripPrefix_Some in Hs. subst s. rewrite E1, length_append.
      assert (Hr : String.length (JsString.removeAll "tei:" rest)
                   <= String.length rest).
      { eapply IH; [|reflexivity]. rewrite length_append. cbn. lia. }
      lia.
    + destruct s as [|c s]; [cbn; lia|]. rewrite (E2 _ _ Hs).
      cbn [String.length].
      assert (Hr : String.length (JsString.removeAll "tei:" s)
                   <= String.length s).
      { eapply IH; [|reflexivity]. cbn. lia. }
      lia.
  - induction s as [|c s IH]; [reflexivity|]. intros Hc.
    cbn [JsString.count] in Hc.
    assert (Hs : JsString.stripPrefix "tei:" (String c s) = None).
    { destruct (JsString.stripPrefix "tei:" (String c s)) as [rest|] eqn:Hs;
        [|reflexivity].
      apply stripPrefix_Some in Hs.
      assert (Hk : JsString.count ":" (String c s) = 0) by exact Hc.
      rewrite Hs, count_append in Hk. cbn in Hk. lia. }
    rewrite (E2 _ _ Hs). f_equal. apply IH. lia.
Qed.

(** ** Spine URLs and synthesized ids *)

Lemma pretty_N_go_head (x : N) (s : string) :
  (0 < x)%N ->
  exists c r, pretty_N_go x s = String c r /\ c <> "0"%char.
Proof.
  revert s. induction (N.lt_wf_0 x) as [x _ IH]. intros s Hx.
  rewrite pretty_N_go_step by exact Hx.
  destruct (decide (x < 10)%N) as [Hlt|Hge].
  - rewrite N.div_small by exact Hlt. rewrite pretty_N_go_0.
    rewrite N.mod_small by exact Hlt.
    eexists _, _. split; [reflexivity|].
    assert (x = 1 \/ x = 2 \/ x = 3 \/ x = 4 \/ x = 5 \/ x = 6
            \/ x = 7 \/ x = 8 \/ x = 9)%N as Hcases by lia.
    intuition (subst; discriminate).
  - apply IH.
    + apply N.div_lt; lia.
    + apply N.div_str_pos. lia.
Qed.

Lemma append_inj_r (a b t : string) : a +:+ t = b +:+ t -> a = b.
Proof.
  revert b. induction a as [|x a IH]; intros [|y b] H.
  - reflexivity.
  - apply (f_equal String.length) in H.
    rewrite append_empty_l, append_cons in H. cbn [String.length] in H.
    rewrite length_append in H. lia.
  - apply (f_equal String.length) in H.
    rewrite append_empty_l, append_cons in H. cbn [String.length] in H.
    rewrite length_append in H. lia.
  - rewrite !append_cons in H. injection H as -> H. f_equal. now apply IH.
Qed.

(** X21: Chunks with different numbers have different spine URLs. *)
Theorem spineUrl_inj (a b : Z) :
  Spine.spineUrl a = Spine.spineUrl b -> a = b.
Proof.
  unfold Spine.spineUrl. intros H.
  apply String.app_inj in H. apply append_inj_r in H.
  assert (Hhead : forall x y : Z,
             (x < 10)%Z -> (10 <= y)%Z -> "0" +:+ pretty x <> pretty y).
  { intros x y Hx Hy E. destruct y as [|y|y]; try lia.
    unfold pretty at 2, pretty_Z, pretty, pretty_positive, pretty,
      pretty_N in E.
    destruct (decide (N.pos y = 0%N)) as [|_]; [discriminate|].
    destruct (pretty_N_go_head (N.pos y) "") as (c & r & Hc & Hne); [lia|].
    rewrite Hc in E. change ("0" +:+ pretty x) with (String "0" (pretty x)) in E.
    injection E as E _. congruence. }
  destruct (a <? 10)%Z eqn:Ha, (b <? 10)%Z eqn:Hb;
    try apply Z.ltb_lt in Ha; try apply Z.ltb_lt in Hb;
    try apply Z.ltb_ge in Ha; try apply Z.ltb_ge in Hb.
  - apply String.app_inj in H. now apply (inj pretty).
  - now elim (Hhead a b Ha Hb).
  - symmetry in H. now elim (Hhead b a Hb Ha).
  - now apply (inj pretty).
Qed.

Lemma spineUrl_inj_witness : 3%Z = 3%Z.
Proof. apply (spineUrl_inj 3 3). reflexivity. Defined.

(** X15: Ids synthesized at different values of the counter differ, and a
    synthesized id is never read as a range expression. *)
Theorem mockId_fresh (n m : nat) :
  (mockId n = mockId m <-> n = m)
  /\ StringRange.ofTarget (mockId n) = None.
Proof.
  split; [|reflexivity]. split; [|now intros ->].
  unfold mockId. intros H. apply String.app_inj in H.
  now apply (inj pretty) in H.
Qed.

(** ** The further properties on the examples *)

Lemma rewriteStringRange_id_witness :
  exists d w1 x e0,
    FvStore.getXML (Examples.serving Examples.rangeSpine) "doc.xml"
      (Examples.loadedWorld Examples.rangeSpine) = (w1, Ok d)
    /\ evaluateXPath Examples.tinyXPath d "//p" = [x]
    /\ elementAt w1 (mkHandle "doc.xml" x) = Some e0
    /\ match getNamedItem e0 "xml:id" with
       | Some v =>
           "x" = v
           /\ mockElementCount MoreExamples.rangeRewritten
              = mockElementCount (Examples.loadedWorld Examples.rangeSpine)
       | None =>
           "x" = mockId (mockElementCount
                           (Examples.loadedWorld Examples.rangeSpine))
           /\ mockElementCount MoreExamples.rangeRewritten
              = mockElementCount (Examples.loadedWorld Examples.rangeSpine)
                + 1
       end
    /\ Spine.set_referencedTarget Examples.rangePointer "x"
       = Spine.set_referencedTarget Examples.rangePointer "x"
    /\ fetches MoreExamples.rangeRewritten = fetches w1.
Proof.
  apply (rewriteStringRange_id Examples.tinyXPath
           (Examples.serving Examples.rangeSpine) Examples.rangePointer
           (Spine.set_referencedTarget Examples.rangePointer "x")
           MoreExamples.paragraphRange
           (Examples.loadedWorld Examples.rangeSpine)
           MoreExamples.rangeRewritten).
  vm_compute. reflexivity.
Defined.

Lemma rewriteApp_keeps_pointers_witness :
  @None Error = None
  /\ Apparatus.id (Spine.set_pointers Examples.mixedApp
                     [Examples.plainPointer])
     = Apparatus.id Examples.mixedApp
  /\ Apparatus.n (Spine.set_pointers Examples.mixedApp
                    [Examples.plainPointer])
     = Apparatus.n Examples.mixedApp
  /\ Apparatus.element (Spine.set_pointers Examples.mixedApp
                          [Examples.plainPointer])
     = Apparatus.element Examples.mixedApp
  /\ sublist
       (List.map forgetTarget
          (Apparatus.pointers
             (Spine.set_pointers Examples.mixedApp [Examples.plainPointer])))
       (List.map forgetTarget (Apparatus.pointers Examples.mixedApp))
  /\ mockElementCount (Examples.loadedWorld Examples.mixedSpine)
     <= mockElementCount (Examples.loadedWorld Examples.mixedSpine).
Proof.
  apply (rewriteApp_keeps_pointers Examples.tinyXPath
           (Examples.serving Examples.mixedSpine) Examples.mixedApp
           (Spine.set_pointers Examples.mixedApp [Examples.plainPointer])
           (Examples.loadedWorld Examples.mixedSpine)
           (Examples.loadedWorld Examples.mixedSpine) None).
  vm_compute. reflexivity.
Defined.

Lemma rewriteStringRanges_plain_witness :
  Spine.rewriteStringRanges Examples.tinyXPath
    (Examples.serving Examples.mixedSpine) Examples.undereferencedChunk
  = (Examples.undereferencedChunk, Ok tt).
Proof.
  apply (rewriteStringRanges_plain Examples.tinyXPath
           (Examples.serving Examples.mixedSpine)
           Examples.undereferencedChunk
           [ {| Apparatus.id := "a1";
                Apparatus.n := None;
                Apparatus.element := Examples.ptrHandle 1;
                Apparatus.pointers := [Examples.plainPointer] |} ]).
  - reflexivity.
  - repeat constructor.
Defined.

Lemma fetchAllReferences_requests_witness :
  fetches (Spine.world
             (fst (Spine.fetchAllReferences
                     (Examples.serving Examples.mixedSpine)
                     MoreExamples.unloadedChunk)))
  = [] ++ ["doc.xml"].
Proof.
  apply (fetchAllReferences_requests
           (Examples.serving Examples.mixedSpine)
           MoreExamples.unloadedChunk
           (fst (Spine.fetchAllReferences
                   (Examples.serving Examples.mixedSpine)
                   MoreExamples.unloadedChunk))
           [ {| Apparatus.id := "a1";
                Apparatus.n := None;
                Apparatus.element := Examples.ptrHandle 1;
                Apparatus.pointers := [Examples.plainPointer] |} ]
           (Ok tt)).
  - reflexivity.
  - vm_compute. reflexivity.
Defined.

Lemma fetchAllReferences_loads_witness :
  is_Some
    (cache (Spine.world
              (fst (Spine.fetchAllReferences
                      (Examples.serving Examples.mixedSpine)
                      MoreExamples.unloadedChunk)))
     !! referencedUrl Examples.plainPointer).
Proof.
  apply (fetchAllReferences_loads
           (Examples.serving Examples.mixedSpine)
           MoreExamples.unloadedChunk
           (fst (Spine.fetchAllReferences
                   (Examples.serving Examples.mixedSpine)
                   MoreExamples.unloadedChunk))
           [ {| Apparatus.id := "a1";
                Apparatus.n := None;
                Apparatus.element := Examples.ptrHandle 1;
                Apparatus.pointers := [Examples.plainPointer] |} ])
    with (app := {| Apparatus.id := "a1";
                    Apparatus.n := None;
                    Apparatus.element := Examples.ptrHandle 1;
                    Apparatus.pointers := [Examples.plainPointer] |}).
  - reflexivity.
  - vm_compute. reflexivity.
  - simpl. auto.
  - simpl. auto.
Defined.

Lemma fetchAllReferences_completes_witness :
  snd (Spine.fetchAllReferences (Examples.serving Examples.mixedSpine)
         MoreExamples.unloadedChunk) = Ok tt
  <-> forall app p,
        In app [ {| Apparatus.id := "a1";
                    Apparatus.n := None;
                    Apparatus.element := Examples.ptrHandle 1;
                    Apparatus.pointers := [Examples.plainPointer] |} ] ->
        In p (Apparatus.pointers app) ->
        is_Some (cache (Spine.world MoreExamples.unloadedChunk)
                 !! referencedUrl p)
        \/ is_Some (Examples.serving Examples.mixedSpine (referencedUrl p)).
Proof.
  apply (fetchAllReferences_completes
           (Examples.serving Examples.mixedSpine)
           MoreExamples.unloadedChunk).
  reflexivity.
Defined.

Lemma dereferencePointers_resolves_witness :
  exists l l',
    Spine._apps (Spine.this Examples.undereferencedChunk) = Some l
    /\ Spine._apps
         (Spine.this
            (fst (Spine.dereferencePointers Examples.tinyXPath
                    (Examples.serving Examples.mixedSpine)
                    Examples.undereferencedChunk))) = Some l'
    /\ pointersOf l' = pointersOf l
    /\ cacheKept (Spine.world Examples.undereferencedChunk)
         (Spine.world
            (fst (Spine.dereferencePointers Examples.tinyXPath
                    (Examples.serving Examples.mixedSpine)
                    Examples.undereferencedChunk)))
    /\ List.Forall
         (fun app =>
            List.Forall
              (resolvedIn Examples.tinyXPath
                 (Spine.world
                    (fst (Spine.dereferencePointers Examples.tinyXPath
                            (Examples.serving Examples.mixedSpine)
                            Examples.undereferencedChunk))))
              (Apparatus.pointers app)) l'.
Proof.
  apply (dereferencePointers_resolves Examples.tinyXPath
           (Examples.serving Examples.mixedSpine)
           Examples.undereferencedChunk).
  vm_compute. reflexivity.
Defined.

Lemma addBackPointers_writes_only_back_references_witness :
  Spine.this (fst (Spine.addBackPointers Examples.sharedReady))
  = Spine.this Examples.sharedReady
  /\ mockElementCount
       (Spine.world (fst (Spine.addBackPointers Examples.sharedReady)))
     = mockElementCount (Spine.world Examples.sharedReady)
  /\ fetches (Spine.world (fst (Spine.addBackPointers Examples.sharedReady)))
     = fetches (Spine.world Examples.sharedReady)
  /\ forall h e,
      elementAt (Spine.world Examples.sharedReady) h = Some e ->
      exists e',
        elementAt
          (Spine.world (fst (Spine.addBackPointers Examples.sharedReady))) h
        = Some e'
        /\ sameButAttribute "app-ref" e e'.
Proof.
  apply (addBackPointers_writes_only_back_references
           Examples.sharedReady
           (fst (Spine.addBackPointers Examples.sharedReady))
           (Ok tt)).
  vm_compute. reflexivity.
Defined.

Lemma parseApps_all_or_nothing_witness :
  Spine.world (fst (Spine.parseApps MoreExamples.loadedChunk))
  = Spine.world MoreExamples.loadedChunk
  /\ exists u doc apps,
      Spine._xml (Spine.this MoreExamples.loadedChunk) = Some u
      /\ cache (Spine.world MoreExamples.loadedChunk) !! u = Some doc
      /\ fst (Spine.parseApps MoreExamples.loadedChunk)
         = Spine.set_apps apps MoreExamples.loadedChunk
      /\ Forall2 (fun i a => Apparatus.constructor u doc i = Ok a)
           (getElementsByTagName doc "app") apps.
Proof.
  apply (parseApps_all_or_nothing MoreExamples.loadedChunk
           (fst (Spine.parseApps MoreExamples.loadedChunk)) (Ok tt)).
  vm_compute. reflexivity.
Defined.

Lemma initialize_failure_not_ready_witness :
  Spine._initialized
    (Spine.this
       (fst (Spine.initialize Examples.tinyXPath
               (Examples.serving Examples.danglingSpine)
               Examples.freshChunk))) = false.
Proof.
  apply (initialize_failure_not_ready Examples.tinyXPath
           (Examples.serving Examples.danglingSpine) Examples.freshChunk
           (fst (Spine.initialize Examples.tinyXPath
                   (Examples.serving Examples.danglingSpine)
                   Examples.freshChunk))
           (Err (PointerInvalidElement "nowhere"))).
  - vm_compute. reflexivity.
  - reflexivity.
Defined.

Lemma initialize_success_shape_witness :
  Spine._xml (Spine.this Examples.sharedReady)
  = Some (Spine.spineUrl 1)
  /\ is_Some (Spine._apps (Spine.this Examples.sharedReady))
  /\ Spine._initialized (Spine.this Examples.sharedReady) = true
  /\ is_Some (cache (Spine.world Examples.sharedReady) !! Spine.spineUrl 1).
Proof.
  apply (initialize_success_shape Examples.tinyXPath
           (Examples.serving Examples.sharedSpine)
           Examples.freshChunk Examples.sharedReady).
  - reflexivity.
  - vm_compute. reflexivity.
Defined.

Lemma initialize_only_grows_witness :
  mockElementCount (Spine.world Examples.freshChunk)
  <= mockElementCount (Spine.world Examples.sharedReady)
  /\ (exists issued,
         fetches (Spine.world Examples.sharedReady)
         = fetches (Spine.world Examples.freshChunk) ++ issued)
  /\ (forall u, is_Some (cache (Spine.world Examples.freshChunk) !! u) ->
                is_Some (cache (Spine.world Examples.sharedReady) !! u)).
Proof.
  apply (initialize_only_grows Examples.tinyXPath
           (Examples.serving Examples.sharedSpine)
           Examples.freshChunk Examples.sharedReady (Ok tt)).
  vm_compute. reflexivity.
Defined.

Lemma editionChanged_on_mounted_option_witness :
  exists ed,
    In ed FvStore.editions
    /\ code ed = "1831"
    /\ "1831" = name ed
    /\ EditionSelector.editionChanged string MoreExamples.option1831
         MoreExamples.emptySelector
       = ({| EditionSelector.availableEditions := [];
             EditionSelector.selectedEdition :=
               Some MoreExamples.option1831 |},
          [EditionSelector.OnEditionSelected ed]).
Proof.
  apply (editionChanged_on_mounted_option string name
           MoreExamples.emptySelector MoreExamples.emptySelector
           MoreExamples.option1831).
  simpl. auto.
Defined.

Lemma editionChanged_unknown_value_witness :
  EditionSelector.editionChanged string MoreExamples.option1900
    MoreExamples.emptySelector
  = (MoreExamples.emptySelector, [EditionSelector.Warn "1900"]).
Proof.
  apply (editionChanged_unknown_value string MoreExamples.emptySelector
           MoreExamples.option1900).
  intros ed Hin. simpl in Hin.
  repeat (destruct Hin as [<-|Hin]; [discriminate|]). destruct Hin.
Defined.

(** ** Failures that are contained and failures that are not *)

(** X25: when the document of a range pointer is neither loaded nor
    can be fetched, the range-rewrite loop issues the request and marks
    the pointer as invalid, while the dereference step on the same
    pointer issues the request and raises the fetch error. *)
Theorem fetch_failure_dropped_or_raised
  (xpathEval : Document -> string -> list XNode)
  (fetchXML : string -> option Document)
  (ptr : PointerData) (range : StringRange.t) (w : World) :
  cache w !! referencedUrl ptr = None ->
  fetchXML (referencedUrl ptr) = None ->
  StringRange.ofTarget (referencedTarget ptr) = Some range ->
  Spine.rewritePointer xpathEval fetchXML ptr w
  = ({| cache := cache w;
        fetches := fetches w ++ [referencedUrl ptr];
        mockElementCount := mockElementCount w |}, (ptr, true))
  /\ Spine.dereferencePointer xpathEval fetchXML ptr w
     = ({| cache := cache w;
           fetches := fetches w ++ [referencedUrl ptr];
           mockElementCount := mockElementCount w |},
        Err (FetchError (referencedUrl ptr))).
Proof.
  intros Hc Hf Hm.
  unfold Spine.rewritePointer, Spine.rewriteStringRange,
    Spine.dereferencePointer, bind, FvStore.getXML.
  now rewrite Hm, Hc, Hf.
Qed.

Lemma fetch_failure_dropped_or_raised_witness :
  Spine.rewritePointer Examples.tinyXPath (fun _ => None)
    Examples.rangePointer Examples.freshWorld
  = ({| cache := ∅; fetches := ["doc.xml"]; mockElementCount := 0 |},
     (Examples.rangePointer, true))
  /\ Spine.dereferencePointer Examples.tinyXPath (fun _ => None)
       Examples.rangePointer Examples.freshWorld
     = ({| cache := ∅; fetches := ["doc.xml"]; mockElementCount := 0 |},
        Err (FetchError "doc.xml")).
Proof.
  apply (fetch_failure_dropped_or_raised Examples.tinyXPath (fun _ => None)
           Examples.rangePointer MoreExamples.paragraphRange
           Examples.freshWorld); reflexivity.
Defined.

(** X26: when the patched expression of a range pointer selects one
    node that is not an element, the loop marks the pointer as invalid
    and writes nothing: the state is the one that the document lookup
    left. *)
Theorem non_element_target_dropped
  (xpathEval : Document -> string -> list XNode)
  (fetchXML : string -> option Document)
  (ptr : PointerData) (range : StringRange.t) (w w1 : World)
  (d : Document) :
  StringRange.ofTarget (referencedTarget ptr) = Some range ->
  FvStore.getXML fetchXML (referencedUrl ptr) w = (w1, Ok d) ->
  evaluateXPath xpathEval d
    (JsString.removeAll "tei:" (StringRange.xpath range)) = [XOther] ->
  Spine.rewritePointer xpathEval fetchXML ptr w = (w1, (ptr, true)).
Proof.
  intros Hm Hg Hx.
  unfold Spine.rewritePointer, Spine.rewriteStringRange, bind.
  rewrite Hm, Hg, Hx. reflexivity.
Qed.

Lemma non_element_target_dropped_witness :
  Spine.rewritePointer (fun _ _ => [XOther])
    (Examples.serving Examples.rangeSpine) Examples.rangePointer
    (Examples.loadedWorld Examples.rangeSpine)
  = (Examples.loadedWorld Examples.rangeSpine, (Examples.rangePointer, true)).
Proof.
  apply (non_element_target_dropped (fun _ _ => [XOther])
           (Examples.serving Examples.rangeSpine) Examples.rangePointer
           MoreExamples.paragraphRange
           (Examples.loadedWorld Examples.rangeSpine)
           (Examples.loadedWorld Examples.rangeSpine)
           Examples.witnessDoc); reflexivity.
Defined.

(** ** The elements of the parsed pointers *)

Lemma getElementsByTagName_In (doc : Document) (tag : string) (i : nat) :
  In i (getElementsByTagName doc tag)
  <-> exists e, doc !! i = Some e /\ tagName e = tag.
Proof.
  unfold getElementsByTagName. rewrite List.filter_In, List.in_seq. split.
  - intros [_ H]. destruct (doc !! i) as [e|]; [|discriminate].
    apply String.eqb_eq in H. eauto.
  - intros (e & He & Ht). split.
    + apply lookup_lt_Some in He. lia.
    + rewrite He. now apply String.eqb_eq.
Qed.

Lemma getElementsByTagName_NoDup (doc : Document) (tag : string) :
  List.NoDup (getElementsByTagName doc tag).
Proof.
  unfold getElementsByTagName. apply List.NoDup_filter, List.seq_NoDup.
Qed.

Lemma NoDup_map_Forall2 {A B : Type} (f : B -> A) (g : nat -> A)
  (l : list nat) (ys : list B) :
  (forall i j, g i = g j -> i = j) ->
  Forall2 (fun i y => f y = g i) l ys ->
  List.NoDup l -> List.NoDup (List.map f ys).
Proof.
  intros Hg H. induction H as [|i y l ys Hy H IH]; cbn; intros Hnd.
  - constructor.
  - inversion Hnd as [|? ? Hi Hl]; subst. constructor; [|auto].
    intros Hin. apply List.in_map_iff in Hin.
    destruct Hin as (y' & Hy' & Hin). apply Hi.
    clear IH Hnd Hl Hi. induction H as [|j z l ys Hz H IH'].
    + destruct Hin.
    + destruct Hin as [->|Hin]; [|right; auto].
      left. apply Hg. congruence.
Qed.

(** X27: the pointers of a parsed entry hold handles of pairwise
    different elements, each a [<ptr>] element of the document below
    the [<app>] element of the entry. *)
Theorem constructor_pointer_elements (url : string) (doc : Document)
  (element : nat) (a : Apparatus.t) :
  Apparatus.constructor url doc element = Ok a ->
  List.NoDup (List.map ptrElement (Apparatus.pointers a))
  /\ List.Forall
       (fun p => exists i e,
            ptrElement p = mkHandle url (XElement i)
            /\ doc !! i = Some e /\ tagName e = "ptr"
            /\ hasAncestor doc (length doc) element i = true)
       (Apparatus.pointers a).
Proof.
  unfold Apparatus.constructor, Apparatus.parsePointers.
  destruct (doc !! element) as [el|]; [|discriminate].
  destruct (getNamedItem el "xml:id") as [v|]; [|discriminate].
  destruct (mapRes _ _) as [ptrs|e] eqn:Hm; [|discriminate].
  intros [= <-]. cbn [Apparatus.pointers].
  apply mapRes_Forall2 in Hm.
  assert (Hh : Forall2 (fun i p => ptrElement p = mkHandle url (XElement i))
                 (getDescendantsByTagName doc element "ptr") ptrs).
  { eapply Forall2_impl; [exact Hm|]. intros i p Hp.
    apply parsePointer_characterization_core in Hp.
    destruct Hp as (? & ? & ? & ? & Hp). tauto. }
  split.
  - eapply (NoDup_map_Forall2 ptrElement
              (fun i => mkHandle url (XElement i))); [|exact Hh|].
    + intros i j [= ->]. reflexivity.
    + unfold getDescendantsByTagName.
      apply List.NoDup_filter, getElementsByTagName_NoDup.
  - assert (Hin : List.Forall
                    (fun i => exists e, doc !! i = Some e
                                        /\ tagName e = "ptr"
                                        /\ hasAncestor doc (length doc)
                                             element i = true)
                    (getDescendantsByTagName doc element "ptr")).
    { apply List.Forall_forall. intros i Hi.
      unfold getDescendantsByTagName in Hi.
      apply List.filter_In in Hi. destruct Hi as [Hi Ha].
      apply getElementsByTagName_In in Hi. destruct Hi as (e & He & Ht).
      eauto. }
    clear Hm. induction Hh as [|i p l ptrs Hp Hh IH]; [constructor|].
    inversion Hin as [|? ? (e & He & Ht & Ha) Hin']; subst.
    constructor; [eauto 10|auto].
Qed.

Lemma constructor_pointer_elements_witness :
  List.NoDup [Examples.ptrHandle 4]
  /\ List.Forall
       (fun p => exists i e,
            ptrElement p = mkHandle Examples.spineUrl1 (XElement i)
            /\ Examples.emptyIdSpine !! i = Some e /\ tagName e = "ptr"
            /\ hasAncestor Examples.emptyIdSpine
                 (length Examples.emptyIdSpine) 1 i = true)
       [ {| ptrElement := Examples.ptrHandle 4;
            groupId := "";
            edition := Some Examples.edition1818;
            referencedUrl := "";
            referencedTarget := "x";
            dereferenced := None |} ].
Proof.
  exact (constructor_pointer_elements
           Examples.spineUrl1 Examples.emptyIdSpine 1
           {| Apparatus.id := "";
              Apparatus.n := None;
              Apparatus.element := Examples.ptrHandle 1;
              Apparatus.pointers :=
                [ {| ptrElement := Examples.ptrHandle 4;
                     groupId := "";
                     edition := Some Examples.edition1818;
                     referencedUrl := "";
                     referencedTarget := "x";
                     dereferenced := None |} ] |} eq_refl).
Defined.
